(** * JobAgent: the job aggregation, scoring and ranking pipeline

    A shallow embedding of the background service worker of the browser
    extension (scrapeAllJobs and the functions it calls) and of the
    utilities it imports (scoreJob, extractSmartKeywords, the fallback
    source list), with the properties of the pipeline proved over it.

    Conventions of the embedding.
    - JavaScript strings are [string]; [toLowerCase] and [trim] are the
      ASCII fragments of the JavaScript methods.
    - Instants are milliseconds since the epoch, in [Z]; an ISO date string
      is represented by the instant it denotes.
    - Everything the worker observes from outside (HTTP replies of the job
      boards, the document export, the language model, the clock, the
      digest and the serialiser of the platform) is a field of one record,
      the [World] of a run.
    - chrome.storage.local is the record [Store]; the asynchronous code is
      written in a state-and-exception monad over it. *)

From Stdlib Require Import ZArith List String Ascii Bool Lia Permutation Sorted QArith.
From Stdlib Require Import DecimalString.
Import ListNotations.
Local Open Scope string_scope.
Local Open Scope list_scope.
Local Open Scope Z_scope.

(** ** Numbers: the binary64 arithmetic that scoreJob performs *)

Module Double.

(** A non-negative finite double, [mant * 2^expo]. *)
Record dyadic : Type := mkDyadic { mant : Z; expo : Z }.

(** Nearest integer to [p / q], ties to even ([0 <= p], [0 < q]). *)
Definition rne_div (p q : Z) : Z :=
  let d := p / q in
  let r := p mod q in
  if 2 * r <? q then d
  else if q <? 2 * r then d + 1
  else if Z.even d then d else d + 1.

(** [p / q] scaled by [2^(-e)], as a fraction. *)
Definition scale (p q e : Z) : Z * Z :=
  if 0 <=? e then (p, q * 2 ^ e) else (p * 2 ^ (- e), q).

(** The exponent [e] with [2^52 <= (p/q) * 2^(-e) < 2^53]. *)
Definition binade (p q : Z) : Z :=
  let e0 := Z.log2 p - Z.log2 q - 52 in
  let '(n, d) := scale p q e0 in
  if 2 ^ 52 * d <=? n then e0 else e0 - 1.

(** The double nearest to the rational [p / q] (round to nearest, ties to
    even, 53 bits of precision).  Exponent range is not modelled: the
    operands below are counts of keywords and percentages, far from the
    overflow and underflow thresholds. *)
Definition round_ratio (p q : Z) : dyadic :=
  if p =? 0 then mkDyadic 0 0
  else
    let e := binade p q in
    let '(n, d) := scale p q e in
    mkDyadic (rne_div n d) e.

(** [a / b] on two integers held as doubles. *)
Definition div (a b : Z) : dyadic := round_ratio a b.

(** [x * k] for an integer [k]. *)
Definition mul (x : dyadic) (k : Z) : dyadic :=
  if 0 <=? expo x then round_ratio (mant x * k * 2 ^ expo x) 1
  else round_ratio (mant x * k) (2 ^ (- expo x)).

(** Math.round on a non-negative double: the nearest integer, ties
    towards plus infinity, that is [floor (x + 1/2)]. *)
Definition math_round (x : dyadic) : Z :=
  if 0 <=? expo x then mant x * 2 ^ expo x
  else (2 * mant x + 2 ^ (- expo x)) / 2 ^ (- expo x + 1).

End Double.

(** [Math.round((matched / size) * 100)] *)
Definition js_percent (matched size : Z) : Z :=
  Double.math_round (Double.mul (Double.div matched size) 100).

(** ** Strings *)

Definition lower_ascii (c : ascii) : ascii :=
  let n := nat_of_ascii c in
  if (65 <=? n)%nat && (n <=? 90)%nat then ascii_of_nat (n + 32) else c.

(** String.prototype.toLowerCase *)
Fixpoint toLowerCase (s : string) : string :=
  match s with
  | EmptyString => EmptyString
  | String c s' => String (lower_ascii c) (toLowerCase s')
  end.

(** String.prototype.includes *)
Fixpoint includes (s k : string) : bool :=
  String.prefix k s ||
  match s with
  | EmptyString => false
  | String _ s' => includes s' k
  end.

(** ** Sets of strings: insertion-ordered, as a JavaScript Set *)

Definition mem (k : string) (l : list string) : bool := existsb (String.eqb k) l.

(** Set.prototype.add *)
Definition set_add (acc : list string) (k : string) : list string :=
  if mem k acc then acc else acc ++ [k].

(** new Set(iterable) *)
Definition newSet (l : list string) : list string := fold_left set_add l [].

(** ** utils.js: scoreJob *)

Definition count_matched (lowerText : string) (keywords : list string) : Z :=
  fold_left (fun matched keyword =>
               if includes lowerText keyword then matched + 1 else matched)
            keywords 0.

Definition scoreJob (jobText : string) (keywords : list string) : Z * Z :=
  let size := Z.of_nat (List.length keywords) in
  if size =? 0 then (0, 0)
  else
    let lowerText := toLowerCase jobText in
    let matched := count_matched lowerText keywords in
    let score := js_percent matched size in
    (score, matched).

(** The decimal rendering of an integer inside a template literal. *)
Definition show (z : Z) : string := NilZero.string_of_int (Z.to_int z).

(** [a || b] where [a] is a string or undefined: the empty string is falsy. *)
Definition orElse (a : option string) (b : string) : string :=
  match a with
  | Some s => if String.eqb s "" then b else s
  | None => b
  end.

(** Truthiness of a stored string. *)
Definition truthy (a : option string) : bool :=
  match a with
  | Some s => negb (String.eqb s "")
  | None => false
  end.

(** String.prototype.slice(0, n) *)
Definition slice0 (n : nat) (s : string) : string := String.substring 0 n s.

Definition is_space (c : ascii) : bool :=
  let n := nat_of_ascii c in
  (n =? 32)%nat || ((9 <=? n)%nat && (n <=? 13)%nat).

Fixpoint trimStart (s : string) : string :=
  match s with
  | EmptyString => EmptyString
  | String c s' => if is_space c then trimStart s' else s
  end.

Fixpoint rev_string (acc s : string) : string :=
  match s with
  | EmptyString => acc
  | String c s' => rev_string (String c acc) s'
  end.

(** String.prototype.trim *)
Definition trim (s : string) : string :=
  rev_string "" (trimStart (rev_string "" (trimStart s))).

Fixpoint has_gt (s : string) : bool :=
  match s with
  | EmptyString => false
  | String c s' => Ascii.eqb c ">" || has_gt s'
  end.

(** [s.replace(/<[^>]*>/g, ' ')]: [in_tag] holds between a matched
    opening bracket and its closing bracket. *)
Fixpoint stripTagsFrom (in_tag : bool) (s : string) : string :=
  match s with
  | EmptyString => EmptyString
  | String c s' =>
      if in_tag then
        if Ascii.eqb c ">" then stripTagsFrom false s' else stripTagsFrom true s'
      else if Ascii.eqb c "<" then
        if has_gt s' then String " " (stripTagsFrom true s') else s
      else String c (stripTagsFrom false s')
  end.

Definition stripTags (s : string) : string := stripTagsFrom false s.

(** ** Data model *)

(** A date-valued property as it is stored: absent, null, a string that
    does not parse as a date, or an ISO string (held as its instant). *)
Inductive datefield : Type :=
| DateMissing
| DateNull
| DateInvalid (raw : string)
| DateIso (ms : Z).

(** A time value: a number of milliseconds, or NaN. *)
Inductive timevalue : Type :=
| NaN
| Time (ms : Z).

(** [new Date(x).getTime()] *)
Definition getTime (d : datefield) : timevalue :=
  match d with
  | DateMissing => NaN
  | DateNull => Time 0
  | DateInvalid _ => NaN
  | DateIso ms => Time ms
  end.

(** [t > cutoff]; every comparison with NaN is false. *)
Definition gt_time (t : timevalue) (cutoff : Z) : bool :=
  match t with
  | NaN => false
  | Time ms => cutoff <? ms
  end.

Inductive provider : Type := Greenhouse | Lever.

Record Job : Type := mkJob {
  id : string;
  source : provider;
  company : string;
  title : string;
  location : string;
  url : string;
  posted_at : option Z;        (* null, or the ISO string toISOString made *)
  description : string;
  first_seen_at : datefield;
  score : Z
}.

Record Board : Type := mkBoard { token : string; label : string }.

Record JobSources : Type := mkSources {
  greenhouse : list Board;     (* an absent list reads as the empty one *)
  lever : list Board
}.

(** chrome.storage.local, the keys the worker uses.  An entry of [topJobs]
    is [None] where the array holds undefined. *)
Record Store : Type := mkStore {
  jobSources : option JobSources;
  jobs : option (list Job);
  topJobs : option (list (option Job));
  jobsLastUpdated : option Z;
  jobsLastError : option string;
  cvLink : option string;
  cvKeywords : option (list string);
  cvKeywordsUpdatedAt : option Z;
  apiKey : option string;
  modelName : option string
}.

Definition emptyStore : Store :=
  mkStore None None None None None None None None None None.

(** A parsed JSON value.  The properties of an object are listed in the
    order in which the engine enumerates them. *)
#[local] Unset Elimination Schemes.
Inductive json : Type :=
| JNull
| JBool (b : bool)
| JNum (q : Q)
| JStr (s : string)
| JArr (items : list json)
| JObj (props : list (string * json)).
#[local] Set Elimination Schemes.

(** ** Constants of the worker *)

Definition MAX_JOB_AGE_DAYS : Z := 30.
Definition MAX_JOBS : Z := 10000.
Definition CV_CACHE_HOURS : Z := 24.
Definition DESC_TRUNCATE : Z := 2000.
Definition STORAGE_WARN_BYTES : Z := 8 * 1024 * 1024.

Definition FALLBACK_SOURCES : JobSources :=
  mkSources
    [ mkBoard "mongodb" "MongoDB"; mkBoard "cloudflare" "Cloudflare";
      mkBoard "coinbase" "Coinbase" ]
    [ mkBoard "palantir" "Palantir"; mkBoard "metabase" "Metabase" ].

(** ** The world of one run *)

(** What a [fetch] call gives: a rejected promise, or a response with its
    status and its decoded body ([None] when decoding the body throws). *)
Inductive Reply (A : Type) : Type :=
| Transport (msg : string)
| Http (status : Z) (body : option A).
Arguments Transport {A} msg.
Arguments Http {A} status body.

(** [res.ok] *)
Definition ok (status : Z) : bool := (200 <=? status) && (status <=? 299).

(** A date-like field of a remote posting: it parses, or it does not. *)
Inductive RawDate : Type :=
| RawInstant (ms : Z)
| RawGarbage.

(** A posting of the Greenhouse API; [None] is an absent or falsy field. *)
Record GhPosting : Type := mkGh {
  gh_id : string;
  gh_title : option string;
  gh_location_name : option string;
  gh_content : option string;
  gh_updated_at : option RawDate;
  gh_first_published_at : option RawDate;
  gh_absolute_url : option string
}.

(** A posting of the Lever API. *)
Record LvPosting : Type := mkLv {
  lv_id : string;
  lv_text : option string;
  lv_categories_location : option string;
  lv_descriptionPlain : option string;
  lv_description : option string;
  lv_createdAt : option RawDate;
  lv_hostedUrl : option string
}.

(** The points of a run at which the clock is read. *)
Inductive Tick : Type :=
| AtPosting (p : provider) (board : string) (index : nat)
| AtPrune
| AtKeywordAge
| AtKeywordStore
| AtPersist.

(** The two places from which the resume is downloaded. *)
Inductive DocCall : Type := ForKeywords | ForRanking.

Record World : Type := mkWorld {
  (* platform *)
  sha1 : string -> string;
  jsonLength : list Job -> Z;                 (* JSON.stringify(jobs).length *)
  clock : Tick -> Z;                          (* Date.now(), new Date() *)
  storageFault : list string -> option string;(* chrome.storage get throws *)
  (* network *)
  greenhouseApi : string -> Reply (list GhPosting);
  leverApi : string -> Reply (list LvPosting);
  docExport : DocCall -> string -> Reply string;
  (* language model: api key, model, resume excerpt (and job summaries);
     the body is JSON.parse of choices[0].message.content *)
  chatKeywords : string -> string -> string -> Reply json;
  chatRanking : string -> string -> string -> list string -> Reply json
}.

(** ** Exceptions and storage: a small monad *)

Inductive Outcome (A : Type) : Type :=
| Ok (value : A)
| Throw (message : string).
Arguments Ok {A} value.
Arguments Throw {A} message.

(** A computation over a state [S] that returns or throws; the state
    written before a throw stays written. *)
Definition M (S A : Type) : Type := S -> Outcome A * S.

Definition ret {S A} (a : A) : M S A := fun s => (Ok a, s).

Definition bind {S A B} (c : M S A) (k : A -> M S B) : M S B :=
  fun s =>
    match c s with
    | (Ok a, s') => k a s'
    | (Throw msg, s') => (Throw msg, s')
    end.

Definition lift {S A} (o : Outcome A) : M S A := fun s => (o, s).

Definition put {S} (s' : S) : M S unit := fun _ => (Ok tt, s').

Definition modify {S} (f : S -> S) : M S unit := fun s => (Ok tt, f s).

(** [try { c } catch (e) { h e.message }] *)
Definition try_catch {S A} (c : M S A) (h : string -> M S A) : M S A :=
  fun s =>
    match c s with
    | (Ok a, s') => (Ok a, s')
    | (Throw msg, s') => h msg s'
    end.

Declare Scope js_scope.
Delimit Scope js_scope with js.
Notation "x <- c ;; k" := (bind c (fun x => k))
  (at level 61, c at next level, right associativity) : js_scope.
Notation "c ;;; k" := (bind c (fun _ => k))
  (at level 61, right associativity) : js_scope.

(** All-or-nothing map of a fallible function, with the position. *)
Fixpoint traverse_from {A B} (f : nat -> A -> Outcome B) (i : nat) (l : list A)
  : Outcome (list B) :=
  match l with
  | [] => Ok []
  | x :: l' =>
      match f i x with
      | Throw msg => Throw msg
      | Ok y =>
          match traverse_from f (S i) l' with
          | Throw msg => Throw msg
          | Ok ys => Ok (y :: ys)
          end
      end
  end.

(** getStorage(keys): a snapshot of the store, unless the storage call
    itself throws. *)
Definition getStorage (w : World) (keys : list string) : M Store Store :=
  fun s =>
    match storageFault w keys with
    | Some msg => (Throw msg, s)
    | None => (Ok s, s)
    end.

(** setStorage(obj): the keys of [obj] are overwritten, the others kept. *)
Definition setStorage (update : Store -> Store) : M Store unit := modify update.

(** ** Source fetchers *)

(** [posted ? new Date(posted).toISOString() : null]; toISOString throws a
    RangeError on an invalid date. *)
Definition toISOString (posted : option RawDate) : Outcome (option Z) :=
  match posted with
  | None => Ok None
  | Some (RawInstant ms) => Ok (Some ms)
  | Some RawGarbage => Throw "Invalid time value"
  end.

(** [a || b] on two optional fields. *)
Definition orField {A} (a b : option A) : option A :=
  match a with
  | Some _ => a
  | None => b
  end.

Definition normalizeGreenhouse (w : World) (token : string) (i : nat) (j : GhPosting)
  : Outcome Job :=
  let loc := orElse (gh_location_name j) "" in
  let desc := slice0 (Z.to_nat DESC_TRUNCATE) (stripTags (orElse (gh_content j) "")) in
  let posted := orField (gh_updated_at j) (gh_first_published_at j) in
  let jobUrl :=
    orElse (gh_absolute_url j)
           ("https://boards.greenhouse.io/" ++ token ++ "/jobs/" ++ gh_id j) in
  let id := sha1 w ("greenhouse|" ++ token ++ "|" ++ jobUrl) in
  match toISOString posted with
  | Throw msg => Throw msg
  | Ok posted_at =>
      Ok {| id := id;
            source := Greenhouse;
            company := token;
            title := orElse (gh_title j) "";
            location := loc;
            url := jobUrl;
            posted_at := posted_at;
            description := desc;
            first_seen_at := DateIso (clock w (AtPosting Greenhouse token i));
            score := 0 |}
  end.

Definition fetchGreenhouseJobs (w : World) (token : string) : Outcome (list Job) :=
  match greenhouseApi w token with
  | Transport msg => Throw msg
  | Http status body =>
      if negb (ok status) then Throw ("Greenhouse " ++ token ++ ": HTTP " ++ show status)
      else
        match body with
        | None => Throw "Unexpected end of JSON input"
        | Some postings => traverse_from (normalizeGreenhouse w token) 0 postings
        end
  end.

Definition normalizeLever (w : World) (handle : string) (i : nat) (j : LvPosting)
  : Outcome Job :=
  let loc := orElse (lv_categories_location j) "" in
  let desc :=
    slice0 (Z.to_nat DESC_TRUNCATE)
           (stripTags (orElse (lv_descriptionPlain j) (orElse (lv_description j) ""))) in
  let jobUrl :=
    orElse (lv_hostedUrl j) ("https://jobs.lever.co/" ++ handle ++ "/" ++ lv_id j) in
  let id := sha1 w ("lever|" ++ handle ++ "|" ++ jobUrl) in
  match toISOString (lv_createdAt j) with
  | Throw msg => Throw msg
  | Ok posted =>
      Ok {| id := id;
            source := Lever;
            company := handle;
            title := orElse (lv_text j) "";
            location := loc;
            url := jobUrl;
            posted_at := posted;
            description := desc;
            first_seen_at := DateIso (clock w (AtPosting Lever handle i));
            score := 0 |}
  end.

Definition fetchLeverJobs (w : World) (handle : string) : Outcome (list Job) :=
  match leverApi w handle with
  | Transport msg => Throw msg
  | Http status body =>
      if negb (ok status) then Throw ("Lever " ++ handle ++ ": HTTP " ++ show status)
      else
        match body with
        | None => Throw "Unexpected end of JSON input"
        | Some postings => traverse_from (normalizeLever w handle) 0 postings
        end
  end.

(** ** The resume document *)

Definition is_id_char (c : ascii) : bool :=
  let n := nat_of_ascii c in
  ((48 <=? n) && (n <=? 57) || (65 <=? n) && (n <=? 90) || (97 <=? n) && (n <=? 122)
   || (n =? 95) || (n =? 45))%nat.

Fixpoint drop (n : nat) (s : string) : string :=
  match n, s with
  | O, _ => s
  | S n', String _ s' => drop n' s'
  | S _, EmptyString => EmptyString
  end.

Fixpoint take_id (s : string) : string :=
  match s with
  | EmptyString => EmptyString
  | String c s' => if is_id_char c then String c (take_id s') else EmptyString
  end.

(** utils.js: the first group of
    [/docs\.google\.com\/document\/d\/([a-zA-Z0-9_-]+)/]. *)
Fixpoint extractGoogleDocId (link : string) : option string :=
  let lit := "docs.google.com/document/d/" in
  let here :=
    if String.prefix lit link
    then take_id (drop (String.length lit) link) else "" in
  if negb (String.eqb here "") then Some here
  else
    match link with
    | EmptyString => None
    | String _ link' => extractGoogleDocId link'
    end.

Definition fetchGoogleDocTextBg (w : World) (call : DocCall) (link : string)
  : Outcome string :=
  match extractGoogleDocId link with
  | None => Throw "Invalid Google Doc link"
  | Some docId =>
      match docExport w call docId with
      | Transport msg => Throw msg
      | Http status body =>
          if negb (ok status) then Throw ("Doc export HTTP " ++ show status)
          else
            match body with
            | None => Throw "body stream already read"
            | Some text => Ok text
            end
      end
  end.

(** ** Keyword extraction *)

Definition techTerms : list string :=
  [ "python"; "javascript"; "typescript"; "react"; "vue"; "angular"; "node";
    "nodejs"; "java"; "c#"; "c++"; "golang"; "rust"; "swift"; "kotlin";
    "ruby"; "php"; "scala"; "sql"; "nosql"; "mongodb"; "postgres";
    "postgresql"; "mysql"; "redis"; "elasticsearch"; "kafka";
    "aws"; "azure"; "gcp"; "docker"; "kubernetes"; "terraform";
    "ai"; "ml"; "machine learning"; "deep learning"; "nlp"; "llm";
    "data"; "analytics"; "api"; "rest"; "graphql"; "grpc";
    "devops"; "ci/cd"; "git"; "linux";
    "html"; "css"; "sass"; "tailwind";
    "spring"; "django"; "flask"; "fastapi"; "express"; "rails";
    "pytorch"; "tensorflow"; "pandas"; "numpy"; "spark";
    "firebase"; "supabase"; "vercel"; "netlify";
    "agile"; "scrum"; "kanban";
    "frontend"; "backend"; "fullstack"; "full-stack"; "full stack";
    "mobile"; "ios"; "android"; "react native"; "flutter";
    "cloud"; "microservices"; "distributed"; "scalable";
    "security"; "encryption"; "oauth"; "saml";
    "product"; "design"; "ux"; "figma";
    "fintech"; "healthtech"; "edtech"; "saas"; "b2b"; "b2c";
    "startup"; "enterprise" ].

Definition roleTerms : list string :=
  [ "engineer"; "developer"; "architect"; "manager"; "lead"; "senior";
    "staff"; "principal"; "director"; "analyst"; "scientist"; "consultant";
    "intern"; "junior"; "mid-level" ].

Definition addMatching (lowerText : string) (terms keywords : list string)
  : list string :=
  fold_left (fun kws term => if includes lowerText term then set_add kws term else kws)
            terms keywords.

(** utils.js: extractSmartKeywords, the pattern strategy. *)
Definition extractSmartKeywords (text : string) : list string :=
  let lowerText := toLowerCase text in
  let keywords := addMatching lowerText techTerms [] in
  let keywords := addMatching lowerText roleTerms keywords in
  keywords.

(** [parsed.name] on a parsed JSON value: a TypeError on null, undefined
    on the other non-objects and on an absent property. *)
Definition getProp (name : string) (v : json) : Outcome (option json) :=
  match v with
  | JNull => Throw ("Cannot read properties of null (reading '" ++ name ++ "')")
  | JObj props =>
      Ok (option_map snd (find (fun p => String.eqb (fst p) name) props))
  | _ => Ok None
  end.

(** [k.toLowerCase().trim()] on an element of the keywords array. *)
Definition normalizeKeyword (i : nat) (k : json) : Outcome string :=
  match k with
  | JStr s => Ok (trim (toLowerCase s))
  | _ => Throw "k.toLowerCase is not a function"
  end.

Definition aiExtractKeywords (w : World) (cvText apiKey model : string)
  : Outcome (list string) :=
  match chatKeywords w apiKey model (slice0 4000 cvText) with
  | Transport msg => Throw msg
  | Http status body =>
      if negb (ok status) then Throw ("OpenAI HTTP " ++ show status)
      else
        match body with
        | None => Throw "Unexpected token in JSON"
        | Some parsed =>
            match getProp "keywords" parsed with
            | Throw msg => Throw msg
            | Ok (Some (JArr (k :: kws))) =>
                match traverse_from normalizeKeyword 0 (k :: kws) with
                | Throw msg => Throw msg
                | Ok ks => Ok (filter (fun k => (0 <? String.length k)%nat) ks)
                end
            | Ok _ => Throw "AI returned no keywords"
            end
        end
  end.

Definition setKeywords (kws : list string) (now : Z) (s : Store) : Store :=
  {| jobSources := jobSources s; jobs := jobs s; topJobs := topJobs s;
     jobsLastUpdated := jobsLastUpdated s; jobsLastError := jobsLastError s;
     cvLink := cvLink s;
     cvKeywords := Some kws; cvKeywordsUpdatedAt := Some now;
     apiKey := apiKey s; modelName := modelName s |}.

Definition cacheFresh (w : World) (data : Store) : option (list string) :=
  match cvKeywords data, cvKeywordsUpdatedAt data with
  | Some kws, Some updatedAt =>
      let age := clock w AtKeywordAge - updatedAt in
      if age <? CV_CACHE_HOURS * 3600 * 1000 then Some kws else None
  | _, _ => None
  end.

Definition getCvKeywords (w : World) : M Store (list string) :=
  (data <- getStorage w ["cvLink"; "cvKeywords"; "cvKeywordsUpdatedAt"; "apiKey"; "modelName"] ;;
   match cacheFresh w data with
   | Some kws => ret kws
   | None =>
       if negb (truthy (cvLink data)) then ret []
       else
         try_catch
           (cvText <- lift (fetchGoogleDocTextBg w ForKeywords (orElse (cvLink data) "")) ;;
            kws <- (if truthy (apiKey data) then
                      try_catch
                        (lift (aiExtractKeywords w cvText (orElse (apiKey data) "")
                                 (orElse (modelName data) "gpt-4o-mini")))
                        (fun aiErr => ret (extractSmartKeywords cvText))
                    else ret (extractSmartKeywords cvText)) ;;
            setStorage (setKeywords kws (clock w AtKeywordStore)) ;;;
            ret kws)
           (fun e =>
              ret match cvKeywords data with
                  | Some kws => kws
                  | None => []
                  end)
   end)%js.

(** ** AI ranking *)

Definition jsTruthy (v : json) : bool :=
  match v with
  | JNull => false
  | JBool b => b
  | JNum q => negb (Qeq_bool q 0)
  | JStr s => negb (String.eqb s "")
  | JArr _ => true
  | JObj _ => true
  end.

(** [a || b] on two possibly undefined values. *)
Definition orJson (a b : option json) : option json :=
  match a with
  | Some v => if jsTruthy v then a else b
  | None => b
  end.

(** [Object.values(parsed)[0]] *)
Definition firstValue (v : json) : option json :=
  match v with
  | JObj ((_, x) :: _) => Some x
  | JStr (String c _) => Some (JStr (String c EmptyString))
  | _ => None
  end.

(** The index array of the reply: a bare array, or the first truthy of
    [parsed.indices], [parsed.jobs], [parsed.top5] and the first value. *)
Definition replyIndices (parsed : json) : Outcome (option json) :=
  match parsed with
  | JArr _ => Ok (Some parsed)
  | _ =>
      match getProp "indices" parsed, getProp "jobs" parsed, getProp "top5" parsed with
      | Ok a, Ok b, Ok c => Ok (orJson a (orJson b (orJson c (firstValue parsed))))
      | Throw msg, _, _ => Throw msg
      | _, Throw msg, _ => Throw msg
      | _, _, Throw msg => Throw msg
      end
  end.

(** [typeof i === 'number' && i >= 0 && i < top100.length] *)
Definition validIndex (len : nat) (i : json) : bool :=
  match i with
  | JNum q => Qle_bool 0 q && negb (Qle_bool (inject_Z (Z.of_nat len)) q)
  | _ => false
  end.

(** [top100[i]] for a value that passed [validIndex]: undefined unless the
    number is an integer. *)
Definition pick (top100 : list Job) (i : json) : option Job :=
  match i with
  | JNum q =>
      if Qnum q mod Z.pos (Qden q) =? 0
      then nth_error top100 (Z.to_nat (Qnum q / Z.pos (Qden q)))
      else None
  | _ => None
  end.

Definition summary (i : nat) (j : Job) : string :=
  "[" ++ show (Z.of_nat i) ++ "] " ++ title j ++ " @ " ++ company j ++ " | "
      ++ location j ++ " | " ++ slice0 300 (description j).

Fixpoint summaries_from (i : nat) (l : list Job) : list string :=
  match l with
  | [] => []
  | j :: l' => summary i j :: summaries_from (S i) l'
  end.

Definition aiRankTop5 (w : World) (top100 : list Job) (cvText apiKey model : string)
  : Outcome (list (option Job)) :=
  let summaries := summaries_from 0 top100 in
  match chatRanking w apiKey model (slice0 3000 cvText) summaries with
  | Transport msg => Throw msg
  | Http status body =>
      if negb (ok status) then Throw ("OpenAI HTTP " ++ show status)
      else
        match body with
        | None => Throw "Unexpected token in JSON"
        | Some parsed =>
            match replyIndices parsed with
            | Throw msg => Throw msg
            | Ok (Some (JArr indices)) =>
                Ok (map (pick top100)
                        (firstn 5 (filter (validIndex (List.length top100)) indices)))
            | Ok _ => Throw "AI did not return an array"
            end
        end
  end.

(** ** Main scrape *)

(** The object [existingMap]: its properties in enumeration order.  The
    keys are ids, 40-digit hexadecimal digests: none is an array index, so
    the order is the order of first insertion, and none names a member of
    Object.prototype. *)
Definition ObjectMap : Type := list (string * Job).

(** [existingMap[k] = v] *)
Fixpoint map_set (m : ObjectMap) (k : string) (v : Job) : ObjectMap :=
  match m with
  | [] => [(k, v)]
  | (k', v') :: m' =>
      if String.eqb k' k then (k, v) :: m' else (k', v') :: map_set m' k v
  end.

(** [existingMap[k]] *)
Definition map_get (m : ObjectMap) (k : string) : option Job :=
  option_map snd (find (fun p => String.eqb (fst p) k) m).

Definition Object_values (m : ObjectMap) : list Job := map snd m.

Definition indexById (existing : list Job) : ObjectMap :=
  fold_left (fun m j => map_set m (id j) j) existing [].

(** [!existingMap[j.id]] *)
Definition isNew (existingMap : ObjectMap) (j : Job) : bool :=
  match map_get existingMap (id j) with
  | Some _ => false
  | None => true
  end.

(** One provider's loop over its boards; a board whose fetch throws is
    skipped with a warning. *)
Fixpoint collect (fetchJobs : string -> Outcome (list Job)) (existingMap : ObjectMap)
         (boards : list Board) (newJobs : list Job) : list Job :=
  match boards with
  | [] => newJobs
  | board :: rest =>
      let newJobs' :=
        match fetchJobs (token board) with
        | Ok fetched => newJobs ++ filter (isNew existingMap) fetched
        | Throw _ => newJobs
        end in
      collect fetchJobs existingMap rest newJobs'
  end.

(** Prune jobs older than MAX_JOB_AGE_DAYS. *)
Definition prune (cutoff : Z) (allJobs : list Job) : list Job :=
  filter (fun j => gt_time (getTime (first_seen_at j)) cutoff) allJobs.

Definition setScore (j : Job) (score : Z) : Job :=
  {| id := id j; source := source j; company := company j; title := title j;
     location := location j; url := url j; posted_at := posted_at j;
     description := description j; first_seen_at := first_seen_at j;
     score := score |}.

Definition setDescription (j : Job) (description : string) : Job :=
  {| id := id j; source := source j; company := company j; title := title j;
     location := location j; url := url j; posted_at := posted_at j;
     description := description; first_seen_at := first_seen_at j;
     score := score j |}.

(** [[j.title, j.company, j.location, j.description].join(' ')] *)
Definition jobText (j : Job) : string :=
  title j ++ " " ++ company j ++ " " ++ location j ++ " " ++ description j.

Definition rescore (kwSet : list string) (j : Job) : Job :=
  setScore j (fst (scoreJob (jobText j) kwSet)).

(** [a.posted_at ? new Date(a.posted_at).getTime() : 0] *)
Definition postedTime (j : Job) : Z :=
  match posted_at j with
  | Some ms => ms
  | None => 0
  end.

(** The comparator passed to sort: negative when [a] goes first. *)
Definition compareJobs (a b : Job) : Z :=
  if negb (score b =? score a) then score b - score a
  else postedTime b - postedTime a.

Fixpoint insert (cmp : Job -> Job -> Z) (x : Job) (l : list Job) : list Job :=
  match l with
  | [] => [x]
  | y :: l' => if cmp x y <=? 0 then x :: y :: l' else y :: insert cmp x l'
  end.

(** Array.prototype.sort with a comparator: a stable sort, so its result
    for a consistent comparator is the one computed here. *)
Definition sort (cmp : Job -> Job -> Z) (l : list Job) : list Job :=
  fold_right (insert cmp) [] l.

(** Cap at MAX_JOBS. *)
Definition cap (allJobs : list Job) : list Job :=
  if MAX_JOBS <? Z.of_nat (List.length allJobs)
  then firstn (Z.to_nat MAX_JOBS) allJobs
  else allJobs.

Definition truncateDescription (j : Job) : Job :=
  if negb (String.eqb (description j) "") && (500 <? String.length (description j))%nat
  then setDescription j (slice0 500 (description j))
  else j.

(** Truncate descriptions if the serialised list is too large. *)
Definition sizeGuard (w : World) (allJobs : list Job) : list Job :=
  if STORAGE_WARN_BYTES <? jsonLength w allJobs
  then map truncateDescription allJobs
  else allJobs.

(** The template literal of the log line; it throws on an undefined pick. *)
Definition pickLabel (i : nat) (j : option Job) : Outcome string :=
  match j with
  | Some j => Ok (title j ++ " @ " ++ company j)%string
  | None => Throw "Cannot read properties of undefined (reading 'title')"
  end.

(** The body of the try block around the AI ranking; its state is the
    local variable [topJobs]. *)
Definition rankBlock (w : World) (top100 : list Job)
           (apiKey cvLink : string) (modelName : option string)
  : M (list (option Job)) unit :=
  (cvText <- lift (fetchGoogleDocTextBg w ForRanking cvLink) ;;
   let model := orElse modelName "gpt-4o-mini" in
   aiPicks <- lift (aiRankTop5 w top100 cvText apiKey model) ;;
   if (0 <? List.length aiPicks)%nat then
     put aiPicks ;;;
     _ <- lift (traverse_from pickLabel 0 aiPicks) ;;
     ret tt
   else ret tt)%js.

(** The shortlist: the keyword-only top 5, replaced by the AI picks when
    there are any. *)
Definition shortlist (w : World) (data : Store) (top100 : list Job)
  : list (option Job) :=
  let topJobs := map Some (firstn 5 top100) in
  if truthy (apiKey data) && truthy (cvLink data) && (0 <? List.length top100)%nat
  then
    snd (try_catch
           (rankBlock w top100 (orElse (apiKey data) "") (orElse (cvLink data) "")
                      (modelName data))
           (fun e => ret tt)
           topJobs)
  else topJobs.

Definition activeSources (data : Store) : JobSources :=
  match jobSources data with
  | None => FALLBACK_SOURCES
  | Some js =>
      if (List.length (greenhouse js) =? 0)%nat && (List.length (lever js) =? 0)%nat
      then FALLBACK_SOURCES else js
  end.

Definition fromOption {A} (o : option (list A)) : list A :=
  match o with
  | Some l => l
  | None => []
  end.

(** The jobs fetched from every board and not already in the store. *)
Definition fetchNew (w : World) (sources : JobSources) (existingMap : ObjectMap)
  : list Job :=
  let newJobs := collect (fetchGreenhouseJobs w) existingMap (greenhouse sources) [] in
  collect (fetchLeverJobs w) existingMap (lever sources) newJobs.

Definition cutoff (w : World) : Z :=
  clock w AtPrune - MAX_JOB_AGE_DAYS * 86400 * 1000.

(** Merge, prune, score, sort and cap, up to the size guard. *)
Definition rankAll (w : World) (existingMap : ObjectMap) (newJobs : list Job)
           (keywords : list string) : list Job :=
  let allJobs := Object_values existingMap ++ newJobs in
  let allJobs := prune (cutoff w) allJobs in
  let kwSet := newSet keywords in
  let allJobs := map (rescore kwSet) allJobs in
  let allJobs := sort compareJobs allJobs in
  let allJobs := cap allJobs in
  sizeGuard w allJobs.

Definition setResult (allJobs : list Job) (topJobs : list (option Job)) (now : Z)
           (s : Store) : Store :=
  {| jobSources := jobSources s;
     jobs := Some allJobs; topJobs := Some topJobs;
     jobsLastUpdated := Some now; jobsLastError := None;
     cvLink := cvLink s; cvKeywords := cvKeywords s;
     cvKeywordsUpdatedAt := cvKeywordsUpdatedAt s;
     apiKey := apiKey s; modelName := modelName s |}.

Definition setError (msg : string) (s : Store) : Store :=
  {| jobSources := jobSources s; jobs := jobs s; topJobs := topJobs s;
     jobsLastUpdated := jobsLastUpdated s; jobsLastError := Some msg;
     cvLink := cvLink s; cvKeywords := cvKeywords s;
     cvKeywordsUpdatedAt := cvKeywordsUpdatedAt s;
     apiKey := apiKey s; modelName := modelName s |}.

(** The try block of scrapeAllJobs. *)
Definition scrapeBody (w : World) : M Store unit :=
  (data <- getStorage w ["jobSources"] ;;
   let sources := activeSources data in
   data <- getStorage w ["jobs"] ;;
   let existingMap := indexById (fromOption (jobs data)) in
   let newJobs := fetchNew w sources existingMap in
   keywords <- getCvKeywords w ;;
   let allJobs := rankAll w existingMap newJobs keywords in
   let top100 := firstn 100 allJobs in
   data <- getStorage w ["apiKey"; "modelName"; "cvLink"] ;;
   let topJobs := shortlist w data top100 in
   setStorage (setResult allJobs topJobs (clock w AtPersist)))%js.

(** scrapeAllJobs: the store it leaves behind. *)
Definition scrapeAllJobs (w : World) (s : Store) : Store :=
  snd (try_catch (scrapeBody w) (fun e => setStorage (setError e)) s).

(** ** Notions used by the properties *)

(** A keyword is a case-insensitive substring of a text when it occurs in
    the text once both are put in lower case. *)
Definition includes_ci (text keyword : string) : bool :=
  includes (toLowerCase text) (toLowerCase keyword).

(** The members of a Keyword Set are lower-case strings. *)
Definition lowercase (k : string) : Prop := toLowerCase k = k.

(** A first-seen date is older than the cutoff when it denotes an instant
    before it. *)
Definition olderThan (d : datefield) (cutoff : Z) : Prop :=
  exists ms, getTime d = Time ms /\ ms < cutoff.

(** The sort order of the store: score descending, then posted_at
    descending, an unknown posted_at counting as the instant 0. *)
Definition ranksBefore (a b : Job) : Prop :=
  score b < score a \/ (score a = score b /\ postedTime b <= postedTime a).

(** No storage call of the run throws. *)
Definition storageWorks (w : World) : Prop :=
  forall keys, storageFault w keys = None.

(** The identity index built from the store at the start of a run. *)
Definition existingIndex (s : Store) : ObjectMap := indexById (fromOption (jobs s)).

(** The merged collection of a run, before pruning. *)
Definition merged (w : World) (s : Store) : list Job :=
  Object_values (existingIndex s) ++ fetchNew w (activeSources s) (existingIndex s).

(** The store a run persists when its keyword step returned [kws] and left
    the store [s1]. *)
Definition persisted (w : World) (s : Store) (kws : list string) (s1 : Store) : Store :=
  let allJobs := rankAll w (existingIndex s)
                         (fetchNew w (activeSources s) (existingIndex s)) kws in
  setResult allJobs (shortlist w s1 (firstn 100 allJobs)) (clock w AtPersist) s1.

(** The number of entries of a list of jobs that carry the id [k]. *)
Definition occurrences (k : string) (l : list Job) : nat :=
  List.length (filter (fun j => String.eqb (id j) k) l).

(** What identifies and ranks an entry of the store. *)
Definition ranked (j : Job) : string * Z * option Z := (id j, score j, posted_at j).

(** The jobs of a store, the empty list when the key is unset. *)
Definition storedJobs (s : Store) : list Job := fromOption (jobs s).

(** The stores of an execution.  Before the first run no jobs are stored;
    a run leads from a store to the next one; in between, the other parts
    of the extension write the settings (links, credential, sources) and
    never the jobs. *)
Inductive Reachable : Store -> Prop :=
| Installed (s : Store) : jobs s = None -> Reachable s
| AfterRun (w : World) (s : Store) : Reachable s -> Reachable (scrapeAllJobs w s)
| AfterSettings (s s' : Store) : Reachable s -> jobs s' = jobs s -> Reachable s'.

(** The fetcher and the board list of a provider. *)
Definition fetchJobs (w : World) (p : provider) : string -> Outcome (list Job) :=
  match p with
  | Greenhouse => fetchGreenhouseJobs w
  | Lever => fetchLeverJobs w
  end.

Definition boardsOf (p : provider) (sources : JobSources) : list Board :=
  match p with
  | Greenhouse => greenhouse sources
  | Lever => lever sources
  end.

Definition withBoards (p : provider) (boards : list Board) (sources : JobSources)
  : JobSources :=
  match p with
  | Greenhouse => mkSources boards (lever sources)
  | Lever => mkSources (greenhouse sources) boards
  end.

(** The reply of a board's API. *)
Definition boardStatus (w : World) (p : provider) (board : string) : option Z :=
  match p with
  | Greenhouse =>
      match greenhouseApi w board with Http status _ => Some status | _ => None end
  | Lever =>
      match leverApi w board with Http status _ => Some status | _ => None end
  end.

(** The ways in which the keyword extraction by the language model fails:
    transport failure, an error status, a reply that does not decode, a
    decoded reply without a keywords array, an empty keywords array, a
    keywords array with an element that is not a string. *)
Inductive ExtractionFailure : Reply json -> Prop :=
| ExtractTransport (msg : string) : ExtractionFailure (Transport msg)
| ExtractStatus (status : Z) (body : option json) :
    ok status = false -> ExtractionFailure (Http status body)
| ExtractUndecodable (status : Z) : ExtractionFailure (Http status None)
| ExtractMalformed (status : Z) (parsed : json) :
    (forall items, getProp "keywords" parsed <> Ok (Some (JArr items))) ->
    ExtractionFailure (Http status (Some parsed))
| ExtractEmpty (status : Z) (parsed : json) :
    getProp "keywords" parsed = Ok (Some (JArr [])) ->
    ExtractionFailure (Http status (Some parsed))
| ExtractBadElement (status : Z) (parsed : json) (items : list json) (msg : string) :
    getProp "keywords" parsed = Ok (Some (JArr items)) ->
    traverse_from normalizeKeyword 0 items = Throw msg ->
    ExtractionFailure (Http status (Some parsed)).

(** An entry of the index array that the re-rank takes as an index into a
    pool of [len] jobs: a number that is at least 0 and less than [len]. *)
Definition acceptedIndex (len : nat) (i : json) : Prop :=
  exists q, i = JNum q /\ (0 <= q)%Q /\ (q < inject_Z (Z.of_nat len))%Q.

(** The ways in which the re-rank of a pool of [len] jobs gives nothing
    usable: transport failure, an error status, a reply that does not
    decode, a decoded reply that holds no index array, an index array none
    of whose entries is accepted as an index (all of them out of range, or
    not numbers). *)
Inductive RankingFailure (len : nat) : Reply json -> Prop :=
| RankTransport (msg : string) : RankingFailure len (Transport msg)
| RankStatus (status : Z) (body : option json) :
    ok status = false -> RankingFailure len (Http status body)
| RankUndecodable (status : Z) : RankingFailure len (Http status None)
| RankBadShape (status : Z) (parsed : json) :
    (forall indices, replyIndices parsed <> Ok (Some (JArr indices))) ->
    RankingFailure len (Http status (Some parsed))
| RankNoValidIndex (status : Z) (parsed : json) (indices : list json) :
    replyIndices parsed = Ok (Some (JArr indices)) ->
    (forall i, In i indices -> ~ acceptedIndex len i) ->
    RankingFailure len (Http status (Some parsed)).

(** The resume excerpt and the reply of the language model in the re-rank
    that a run requests for a pool, with the settings of the store. *)
Definition rankingReply (w : World) (data : Store) (cvText : string)
           (pool : list Job) : Reply json :=
  chatRanking w (orElse (apiKey data) "") (orElse (modelName data) "gpt-4o-mini")
              (slice0 3000 cvText) (summaries_from 0 pool).

(** The re-rank that a run requests for a pool gives nothing usable: the
    resume cannot be downloaded for it, or the reply of the language model
    to this request is a [RankingFailure] for the pool. *)
Definition rankingUnusable (w : World) (data : Store) (pool : list Job) : Prop :=
  (exists msg,
     fetchGoogleDocTextBg w ForRanking (orElse (cvLink data) "") = Throw msg)
  \/ (exists cvText,
        fetchGoogleDocTextBg w ForRanking (orElse (cvLink data) "") = Ok cvText
        /\ RankingFailure (List.length pool) (rankingReply w data cvText pool)).

(** The list a run is about to persist, before the size guard. *)
Definition preGuard (w : World) (s : Store) (kws : list string) : list Job :=
  cap (sort compareJobs
         (map (rescore (newSet kws)) (prune (cutoff w) (merged w s)))).

(** ** A concrete world, for the examples *)

Module Scenario.

Definition day : Z := 86400 * 1000.

(** The instant every reading of the clock returns. *)
Definition today : Z := 20000 * day.

Definition acme : list GhPosting :=
  [ mkGh "1" (Some "Python Engineer") (Some "Remote")
         (Some "<p>Build <b>APIs</b> in Python</p>")
         (Some (RawInstant (today - 5 * day))) None None;
    mkGh "2" (Some "Designer") None (Some "Figma")
         None (Some (RawInstant (today - 2 * day)))
         (Some "https://acme.example/jobs/2") ].

Definition beta : list LvPosting :=
  [ mkLv "9" (Some "Rust Developer") (Some "Berlin") None (Some "systems")
         (Some (RawInstant (today - day))) None ].

(** The Greenhouse board acme and the Lever board beta answer; every other
    board answers with an error status.  The resume can be downloaded.  The
    digest is replaced by the identity, which has no collisions either. *)
Definition build (fault : list string -> option string)
           (keywordsReply rankingReply : Reply json) : World :=
  {| sha1 := fun text => text;
     jsonLength := fun l => 400 * Z.of_nat (List.length l);
     clock := fun _ => today;
     storageFault := fault;
     greenhouseApi :=
       fun board => if String.eqb board "acme" then Http 200 (Some acme)
                    else Http 500 None;
     leverApi :=
       fun board => if String.eqb board "beta" then Http 200 (Some beta)
                    else Http 404 None;
     docExport := fun _ _ => Http 200 (Some "Senior Python and Rust engineer");
     chatKeywords := fun _ _ _ => keywordsReply;
     chatRanking := fun _ _ _ _ => rankingReply |}.

(** The language model cannot be reached. *)
Definition offline : World :=
  build (fun _ => None) (Transport "Failed to fetch") (Transport "Failed to fetch").

(** Reading the key jobs from the storage throws. *)
Definition faulty : World :=
  build (fun keys =>
           match keys with
           | [key] => if String.eqb key "jobs"
                      then Some "Extension context invalidated." else None
           | _ => None
           end)
        (Transport "Failed to fetch") (Transport "Failed to fetch").

(** The language model ranks with the reply [[1, 500]]. *)
Definition mixedIndices : World :=
  build (fun _ => None) (Transport "Failed to fetch")
        (Http 200 (Some (JArr [JNum (1 # 1); JNum (500 # 1)]))).

(** The language model ranks with the reply [[500]]. *)
Definition outOfRange : World :=
  build (fun _ => None) (Transport "Failed to fetch")
        (Http 200 (Some (JArr [JNum (500 # 1)]))).

(** The language model ranks with the reply [{"indices": [0.5]}]. *)
Definition fractionalIndex : World :=
  build (fun _ => None) (Transport "Failed to fetch")
        (Http 200 (Some (JObj [("indices", JArr [JNum (1 # 2)])]))).

Definition sources : JobSources :=
  mkSources [mkBoard "acme" "Acme"; mkBoard "down" "Down"] [mkBoard "beta" "Beta"].

Definition storeWith (existing : option (list Job)) : Store :=
  {| jobSources := Some sources;
     jobs := existing; topJobs := None;
     jobsLastUpdated := None; jobsLastError := None;
     cvLink := Some "https://docs.google.com/document/d/abc_123/edit";
     cvKeywords := None; cvKeywordsUpdatedAt := None;
     apiKey := Some "sk-test"; modelName := None |}.

(** A store that has not been filled yet. *)
Definition fresh : Store := storeWith None.

Definition posted (id : string) (seen : datefield) (posted_at : option Z) : Job :=
  {| id := id; source := Greenhouse; company := "acme"; title := "Engineer";
     location := ""; url := id; posted_at := posted_at; description := "";
     first_seen_at := seen; score := 0 |}.

Definition stored (id : string) (seen : datefield) : Job := posted id seen None.

(** The first posting of acme, seen 31 days ago. *)
Definition staleJob : Job :=
  stored "greenhouse|acme|https://boards.greenhouse.io/acme/jobs/1"
         (DateIso (today - 31 * day)).

(** Jobs seen exactly 30 days ago, one second later, and without a date. *)
Definition edgeJob : Job := stored "edge" (DateIso (today - 30 * day)).
Definition insideJob : Job := stored "inside" (DateIso (today - 30 * day + 1000)).
Definition undatedJob : Job := stored "undated" DateMissing.

(** A job whose date does not parse. *)
Definition garbledJob : Job := stored "garbled" (DateInvalid "next week").

Definition staleStore : Store := storeWith (Some [staleJob]).
Definition agedStore : Store :=
  storeWith (Some [edgeJob; insideJob; undatedJob; staleJob]).

(** An empty store with the boards acme and beta, no resume and no
    credential of the language model. *)
Definition bare : Store :=
  {| jobSources :=
       Some (mkSources [mkBoard "acme" "Acme"] [mkBoard "beta" "Beta"]);
     jobs := None; topJobs := None;
     jobsLastUpdated := None; jobsLastError := None;
     cvLink := None; cvKeywords := None; cvKeywordsUpdatedAt := None;
     apiKey := None; modelName := None |}.

(** What the fetcher of the board beta returns. *)
Definition betaJobs : list Job :=
  match fetchLeverJobs offline "beta" with
  | Ok fetched => fetched
  | Throw _ => []
  end.

(** The store after a first run, and after a second one. *)
Definition afterOne : Store := scrapeAllJobs offline fresh.
Definition afterTwo : Store := scrapeAllJobs offline afterOne.

(** 10,000 jobs posted today and one job whose posting date is unknown. *)
Definition crowd : list Job :=
  map (fun n => posted (show (Z.of_nat n)) (DateIso today) (Some today))
      (seq 0 (Z.to_nat MAX_JOBS)).
Definition undatedPosting : Job := posted "unknown" (DateIso today) None.

End Scenario.

(** ** utils.js: the other helpers *)

(** The class [[A-Za-z0-9+#.-]] of tokenize. *)
Definition is_token_char (c : ascii) : bool :=
  let n := nat_of_ascii c in
  ((48 <=? n) && (n <=? 57) || (65 <=? n) && (n <=? 90) || (97 <=? n) && (n <=? 122)
   || (n =? 43) || (n =? 35) || (n =? 46) || (n =? 45))%nat.

Definition flush (cur : string) : list string :=
  if String.eqb cur "" then [] else [cur].

(** [s.match(/[A-Za-z0-9+#.-]+/g) || []]: the maximal runs of token
    characters, [cur] being the run under way. *)
Fixpoint runs_from (cur s : string) : list string :=
  match s with
  | EmptyString => flush cur
  | String c s' =>
      if is_token_char c then runs_from (cur ++ String c EmptyString) s'
      else flush cur ++ runs_from "" s'
  end.

Definition tokenize (text : string) : list string :=
  let tokens := runs_from "" (toLowerCase text) in
  filter (fun t => (2 <? String.length t)%nat) tokens.

(** keywordSet(...texts) *)
Definition keywordSet (texts : list string) : list string :=
  fold_left (fun keywords text => fold_left set_add (tokenize text) keywords)
            texts [].

(** The class [[A-Za-z0-9]]. *)
Definition is_alnum (c : ascii) : bool :=
  let n := nat_of_ascii c in
  ((48 <=? n) && (n <=? 57) || (65 <=? n) && (n <=? 90)
   || (97 <=? n) && (n <=? 122))%nat.

(** [s.replace(/[^A-Za-z0-9]+/g, '_')]: [in_run] holds inside a run of
    characters that are replaced. *)
Fixpoint underscoreRuns (in_run : bool) (s : string) : string :=
  match s with
  | EmptyString => EmptyString
  | String c s' =>
      if is_alnum c then String c (underscoreRuns false s')
      else if in_run then underscoreRuns true s'
      else String "_" (underscoreRuns true s')
  end.

Fixpoint dropUnderscores (s : string) : string :=
  match s with
  | EmptyString => EmptyString
  | String c s' => if Ascii.eqb c "_" then dropUnderscores s' else s
  end.

(** [s.replace(/^_+|_+$/g, '')] *)
Definition stripUnderscores (s : string) : string :=
  rev_string "" (dropUnderscores (rev_string "" (dropUnderscores s))).

(** safeFilename(value); [None] is a null or undefined value. *)
Definition safeFilename (value : option string) : string :=
  let cleaned := underscoreRuns false (trim (orElse value "")) in
  orElse (Some (stripUnderscores cleaned)) "Candidate".

(** ** The digest in hexadecimal *)

Definition hexDigit (n : N) : ascii :=
  match n with
  | 0%N => "0" | 1%N => "1" | 2%N => "2" | 3%N => "3" | 4%N => "4"
  | 5%N => "5" | 6%N => "6" | 7%N => "7" | 8%N => "8" | 9%N => "9"
  | 10%N => "a" | 11%N => "b" | 12%N => "c" | 13%N => "d" | 14%N => "e"
  | _ => "f"
  end%char.

(** [b.toString(16)] on a byte. *)
Definition toString16 (b : Byte.byte) : string :=
  let n := Byte.to_N b in
  if (n <? 16)%N then String (hexDigit n) EmptyString
  else String (hexDigit (n / 16)) (String (hexDigit (n mod 16)) EmptyString).

Fixpoint repeatChar (c : ascii) (n : nat) : string :=
  match n with
  | O => EmptyString
  | S n' => String c (repeatChar c n')
  end.

(** [s.padStart(n, c)] with a filler of one character. *)
Definition padStart (n : nat) (c : ascii) (s : string) : string :=
  repeatChar c (n - String.length s) ++ s.

(** The last line of sha1: the bytes of the digest, two hexadecimal digits
    each, joined. *)
Definition hexOfBytes (hash : list Byte.byte) : string :=
  String.concat "" (map (fun b => padStart 2 "0" (toString16 b)) hash).

(** sha1(str), for a platform digest over the encoded string. *)
Definition sha1Hex (digest : string -> list Byte.byte) (str : string) : string :=
  hexOfBytes (digest str).

(** ** The display layers: escapeHtml *)

Definition doubleQuote : ascii := ascii_of_nat 34.

Definition escapeChar (c : ascii) : string :=
  if Ascii.eqb c "&" then "&amp;"
  else if Ascii.eqb c "<" then "&lt;"
  else if Ascii.eqb c ">" then "&gt;"
  else if Ascii.eqb c doubleQuote then "&quot;"
  else if Ascii.eqb c "'" then "&#039;"
  else String c EmptyString.

Fixpoint escapeText (s : string) : string :=
  match s with
  | EmptyString => EmptyString
  | String c s' => escapeChar c ++ escapeText s'
  end.

(** escapeHtml(text); a falsy text gives the empty string. *)
Definition escapeHtml (text : option string) : string :=
  match text with
  | Some s => escapeText s
  | None => ""
  end.

(** ** Notions used by the properties of the utilities *)

(** Every character of a string passes a test. *)
Fixpoint string_forall (p : ascii -> bool) (s : string) : bool :=
  match s with
  | EmptyString => true
  | String c s' => p c && string_forall p s'
  end.

(** What the pattern of stripTags matches somewhere in a string: an opening
    bracket with a closing bracket after it. *)
Fixpoint has_tag (s : string) : bool :=
  match s with
  | EmptyString => false
  | String c s' => (Ascii.eqb c "<" && has_gt s') || has_tag s'
  end.

(** The first and the last character of a string. *)
Definition first_char (s : string) : option ascii :=
  match s with
  | EmptyString => None
  | String c _ => Some c
  end.

Fixpoint last_char (s : string) : option ascii :=
  match s with
  | EmptyString => None
  | String c EmptyString => Some c
  | String _ s' => last_char s'
  end.

(** The characters that escapeHtml replaces. *)
Definition is_markup (c : ascii) : bool :=
  Ascii.eqb c "&" || Ascii.eqb c "<" || Ascii.eqb c ">"
  || Ascii.eqb c doubleQuote || Ascii.eqb c "'".

(** A lower-case hexadecimal digit. *)
Definition is_hex (c : ascii) : bool :=
  let n := nat_of_ascii c in
  ((48 <=? n) && (n <=? 57) || (97 <=? n) && (n <=? 102))%nat.

(** The value of a hexadecimal digit, and the bytes that a string of
    pairs of digits denotes. *)
Definition hexValue (c : ascii) : N :=
  let n := N_of_ascii c in
  if (n <? 58)%N then (n - 48)%N else (n - 87)%N.

Fixpoint bytesOfHex (s : string) : list Byte.byte :=
  match s with
  | String hi (String lo s') =>
      match Byte.of_N (16 * hexValue hi + hexValue lo) with
      | Some b => b :: bytesOfHex s'
      | None => []
      end
  | _ => []
  end.

(** The literal of the pattern of extractGoogleDocId. *)
Definition docPrefix : string := "docs.google.com/document/d/".

(** A string does not go on with an id character. *)
Definition idEnds (rest : string) : Prop :=
  match first_char rest with
  | Some c => is_id_char c = false
  | None => True
  end.

(** The characters of a file name that safeFilename builds. *)
Definition is_name_char (c : ascii) : bool := is_alnum c || Ascii.eqb c "_".

(** The shape of a job that a fetcher builds for a board. *)
Definition normalised (p : provider) (board : string) (j : Job) : Prop :=
  source j = p /\ company j = board /\ score j = 0
  /\ (String.length (description j) <= Z.to_nat DESC_TRUNCATE)%nat
  /\ has_tag (description j) = false
  /\ exists ms, first_seen_at j = DateIso ms.

(** The name of a provider in the text that is digested into an id. *)
Definition providerName (p : provider) : string :=
  match p with
  | Greenhouse => "greenhouse"
  | Lever => "lever"
  end.

(** The id of a job is the digest of its provider, board and URL. *)
Definition identified (w : World) (p : provider) (board : string) (j : Job) : Prop :=
  id j = sha1 w (providerName p ++ "|" ++ board ++ "|" ++ url j).

(** A board answers with a list in which the date of a posting does not
    parse. *)
Definition garbledPosting (w : World) (p : provider) (board : string) : Prop :=
  match p with
  | Greenhouse =>
      exists status postings,
        greenhouseApi w board = Http status (Some postings) /\ ok status = true
        /\ Exists (fun j => orField (gh_updated_at j) (gh_first_published_at j)
                            = Some RawGarbage) postings
  | Lever =>
      exists status postings,
        leverApi w board = Http status (Some postings) /\ ok status = true
        /\ Exists (fun j => lv_createdAt j = Some RawGarbage) postings
  end.

(** ** Notions used by the properties of the stored list *)

(** What a run leaves of a job besides its score: every field but the
    description, and the description whole or cut to 500 characters. *)
Definition samePosting (stored original : Job) : Prop :=
  id stored = id original /\ source stored = source original
  /\ company stored = company original /\ title stored = title original
  /\ location stored = location original /\ url stored = url original
  /\ posted_at stored = posted_at original
  /\ first_seen_at stored = first_seen_at original
  /\ (description stored = description original
      \/ description stored = slice0 500 (description original)).

(** The descriptions that the fetchers and the size guard leave. *)
Definition boundedDescription (j : Job) : Prop :=
  (String.length (description j) <= Z.to_nat DESC_TRUNCATE)%nat
  /\ has_tag (description j) = false.

(** The invariant of the entries of the stored list. *)
Definition wellKept (j : Job) : Prop :=
  0 <= score j <= 100
  /\ (exists ms, getTime (first_seen_at j) = Time ms)
  /\ boundedDescription j.

(** The order of the stored list when every score is the same. *)
Definition newestFirst (a b : Job) : Prop := postedTime b <= postedTime a.

(** The keys that getCvKeywords reads. *)
Definition keywordKeys : list string :=
  ["cvLink"; "cvKeywords"; "cvKeywordsUpdatedAt"; "apiKey"; "modelName"].

(** ** The worker's reply to GET_SCRAPE_STATUS *)

Record ScrapeStatus : Type := mkStatus {
  lastUpdated : option Z;
  lastError : option string;
  jobCount : nat
}.

(** [a || null] on a stored string. *)
Definition orNull (a : option string) : option string :=
  if truthy a then a else None.

(** The handler of GET_SCRAPE_STATUS: the response it sends; no response
    is sent when the storage call throws. *)
Definition getScrapeStatus (w : World) : M Store ScrapeStatus :=
  (data <- getStorage w ["jobsLastUpdated"; "jobsLastError"; "jobs"] ;;
   ret {| lastUpdated := jobsLastUpdated data;
          lastError := orNull (jobsLastError data);
          jobCount := List.length (fromOption (jobs data)) |})%js.

(** ** The Sources tab of the popup *)

Definition KNOWN_BOARDS : JobSources :=
  mkSources
    [ mkBoard "airtable" "Airtable"; mkBoard "brex" "Brex";
      mkBoard "cloudflare" "Cloudflare"; mkBoard "coinbase" "Coinbase";
      mkBoard "databricks" "Databricks"; mkBoard "discord" "Discord";
      mkBoard "duolingo" "Duolingo"; mkBoard "figma" "Figma";
      mkBoard "gusto" "Gusto"; mkBoard "instacart" "Instacart";
      mkBoard "lyft" "Lyft"; mkBoard "mongodb" "MongoDB";
      mkBoard "robinhood" "Robinhood"; mkBoard "roblox" "Roblox";
      mkBoard "samsara" "Samsara"; mkBoard "scaleai" "Scale AI";
      mkBoard "squarespace" "Squarespace"; mkBoard "verkada" "Verkada" ]
    [ mkBoard "palantir" "Palantir"; mkBoard "veeva" "Veeva Systems";
      mkBoard "metabase" "Metabase"; mkBoard "whoop" "WHOOP";
      mkBoard "voleon" "The Voleon Group"; mkBoard "weride" "WeRide" ].

Definition setSources (sources : JobSources) (s : Store) : Store :=
  {| jobSources := Some sources;
     jobs := jobs s; topJobs := topJobs s;
     jobsLastUpdated := jobsLastUpdated s; jobsLastError := jobsLastError s;
     cvLink := cvLink s; cvKeywords := cvKeywords s;
     cvKeywordsUpdatedAt := cvKeywordsUpdatedAt s;
     apiKey := apiKey s; modelName := modelName s |}.

(** [data.jobSources || { greenhouse: [], lever: [] }] *)
Definition sourcesOrEmpty (data : Store) : JobSources :=
  match jobSources data with
  | Some sources => sources
  | None => mkSources [] []
  end.

(** loadSources: the two lists that the tab renders,
    [data.jobSources || FALLBACK_SOURCES]. *)
Definition shownSources (data : Store) : JobSources :=
  match jobSources data with
  | Some sources => sources
  | None => FALLBACK_SOURCES
  end.

(** [boards.some(b => b.token === tok)] *)
Definition hasToken (tok : string) (boards : list Board) : bool :=
  existsb (fun b => String.eqb (token b) tok) boards.

(** [KNOWN_BOARDS[type].find(b => b.token === tok)], then the label. *)
Definition labelFor (type : provider) (tok : string) : string :=
  match find (fun b => String.eqb (token b) tok) (boardsOf type KNOWN_BOARDS) with
  | Some known => label known
  | None => tok
  end.

(** addSource(type, token).  Both lists are present in every value that
    the extension writes under jobSources. *)
Definition addSource (w : World) (type : provider) (input : string) : M Store unit :=
  let tok := toLowerCase (trim input) in
  if String.eqb tok "" then ret tt
  else
    (data <- getStorage w ["jobSources"] ;;
     let sources := sourcesOrEmpty data in
     if hasToken tok (boardsOf type sources) then ret tt
     else
       let boards := boardsOf type sources ++ [mkBoard tok (labelFor type tok)] in
       setStorage (setSources (withBoards type boards sources)))%js.

(** [boards.splice(idx, 1)] *)
Fixpoint splice1 (idx : nat) (boards : list Board) : list Board :=
  match boards with
  | [] => []
  | b :: rest =>
      match idx with
      | O => rest
      | S idx' => b :: splice1 idx' rest
      end
  end.

(** removeSource(type, idx); [idx] is the position of a rendered board. *)
Definition removeSource (w : World) (type : provider) (idx : nat) : M Store unit :=
  (data <- getStorage w ["jobSources"] ;;
   let sources := sourcesOrEmpty data in
   setStorage
     (setSources (withBoards type (splice1 idx (boardsOf type sources)) sources)))%js.

(** ** Source discovery *)

(** chrome.storage.local with the key that the discovery adds to those of
    the pipeline. *)
Record Settings : Type := mkSettings {
  pipeline : Store;
  sourcesGeneratedFromResume : option bool
}.

(** The reply of the language model to the discovery prompt, decoded, in
    the shape that the prompt asks for: the candidates of each provider,
    objects with a token and a label, both strings; a list is [None] when
    the property is absent or falsy.  The body of the reply is [None] when
    decoding it or reading its candidates throws. *)
Record Suggestions : Type := mkSuggestions {
  suggestedGreenhouse : option (list Board);
  suggestedLever : option (list Board)
}.

(** What the discovery observes from outside, besides the world of the
    pipeline: the export of the resume, the language model (api key,
    model, keywords, resume excerpt) and the two APIs probed for a
    candidate. *)
Record Discovery : Type := mkDiscovery {
  world : World;
  sourcesDoc : string -> Reply string;
  chatSources : string -> string -> string -> string -> Reply Suggestions;
  greenhouseProbe : string -> Reply json;
  leverProbe : string -> Reply json
}.

(** fetchGoogleDocTextBg over the reply of the export. *)
Definition fetchDoc (export : string -> Reply string) (link : string)
  : Outcome string :=
  match extractGoogleDocId link with
  | None => Throw "Invalid Google Doc link"
  | Some docId =>
      match export docId with
      | Transport msg => Throw msg
      | Http status body =>
          if negb (ok status) then Throw ("Doc export HTTP " ++ show status)
          else
            match body with
            | None => Throw "body stream already read"
            | Some text => Ok text
            end
      end
  end.

(** [Array.isArray(v) && v.length > 0] *)
Definition nonEmptyArray (v : option json) : bool :=
  match v with
  | Some (JArr (_ :: _)) => true
  | _ => false
  end.

Definition verifyGreenhouseToken (d : Discovery) (tok : string) : bool :=
  match greenhouseProbe d tok with
  | Transport _ => false
  | Http status body =>
      if negb (ok status) then false
      else
        match body with
        | None => false
        | Some data =>
            match getProp "jobs" data with
            | Ok jobs => nonEmptyArray jobs
            | Throw _ => false
            end
        end
  end.

Definition verifyLeverHandle (d : Discovery) (handle : string) : bool :=
  match leverProbe d handle with
  | Transport _ => false
  | Http status body =>
      if negb (ok status) then false
      else
        match body with
        | None => false
        | Some data => nonEmptyArray (Some data)
        end
  end.

(** [map.set(b.token, b)] on the entries of a Map, in insertion order. *)
Fixpoint boardSet (entries : list Board) (b : Board) : list Board :=
  match entries with
  | [] => [b]
  | e :: rest =>
      if String.eqb (token e) (token b) then b :: rest
      else e :: boardSet rest b
  end.

(** [[...new Map(boards.map(b => [b.token, b])).values()]] *)
Definition dedupeByToken (boards : list Board) : list Board :=
  fold_left boardSet boards [].

(** getStorage and setStorage on the extended store. *)
Definition readSettings (w : World) (keys : list string) : M Settings Store :=
  fun st =>
    match storageFault w keys with
    | Some msg => (Throw msg, st)
    | None => (Ok (pipeline st), st)
    end.

Definition writeSources (sources : JobSources) (fromResume : bool)
  : M Settings unit :=
  modify (fun st =>
            {| pipeline := setSources sources (pipeline st);
               sourcesGeneratedFromResume := Some fromResume |}).

Definition useFallback : M Settings JobSources :=
  (writeSources FALLBACK_SOURCES false ;;; ret FALLBACK_SOURCES)%js.

(** The try block of generateInitialSources up to the store: the boards
    that the language model suggests and that pass the verification. *)
Definition verifiedSources (d : Discovery) (data : Store) (cvText : string)
  : Outcome JobSources :=
  let keywords := String.concat ", " (fromOption (cvKeywords data)) in
  let model := orElse (modelName data) "gpt-4o-mini" in
  match chatSources d (orElse (apiKey data) "") model keywords (slice0 3000 cvText) with
  | Transport msg => Throw msg
  | Http status body =>
      if negb (ok status) then Throw ("OpenAI HTTP " ++ show status)
      else
        match body with
        | None => Throw "Unexpected token in JSON"
        | Some parsed =>
            let ghCandidates := fromOption (suggestedGreenhouse parsed) in
            let lvCandidates := fromOption (suggestedLever parsed) in
            let gh := filter (fun b => verifyGreenhouseToken d (token b)) ghCandidates in
            let lv := filter (fun b => verifyLeverHandle d (token b)) lvCandidates in
            let sources := mkSources (dedupeByToken gh) (dedupeByToken lv) in
            if (List.length (greenhouse sources) + List.length (lever sources) =? 0)%nat
            then Throw "No AI-suggested tokens passed verification"
            else Ok sources
        end
  end.

Definition generateInitialSources (d : Discovery) : M Settings JobSources :=
  (data <- readSettings (world d) ["cvLink"; "apiKey"; "modelName"; "cvKeywords"] ;;
   if negb (truthy (cvLink data)) || negb (truthy (apiKey data)) then useFallback
   else
     match fetchDoc (sourcesDoc d) (orElse (cvLink data) "") with
     | Throw _ => useFallback
     | Ok cvText =>
         try_catch
           (sources <- lift (verifiedSources d data cvText) ;;
            writeSources sources true ;;;
            ret sources)
           (fun e => useFallback)
     end)%js.

(** The store after the discovery has written its sources. *)
Definition generated (sources : JobSources) (fromResume : bool) (st : Settings)
  : Settings :=
  {| pipeline := setSources sources (pipeline st);
     sourcesGeneratedFromResume := Some fromResume |}.

(** The run of the pipeline on the extended store. *)
Definition scrape (w : World) : M Settings unit :=
  modify (fun st =>
            {| pipeline := scrapeAllJobs w (pipeline st);
               sourcesGeneratedFromResume := sourcesGeneratedFromResume st |}).

Definition clearKeywords (s : Store) : Store :=
  {| jobSources := jobSources s; jobs := jobs s; topJobs := topJobs s;
     jobsLastUpdated := jobsLastUpdated s; jobsLastError := jobsLastError s;
     cvLink := cvLink s;
     cvKeywords := None; cvKeywordsUpdatedAt := None;
     apiKey := apiKey s; modelName := modelName s |}.

(** The onInstalled listener, from the clearing of the keyword cache on:
    the discovery, then the first run. *)
Definition onInstalled (d : Discovery) : M Settings unit :=
  (modify (fun st =>
             {| pipeline := clearKeywords (pipeline st);
                sourcesGeneratedFromResume := sourcesGeneratedFromResume st |}) ;;;
   _ <- generateInitialSources d ;;
   scrape (world d))%js.

(** ** The Jobs tab of the popup *)

(** What searchJobs leaves in the tab: the jobs rendered, the hint shown
    when there is nothing to render, and the error shown. *)
Inductive Hint : Type := ConfigureResume | RefreshJobs.

Record JobsView : Type := mkView {
  rendered : list Job;
  hint : option Hint;
  shownError : option string
}.

(** displayJobs: the jobs rendered before an entry that is not a job
    makes the template literal throw. *)
Fixpoint displayJobs (display : list (option Job)) : list Job * option string :=
  match display with
  | [] => ([], None)
  | Some j :: rest =>
      let '(shown, err) := displayJobs rest in (j :: shown, err)
  | None :: _ => ([], Some "Cannot read properties of null (reading 'title')")
  end.

(** [topJobs.length > 0 ? topJobs : allJobs.slice(0, 5)] *)
Definition displayed (data : Store) : list (option Job) :=
  let allJobs := fromOption (jobs data) in
  let topJobs := fromOption (topJobs data) in
  if (0 <? List.length topJobs)%nat then topJobs else map Some (firstn 5 allJobs).

Definition searchJobs (w : World) (s : Store) : JobsView :=
  match storageFault w ["jobs"; "topJobs"; "jobsLastUpdated"; "cvKeywords";
                        "cvLink"; "apiKey"] with
  | Some msg => mkView [] None (Some msg)
  | None =>
      let display := displayed s in
      if (0 <? List.length display)%nat then
        let '(shown, err) := displayJobs display in mkView shown None err
      else if negb (truthy (cvLink s)) then mkView [] (Some ConfigureResume) None
      else mkView [] (Some RefreshJobs) None
  end.

(** ** Notions used by the properties of the keywords *)

(** A keyword as aiExtractKeywords returns them: not empty, in lower
    case, without white space at either end. *)
Definition cleanKeyword (k : string) : Prop :=
  k <> ""
  /\ lowercase k
  /\ (forall c, first_char k = Some c -> is_space c = false)
  /\ (forall c, last_char k = Some c -> is_space c = false).

(** An element of the keywords array that is a string of white space. *)
Definition blankKeyword (k : json) : Prop :=
  exists s, k = JStr s /\ trim (toLowerCase s) = "".

(** The vocabulary of the pattern strategy. *)
Definition vocabulary : list string := techTerms ++ roleTerms.

(** ** Further concrete cases, for the examples *)

Module Cases.
Import Scenario.

Definition resume : string := "Senior Python and Rust engineer".

(** A world with another Greenhouse API and another size of the
    serialised list. *)
Definition withGreenhouse (api : string -> Reply (list GhPosting))
           (size : list Job -> Z) (w : World) : World :=
  {| sha1 := sha1 w; jsonLength := size; clock := clock w;
     storageFault := storageFault w;
     greenhouseApi := api; leverApi := leverApi w; docExport := docExport w;
     chatKeywords := chatKeywords w; chatRanking := chatRanking w |}.

(** The board acme lists, after its two postings, one whose date does not
    parse. *)
Definition garbling : World :=
  withGreenhouse
    (fun board =>
       if String.eqb board "acme"
       then Http 200 (Some (acme ++ [mkGh "3" (Some "Analyst") None None
                                          (Some RawGarbage) None None]))
       else Http 500 None)
    (jsonLength offline) offline.

(** The board acme lists each of its postings twice. *)
Definition echoing : World :=
  withGreenhouse
    (fun board =>
       if String.eqb board "acme" then Http 200 (Some (acme ++ acme))
       else Http 500 None)
    (jsonLength offline) offline.

Definition echoed : list Job :=
  match fetchGreenhouseJobs echoing "acme" with
  | Ok fetched => fetched
  | Throw _ => []
  end.

(** The board acme lists one posting with a description of 600
    characters, and the serialised list exceeds the threshold. *)
Definition heavy : World :=
  withGreenhouse
    (fun board =>
       if String.eqb board "acme"
       then Http 200 (Some [mkGh "7" (Some "Writer") None
                                 (Some (repeatChar "x" 600))
                                 (Some (RawInstant today)) None None])
       else Http 500 None)
    (fun _ => STORAGE_WARN_BYTES + 1) offline.

(** The language model ranks with the reply [[0, 0]]. *)
Definition repeating : World :=
  build (fun _ => None) (Transport "Failed to fetch")
        (Http 200 (Some (JArr [JNum (0 # 1); JNum (0 # 1)]))).

(** What getCvKeywords returns and the store it leaves. *)
Definition keywordsOf (w : World) (s : Store) : list string :=
  match fst (getCvKeywords w s) with
  | Ok kws => kws
  | Throw _ => []
  end.

Definition afterKeywords (w : World) (s : Store) : Store := snd (getCvKeywords w s).

Definition firstStored (s : Store) : Job := nth 0 (storedJobs s) (stored "" DateMissing).

(** The store [bare] with keywords extracted two days ago. *)
Definition lapsed : Store :=
  {| jobSources := jobSources bare;
     jobs := None; topJobs := None;
     jobsLastUpdated := None; jobsLastError := None;
     cvLink := None;
     cvKeywords := Some ["python"]; cvKeywordsUpdatedAt := Some (today - 2 * day);
     apiKey := None; modelName := None |}.

(** A store whose only board is the Lever board beta. *)
Definition lonely : Store :=
  setSources (mkSources [] [mkBoard "beta" "Beta"]) bare.

(** A discovery in which the language model suggests the Greenhouse boards
    stripe, ghost and stripe again, and no Lever board; the probe finds
    jobs on stripe only. *)
Definition scout : Discovery :=
  {| world := offline;
     sourcesDoc := fun _ => Http 200 (Some resume);
     chatSources :=
       fun _ _ _ _ =>
         Http 200 (Some (mkSuggestions
                           (Some [ mkBoard "stripe" "Stripe";
                                   mkBoard "ghost" "Ghost";
                                   mkBoard "stripe" "Stripe Inc" ])
                           None));
     greenhouseProbe :=
       fun tok =>
         if String.eqb tok "stripe"
         then Http 200 (Some (JObj [("jobs", JArr [JObj []])]))
         else Http 404 None;
     leverProbe := fun _ => Transport "Failed to fetch" |}.

Definition setup : Settings := mkSettings fresh None.

(** The language model answers the keyword prompt with
    [{"keywords": ["  "]}]. *)
Definition blank : World :=
  build (fun _ => None)
        (Http 200 (Some (JObj [("keywords", JArr [JStr "  "])])))
        (Transport "Failed to fetch").

(** The export of the resume answers with an error status. *)
Definition docless : World :=
  {| sha1 := sha1 offline; jsonLength := jsonLength offline;
     clock := clock offline; storageFault := storageFault offline;
     greenhouseApi := greenhouseApi offline; leverApi := leverApi offline;
     docExport := fun _ _ => Http 403 None;
     chatKeywords := chatKeywords offline; chatRanking := chatRanking offline |}.

(** The store [fresh] with keywords extracted two days ago. *)
Definition outdated : Store :=
  setKeywords ["python"] (today - 2 * day) fresh.

End Cases.

(** * Properties *)

(** ** The binary64 model *)

Module DoubleFacts.
Import Double.

Lemma rne_div_nonneg (p q : Z) : 0 <= p -> 0 < q -> 0 <= rne_div p q.
Proof.
  intros Hp Hq. unfold rne_div.
  assert (0 <= p / q) by (apply Z.div_pos; lia).
  destruct (2 * (p mod q) <? q); [lia|].
  destruct (q <? 2 * (p mod q)); [lia|].
  destruct (Z.even (p / q)); lia.
Qed.

Lemma rne_div_le (p q k : Z) : 0 < q -> p <= k * q -> rne_div p q <= k.
Proof.
  intros Hq Hk. unfold rne_div.
  pose proof (Z.div_mod p q ltac:(lia)) as Hdm.
  pose proof (Z.mod_pos_bound p q Hq) as Hr.
  assert (Hd : p / q <= k) by (apply Z.div_le_upper_bound; lia).
  destruct (Z.ltb_spec (2 * (p mod q)) q); [lia|].
  assert (p / q < k) by nia.
  destruct (q <? 2 * (p mod q)); [lia|].
  destruct (Z.even (p / q)); lia.
Qed.

Lemma rne_div_exact (q k : Z) : 0 < q -> rne_div (k * q) q = k.
Proof.
  intros Hq. unfold rne_div.
  rewrite Z.div_mul by lia. rewrite Z.mod_mul by lia.
  destruct (Z.ltb_spec (2 * 0) q); [reflexivity|lia].
Qed.

(** The scaled fraction lies in the 53-bit binade. *)
Lemma binade_spec (p q : Z) :
  0 < p -> 0 < q ->
  let '(n, d) := scale p q (binade p q) in
  0 < d /\ 2 ^ 52 * d <= n < 2 ^ 53 * d.
Proof.
  intros Hp Hq.
  pose proof (Z.log2_spec p Hp) as [Hp1 Hp2].
  pose proof (Z.log2_spec q Hq) as [Hq1 Hq2].
  pose proof (Z.log2_nonneg p) as Hlp.
  pose proof (Z.log2_nonneg q) as Hlq.
  set (a := Z.log2 p) in *. set (b := Z.log2 q) in *.
  rewrite Z.pow_succ_r in Hp2, Hq2 by lia.
  unfold binade. fold a b.
  set (e0 := a - b - 52).
  assert (Hpa : 0 < 2 ^ a) by (apply Z.pow_pos_nonneg; lia).
  assert (Hpb : 0 < 2 ^ b) by (apply Z.pow_pos_nonneg; lia).
  destruct (scale p q e0) as [n0 d0] eqn:Es.
  destruct (Z.leb_spec (2 ^ 52 * d0) n0) as [Ht|Ht].
  - rewrite Es. unfold scale in Es.
    destruct (Z.leb_spec 0 e0) as [He0|He0]; inversion Es; subst n0 d0; clear Es.
    + assert (Ea : 2 ^ a = 2 ^ 52 * 2 ^ b * 2 ^ e0).
      { rewrite <- !Z.pow_add_r by lia. f_equal. lia. }
      assert (0 < 2 ^ e0) by (apply Z.pow_pos_nonneg; lia).
      split; [nia|]. split; [lia|].
      change (2 ^ 53) with (2 * 2 ^ 52). nia.
    + assert (Eb : 2 ^ 52 * 2 ^ b = 2 ^ a * 2 ^ (- e0)).
      { rewrite <- !Z.pow_add_r by lia. f_equal. lia. }
      assert (0 < 2 ^ (- e0)) by (apply Z.pow_pos_nonneg; lia).
      split; [lia|]. split; [lia|].
      change (2 ^ 53) with (2 * 2 ^ 52). nia.
  - unfold scale in Es |- *.
    destruct (Z.leb_spec 0 e0) as [He0|He0]; inversion Es; subst n0 d0; clear Es.
    + assert (Ea : 2 ^ a = 2 ^ 52 * 2 ^ b * 2 ^ e0).
      { rewrite <- !Z.pow_add_r by lia. f_equal. lia. }
      assert (0 < 2 ^ e0) by (apply Z.pow_pos_nonneg; lia).
      destruct (Z.leb_spec 0 (e0 - 1)) as [He1|He1].
      * assert (E2 : 2 ^ e0 = 2 * 2 ^ (e0 - 1)).
        { rewrite <- Z.pow_succ_r by lia. f_equal. lia. }
        assert (0 < 2 ^ (e0 - 1)) by (apply Z.pow_pos_nonneg; lia).
        split; [nia|]. change (2 ^ 53) with (2 * 2 ^ 52). split; nia.
      * assert (E0 : e0 = 0) by lia. rewrite E0 in *.
        change (2 ^ 0) with 1 in *. change (2 ^ (- (0 - 1))) with 2.
        split; [lia|]. change (2 ^ 53) with (2 * 2 ^ 52). split; nia.
    + assert (Eb : 2 ^ 52 * 2 ^ b = 2 ^ a * 2 ^ (- e0)).
      { rewrite <- !Z.pow_add_r by lia. f_equal. lia. }
      assert (0 < 2 ^ (- e0)) by (apply Z.pow_pos_nonneg; lia).
      destruct (Z.leb_spec 0 (e0 - 1)); [lia|].
      assert (E2 : 2 ^ (- (e0 - 1)) = 2 * 2 ^ (- e0)).
      { rewrite <- Z.pow_succ_r by lia. f_equal. lia. }
      rewrite E2.
      split; [lia|]. change (2 ^ 53) with (2 * 2 ^ 52). split; nia.
Qed.

Lemma round_ratio_unit (n : Z) : 0 < n -> round_ratio n n = mkDyadic (2 ^ 52) (- 52).
Proof.
  intros Hn. unfold round_ratio.
  destruct (Z.eqb_spec n 0); [lia|].
  assert (Eb : binade n n = - 52).
  { unfold binade. replace (Z.log2 n - Z.log2 n - 52) with (- 52) by lia.
    unfold scale. change (0 <=? - 52) with false. cbv beta iota zeta.
    change (- - 52) with 52.
    destruct (Z.leb_spec (2 ^ 52 * n) (n * 2 ^ 52)); [reflexivity|lia]. }
  rewrite Eb. unfold scale. change (0 <=? - 52) with false. cbv beta iota zeta.
  change (- - 52) with 52. rewrite (Z.mul_comm n), rne_div_exact by lia.
  reflexivity.
Qed.

(** A quotient of two counts [0 < m <= n] is a double in (0, 1]. *)
Lemma div_le_one (m n : Z) :
  0 < m <= n ->
  expo (div m n) < 0 /\ 0 <= mant (div m n) <= 2 ^ (- expo (div m n)).
Proof.
  intros [Hm Hmn]. unfold div, round_ratio.
  destruct (Z.eqb_spec m 0); [lia|].
  pose proof (binade_spec m n Hm ltac:(lia)) as Hb.
  set (e := binade m n) in *. unfold scale in *.
  destruct (Z.leb_spec 0 e) as [He|He].
  - exfalso. destruct Hb as [_ [Hlo _]].
    assert (0 < 2 ^ e) by (apply Z.pow_pos_nonneg; lia). nia.
  - cbn [mant expo]. destruct Hb as [_ [Hlo _]].
    assert (0 < 2 ^ (- e)) by (apply Z.pow_pos_nonneg; lia).
    split; [assumption|]. split.
    + apply rne_div_nonneg; nia.
    + apply rne_div_le; nia.
Qed.

(** Scaling a double of [0, 1] by 100 gives a double of [0, 100]. *)
Lemma mul_100_le (x : dyadic) :
  expo x < 0 -> 0 < mant x <= 2 ^ (- expo x) ->
  let y := mul x 100 in
  expo y < 0 /\ 0 <= mant y <= 100 * 2 ^ (- expo y).
Proof.
  intros Hx [Hm0 Hm]. unfold mul.
  destruct (Z.leb_spec 0 (expo x)); [lia|].
  set (P := mant x * 100). set (Q := 2 ^ (- expo x)) in *.
  assert (HQ : 0 < Q) by (apply Z.pow_pos_nonneg; lia).
  assert (HP : 0 < P) by (unfold P; lia).
  assert (HPQ : P <= 100 * Q) by (unfold P; lia).
  unfold round_ratio. destruct (Z.eqb_spec P 0); [lia|].
  pose proof (binade_spec P Q HP HQ) as Hb.
  set (e := binade P Q) in *. unfold scale in *.
  destruct (Z.leb_spec 0 e) as [He|He].
  - exfalso. destruct Hb as [_ [Hlo _]].
    assert (0 < 2 ^ e) by (apply Z.pow_pos_nonneg; lia).
    change (2 ^ 52) with 4503599627370496 in Hlo. nia.
  - cbn [mant expo]. cbv zeta. destruct Hb as [_ [Hlo _]].
    assert (0 < 2 ^ (- e)) by (apply Z.pow_pos_nonneg; lia).
    split; [assumption|]. split.
    + apply rne_div_nonneg; nia.
    + apply rne_div_le; nia.
Qed.

Lemma math_round_le_100 (y : dyadic) :
  expo y < 0 -> 0 <= mant y <= 100 * 2 ^ (- expo y) ->
  0 <= math_round y <= 100.
Proof.
  intros Hy [H0 Hm]. unfold math_round.
  destruct (Z.leb_spec 0 (expo y)); [lia|].
  set (t := 2 ^ (- expo y)) in *.
  assert (Ht : 0 < t) by (apply Z.pow_pos_nonneg; lia).
  replace (2 ^ (- expo y + 1)) with (2 * t)
    by (unfold t; rewrite Z.pow_add_r by lia; lia).
  split.
  - apply Z.div_pos; lia.
  - assert ((2 * mant y + t) / (2 * t) < 101); [|lia].
    apply Z.div_lt_upper_bound; lia.
Qed.

End DoubleFacts.

(** The percentage computed by scoreJob stays within 0 and 100. *)
Lemma js_percent_bounds (m n : Z) :
  0 <= m <= n -> 0 < n -> 0 <= js_percent m n <= 100.
Proof.
  intros [Hm Hmn] Hn. unfold js_percent.
  destruct (Z.eq_dec m 0) as [->|Hm0].
  - vm_compute. split; discriminate.
  - destruct (DoubleFacts.div_le_one m n) as [He [Hlo Hhi]]; [lia|].
    assert (Hpos : 0 < Double.mant (Double.div m n)).
    { unfold Double.div, Double.round_ratio in *.
      destruct (Z.eqb_spec m 0); [lia|].
      pose proof (DoubleFacts.binade_spec m n ltac:(lia) Hn) as Hb.
      destruct (Double.scale m n (Double.binade m n)) as [a b].
      cbn [Double.mant]. destruct Hb as [Hb1 [Hb2 _]].
      assert (1 <= Double.rne_div a b); [|lia].
      unfold Double.rne_div.
      assert (1 <= a / b).
      { apply Z.div_le_lower_bound; [lia|].
        change (2 ^ 52) with 4503599627370496 in Hb2. lia. }
      destruct (2 * (a mod b) <? b); [lia|].
      destruct (b <? 2 * (a mod b)); [lia|].
      destruct (Z.even (a / b)); lia. }
    destruct (DoubleFacts.mul_100_le (Double.div m n) He (conj Hpos Hhi)) as [Hy1 Hy2].
    apply DoubleFacts.math_round_le_100; assumption.
Qed.

(** When every keyword matches, the percentage is exactly 100. *)
Lemma js_percent_full (n : Z) : 0 < n -> js_percent n n = 100.
Proof.
  intros Hn. unfold js_percent, Double.div.
  rewrite DoubleFacts.round_ratio_unit by assumption.
  vm_compute. reflexivity.
Qed.

(** The double arithmetic is not the exact rational one: 23 of 40 keywords
    is 57.5 percent, but [23 / 40 * 100] is the double just below 57.5. *)
Example js_percent_23_40 : js_percent 23 40 = 57.
Proof. vm_compute. reflexivity. Qed.

(** ** Scorer *)

Section Scorer.

Variable lowerText : string.

Let hit (k : string) : bool := includes lowerText k.

Lemma count_matched_acc (keywords : list string) (acc : Z) :
  fold_left (fun matched keyword =>
               if includes lowerText keyword then matched + 1 else matched)
            keywords acc
  = acc + Z.of_nat (List.length (filter hit keywords)).
Proof.
  revert acc. induction keywords as [|k ks IH]; intros acc; simpl.
  - lia.
  - rewrite IH. unfold hit at 2. destruct (includes lowerText k); simpl; lia.
Qed.

Lemma count_matched_filter (keywords : list string) :
  count_matched lowerText keywords = Z.of_nat (List.length (filter hit keywords)).
Proof. unfold count_matched. rewrite count_matched_acc. lia. Qed.

Lemma count_matched_range (keywords : list string) :
  0 <= count_matched lowerText keywords <= Z.of_nat (List.length keywords).
Proof.
  rewrite count_matched_filter.
  pose proof (filter_length_le hit keywords). lia.
Qed.

Lemma count_matched_all (keywords : list string) :
  Forall (fun k => includes lowerText k = true) keywords ->
  count_matched lowerText keywords = Z.of_nat (List.length keywords).
Proof.
  intros H. rewrite count_matched_filter. f_equal. f_equal.
  induction H as [|k ks Hk _ IH]; simpl; [reflexivity|].
  unfold hit at 1. rewrite Hk. simpl. f_equal. exact IH.
Qed.

Lemma count_matched_perm (K K' : list string) :
  Permutation K K' -> count_matched lowerText K = count_matched lowerText K'.
Proof.
  intros HP. rewrite !count_matched_filter. f_equal.
  apply Permutation_length.
  induction HP; simpl.
  - constructor.
  - destruct (hit x); [constructor|]; assumption.
  - destruct (hit x), (hit y); try apply perm_swap; apply Permutation_refl.
  - eapply Permutation_trans; eassumption.
Qed.

End Scorer.

(** The percentage of scoreJob is an integer between 0 and 100. *)
Lemma scoreJob_bounds (T : string) (K : list string) :
  0 <= fst (scoreJob T K) <= 100.
Proof.
  unfold scoreJob.
  destruct (Z.eqb_spec (Z.of_nat (List.length K)) 0) as [E|E]; simpl; [lia|].
  apply js_percent_bounds; [apply count_matched_range|lia].
Qed.

(** C4.  For every keyword set K and job text T the percentage of
    scoreJob(T, K) lies in [0, 100]; on the empty set the result is
    (0, 0); when every keyword of K is a case-insensitive substring of T,
    the percentage is 100, for K a keyword set as the specification
    defines it (lower-case strings) other than the empty one, whose result
    the clause before gives; and the result is the same for every
    enumeration order of K. *)
Theorem scoreJob_contract (T : string) (K : list string) :
  0 <= fst (scoreJob T K) <= 100
  /\ scoreJob T [] = (0, 0)
  /\ (K <> [] -> Forall lowercase K ->
      Forall (fun k => includes_ci T k = true) K ->
      fst (scoreJob T K) = 100)
  /\ (forall K', Permutation K K' -> scoreJob T K' = scoreJob T K).
Proof.
  split; [|split; [|split]].
  - apply scoreJob_bounds.
  - reflexivity.
  - intros Hne Hlow Hall. unfold scoreJob.
    destruct (Z.eqb_spec (Z.of_nat (List.length K)) 0) as [E|E].
    + destruct K; [congruence|simpl in E; lia].
    + simpl. rewrite count_matched_all.
      * apply js_percent_full. lia.
      * rewrite Forall_forall in *. intros k Hk.
        specialize (Hall k Hk). specialize (Hlow k Hk).
        unfold includes_ci in Hall. unfold lowercase in Hlow.
        rewrite Hlow in Hall. exact Hall.
  - intros K' HP. unfold scoreJob.
    rewrite <- (Permutation_length HP).
    rewrite <- (count_matched_perm _ _ _ HP). reflexivity.
Qed.

Lemma scoreJob_contract_witness :
  fst (scoreJob "Senior Python Developer" ["python"; "senior"]) = 100
  /\ scoreJob "Senior Python Developer" ["senior"; "python"]
     = scoreJob "Senior Python Developer" ["python"; "senior"].
Proof.
  destruct (scoreJob_contract "Senior Python Developer" ["python"; "senior"])
    as (_ & _ & Hfull & Hperm).
  split.
  - apply Hfull.
    + discriminate.
    + repeat constructor.
    + repeat constructor.
  - apply Hperm. apply perm_swap.
Defined.

(** scoreJob puts the text in lower case and leaves the keywords as they
    are, relying on its callers for their case: a keyword with a capital
    letter, which no keyword set of the pipeline holds, never matches. *)
Remark scoreJob_keeps_keyword_case :
  Forall (fun k => includes_ci "python developer" k = true) ["Python"]
  /\ scoreJob "python developer" ["Python"] = (0, 0)
  /\ fst (scoreJob "python developer" ["Python"]) <> 100.
Proof.
  split; [repeat constructor|]. split; [reflexivity|]. vm_compute. discriminate.
Qed.

(** ** The structure of a run *)

Ltac run_unfold :=
  unfold bind, getStorage, try_catch, lift, ret, setStorage, modify, put in *.

Lemma Ok_inj {A} (a b : A) : Ok a = Ok b -> a = b.
Proof. intros H. inversion H. reflexivity. Qed.

Lemma getCvKeywords_store (w : World) (s s1 : Store) (r : Outcome (list string)) :
  getCvKeywords w s = (r, s1) ->
  s1 = s \/ exists kws, s1 = setKeywords kws (clock w AtKeywordStore) s.
Proof.
  unfold getCvKeywords. run_unfold.
  destruct (storageFault w _); [intros E; inversion E; auto|].
  destruct (cacheFresh w s); [intros E; inversion E; auto|].
  destruct (negb (truthy (cvLink s))); [intros E; inversion E; auto|].
  destruct (fetchGoogleDocTextBg w ForKeywords _) as [cvText|msg];
    [|intros E; inversion E; auto].
  destruct (truthy (apiKey s)).
  - destruct (aiExtractKeywords w cvText _ _); intros E; inversion E; eauto.
  - intros E; inversion E; eauto.
Qed.

Lemma getCvKeywords_throw (w : World) (s s1 : Store) (msg : string) :
  getCvKeywords w s = (Throw msg, s1) ->
  s1 = s /\ exists keys, storageFault w keys = Some msg.
Proof.
  unfold getCvKeywords. run_unfold.
  destruct (storageFault w _) eqn:F; [intros E; inversion E; subst; eauto|].
  destruct (cacheFresh w s); [intros E; inversion E|].
  destruct (negb (truthy (cvLink s))); [intros E; inversion E|].
  destruct (fetchGoogleDocTextBg w ForKeywords _) as [cvText|m];
    [|intros E; inversion E].
  destruct (truthy (apiKey s)).
  - destruct (aiExtractKeywords w cvText _ _); intros E; inversion E.
  - intros E; inversion E.
Qed.

(** Keyword extraction never fails the pipeline by itself. *)
Lemma getCvKeywords_total (w : World) (s : Store) :
  storageWorks w -> exists kws s1, getCvKeywords w s = (Ok kws, s1).
Proof.
  intros Hw. unfold getCvKeywords. run_unfold. rewrite Hw.
  destruct (cacheFresh w s); [eauto|].
  destruct (negb (truthy (cvLink s))); [eauto|].
  destruct (fetchGoogleDocTextBg w ForKeywords _) as [cvText|m]; [|eauto].
  destruct (truthy (apiKey s)).
  - destruct (aiExtractKeywords w cvText _ _); eauto.
  - eauto.
Qed.

Lemma scrapeBody_ok (w : World) (s s' : Store) :
  scrapeBody w s = (Ok tt, s') ->
  exists kws s1, getCvKeywords w s = (Ok kws, s1) /\ s' = persisted w s kws s1.
Proof.
  unfold scrapeBody. unfold bind at 1. unfold getStorage at 1.
  destruct (storageFault w ["jobSources"]); [discriminate|].
  unfold bind at 1. unfold getStorage at 1.
  destruct (storageFault w ["jobs"]); [discriminate|].
  unfold bind at 1.
  destruct (getCvKeywords w s) as [[kws|m] s1] eqn:Ekw; [|discriminate].
  unfold bind at 1. unfold getStorage at 1.
  destruct (storageFault w ["apiKey"; "modelName"; "cvLink"]); [discriminate|].
  unfold setStorage, modify. intros E. inversion E.
  exists kws, s1. split; reflexivity.
Qed.

Lemma scrapeBody_throw (w : World) (s s' : Store) (msg : string) :
  scrapeBody w s = (Throw msg, s') ->
  (exists keys, storageFault w keys = Some msg)
  /\ jobs s' = jobs s /\ topJobs s' = topJobs s
  /\ jobsLastUpdated s' = jobsLastUpdated s.
Proof.
  unfold scrapeBody. unfold bind at 1. unfold getStorage at 1.
  destruct (storageFault w ["jobSources"]) eqn:F1;
    [intros E; inversion E; subst; eauto|].
  unfold bind at 1. unfold getStorage at 1.
  destruct (storageFault w ["jobs"]) eqn:F2;
    [intros E; inversion E; subst; eauto|].
  unfold bind at 1.
  destruct (getCvKeywords w s) as [[kws|m] s1] eqn:Ekw.
  - pose proof (getCvKeywords_store _ _ _ _ Ekw) as Hs1.
    unfold bind at 1. unfold getStorage at 1.
    destruct (storageFault w ["apiKey"; "modelName"; "cvLink"]) eqn:F3.
    + intros E; inversion E; subst.
      split; [eauto|]. destruct Hs1 as [->|[k ->]]; auto.
    + unfold setStorage, modify. discriminate.
  - intros E; inversion E; subst.
    apply getCvKeywords_throw in Ekw. destruct Ekw as [-> Hf]. auto.
Qed.

Lemma scrapeBody_total (w : World) (s : Store) :
  storageWorks w -> exists s', scrapeBody w s = (Ok tt, s').
Proof.
  intros Hw. destruct (getCvKeywords_total w s Hw) as (kws & s1 & Ekw).
  unfold scrapeBody. unfold bind at 1. unfold getStorage at 1. rewrite Hw.
  unfold bind at 1. unfold getStorage at 1. rewrite Hw.
  unfold bind at 1. rewrite Ekw.
  unfold bind at 1. unfold getStorage at 1. rewrite Hw.
  unfold setStorage, modify. eauto.
Qed.

Lemma scrapeAllJobs_ok (w : World) (s s' : Store) :
  scrapeBody w s = (Ok tt, s') -> scrapeAllJobs w s = s'.
Proof. intros E. unfold scrapeAllJobs, try_catch. rewrite E. reflexivity. Qed.

Lemma scrapeAllJobs_throw (w : World) (s s' : Store) (msg : string) :
  scrapeBody w s = (Throw msg, s') -> scrapeAllJobs w s = setError msg s'.
Proof.
  intros E. unfold scrapeAllJobs, try_catch. rewrite E. reflexivity.
Qed.

(** C6.  When an exception escapes the try block of scrapeAllJobs (a
    pipeline-level error, outside the per-board boundaries), the run stores
    the error message only: jobs, topJobs and jobsLastUpdated keep the
    values persisted before the run, and jobsLastError holds the message. *)
Theorem pipeline_error_preserves_store (w : World) (s s' : Store) (msg : string) :
  scrapeBody w s = (Throw msg, s') ->
  jobs (scrapeAllJobs w s) = jobs s
  /\ topJobs (scrapeAllJobs w s) = topJobs s
  /\ jobsLastUpdated (scrapeAllJobs w s) = jobsLastUpdated s
  /\ jobsLastError (scrapeAllJobs w s) = Some msg.
Proof.
  intros E. rewrite (scrapeAllJobs_throw _ _ _ _ E).
  apply scrapeBody_throw in E. destruct E as (_ & Hj & Ht & Hu).
  simpl. auto.
Qed.

(** ** Sorting and the cap *)

Lemma In_firstn {A} (n : nat) (l : list A) (x : A) : In x (firstn n l) -> In x l.
Proof.
  intros H. rewrite <- (firstn_skipn n l). apply in_or_app. left. exact H.
Qed.

Lemma compareJobs_ranks (a b : Job) : compareJobs a b <= 0 <-> ranksBefore a b.
Proof.
  unfold compareJobs, ranksBefore.
  destruct (Z.eqb_spec (score b) (score a)); simpl; lia.
Qed.

Lemma ranksBefore_total (a b : Job) : ranksBefore a b \/ ranksBefore b a.
Proof. unfold ranksBefore. lia. Qed.

Lemma ranksBefore_trans (a b c : Job) :
  ranksBefore a b -> ranksBefore b c -> ranksBefore a c.
Proof. unfold ranksBefore. lia. Qed.

Lemma insert_perm (x : Job) (l : list Job) :
  Permutation (insert compareJobs x l) (x :: l).
Proof.
  induction l as [|y l IH]; simpl.
  - apply Permutation_refl.
  - destruct (compareJobs x y <=? 0).
    + apply Permutation_refl.
    + eapply Permutation_trans; [apply perm_skip, IH|apply perm_swap].
Qed.

Lemma sort_cons (cmp : Job -> Job -> Z) (x : Job) (l : list Job) :
  sort cmp (x :: l) = insert cmp x (sort cmp l).
Proof. reflexivity. Qed.

Lemma sort_perm (l : list Job) : Permutation (sort compareJobs l) l.
Proof.
  induction l as [|x l IH]; simpl.
  - constructor.
  - eapply Permutation_trans; [apply insert_perm|]. apply perm_skip, IH.
Qed.

Lemma insert_sorted (x : Job) (l : list Job) :
  StronglySorted ranksBefore l -> StronglySorted ranksBefore (insert compareJobs x l).
Proof.
  induction 1 as [|y l Hs IH Hy]; simpl.
  - repeat constructor.
  - destruct (Z.leb_spec (compareJobs x y) 0) as [Hle|Hgt].
    + apply compareJobs_ranks in Hle.
      constructor; [constructor; assumption|].
      constructor; [assumption|].
      rewrite Forall_forall in *. intros z Hz.
      eapply ranksBefore_trans; [exact Hle|]. apply Hy, Hz.
    + constructor; [exact IH|].
      assert (Hyx : ranksBefore y x).
      { destruct (ranksBefore_total x y) as [H|H]; [|exact H].
        apply compareJobs_ranks in H. lia. }
      rewrite Forall_forall in *. intros z Hz.
      apply (Permutation_in _ (insert_perm x l)) in Hz.
      destruct Hz as [<-|Hz]; [exact Hyx|apply Hy, Hz].
Qed.

Lemma sort_sorted (l : list Job) : StronglySorted ranksBefore (sort compareJobs l).
Proof.
  induction l as [|x l IH]; simpl.
  - constructor.
  - apply insert_sorted, IH.
Qed.

(** Sorting is stable: a list already in order is left as it is. *)
Lemma sort_fixed (l : list Job) :
  StronglySorted ranksBefore l -> sort compareJobs l = l.
Proof.
  induction 1 as [|x l Hs IH Hx]; simpl; [reflexivity|].
  rewrite IH. destruct l as [|y l]; simpl; [reflexivity|].
  inversion Hx as [|? ? Hxy _]; subst.
  apply compareJobs_ranks in Hxy.
  destruct (Z.leb_spec (compareJobs x y) 0); [reflexivity|lia].
Qed.

Lemma sorted_split (l1 l2 : list Job) :
  StronglySorted ranksBefore (l1 ++ l2) ->
  forall a b, In a l1 -> In b l2 -> ranksBefore a b.
Proof.
  induction l1 as [|x l1 IH]; simpl; intros Hs a b Ha Hb; [contradiction|].
  inversion Hs as [|? ? Hs' Hx]; subst.
  destruct Ha as [<-|Ha].
  - rewrite Forall_forall in Hx. apply Hx, in_or_app. right. exact Hb.
  - apply IH; assumption.
Qed.

Lemma sorted_firstn (n : nat) (l : list Job) :
  StronglySorted ranksBefore l -> StronglySorted ranksBefore (firstn n l).
Proof.
  intros Hs. revert n. induction Hs as [|x l Hs IH Hx]; intros [|n]; simpl;
    try constructor.
  - apply IH.
  - rewrite Forall_forall in *. intros z Hz. apply Hx.
    eapply In_firstn. exact Hz.
Qed.

Lemma cap_firstn (l : list Job) : cap l = firstn (Z.to_nat MAX_JOBS) l.
Proof.
  unfold cap. destruct (Z.ltb_spec MAX_JOBS (Z.of_nat (List.length l))).
  - reflexivity.
  - symmetry. apply firstn_all2. lia.
Qed.

Lemma cap_length (l : list Job) : Z.of_nat (List.length (cap l)) <= MAX_JOBS.
Proof.
  rewrite cap_firstn, length_firstn. unfold MAX_JOBS. lia.
Qed.

Lemma truncateDescription_ranked (j : Job) :
  ranked (truncateDescription j) = ranked j
  /\ first_seen_at (truncateDescription j) = first_seen_at j.
Proof.
  unfold truncateDescription.
  destruct (_ && _); split; reflexivity.
Qed.

Lemma sizeGuard_length (w : World) (l : list Job) :
  List.length (sizeGuard w l) = List.length l.
Proof.
  unfold sizeGuard. destruct (_ <? _); [apply length_map|reflexivity].
Qed.

Lemma sizeGuard_ranked (w : World) (l : list Job) :
  map ranked (sizeGuard w l) = map ranked l.
Proof.
  unfold sizeGuard. destruct (_ <? _); [|reflexivity].
  rewrite map_map. apply map_ext. intros j. apply truncateDescription_ranked.
Qed.

Lemma sizeGuard_first_seen (w : World) (l : list Job) :
  map first_seen_at (sizeGuard w l) = map first_seen_at l.
Proof.
  unfold sizeGuard. destruct (_ <? _); [|reflexivity].
  rewrite map_map. apply map_ext. intros j. apply truncateDescription_ranked.
Qed.

Lemma persisted_jobs (w : World) (s : Store) (kws : list string) (s1 : Store) :
  jobs (persisted w s kws s1)
  = Some (sizeGuard w (firstn (Z.to_nat MAX_JOBS)
            (sort compareJobs
               (map (rescore (newSet kws)) (prune (cutoff w) (merged w s)))))).
Proof.
  unfold persisted, rankAll, merged, setResult. cbn [jobs].
  rewrite cap_firstn. reflexivity.
Qed.

Lemma persisted_bound (w : World) (s : Store) (kws : list string) (s1 : Store) :
  Z.of_nat (List.length (storedJobs (persisted w s kws s1))) <= MAX_JOBS.
Proof.
  unfold storedJobs. rewrite persisted_jobs. cbn [fromOption].
  rewrite sizeGuard_length, length_firstn. unfold MAX_JOBS. lia.
Qed.

(** A run keeps the bound: it persists a capped list, or it fails and
    leaves the list as it was. *)
Lemma run_keeps_bound (w : World) (s : Store) :
  Z.of_nat (List.length (storedJobs s)) <= MAX_JOBS ->
  Z.of_nat (List.length (storedJobs (scrapeAllJobs w s))) <= MAX_JOBS.
Proof.
  intros Hbound.
  destruct (scrapeBody w s) as [[[]|msg] s'] eqn:E.
  - rewrite (scrapeAllJobs_ok _ _ _ E).
    apply scrapeBody_ok in E. destruct E as (kws & s1 & _ & ->).
    apply persisted_bound.
  - rewrite (scrapeAllJobs_throw _ _ _ _ E).
    apply scrapeBody_throw in E. destruct E as (_ & Hj & _).
    unfold storedJobs in *. cbn [setError jobs]. rewrite Hj. exact Hbound.
Qed.

Lemma reachable_bound (s : Store) :
  Reachable s -> Z.of_nat (List.length (storedJobs s)) <= MAX_JOBS.
Proof.
  induction 1 as [s E|w s _ IH|s s' _ IH E].
  - unfold storedJobs. rewrite E. unfold MAX_JOBS. simpl. lia.
  - apply run_keeps_bound. exact IH.
  - unfold storedJobs in *. rewrite E. exact IH.
Qed.

(** C2.  After every run the persisted jobs list has at most MAX_JOBS
    entries, and the entries a run retains are exactly the first MAX_JOBS
    of the merged, pruned and scored collection put in the sort order
    (score descending, then posted_at descending with a null posted_at
    counting as the instant 0): every retained entry ranks before every
    dropped one. *)
Theorem cap_enforcement (w : World) (s : Store) :
  (Reachable s ->
   Z.of_nat (List.length (storedJobs (scrapeAllJobs w s))) <= MAX_JOBS)
  /\ (forall s', scrapeBody w s = (Ok tt, s') ->
      exists kws s1 sorted,
        getCvKeywords w s = (Ok kws, s1)
        /\ Permutation sorted
             (map (rescore (newSet kws)) (prune (cutoff w) (merged w s)))
        /\ StronglySorted ranksBefore sorted
        /\ jobs (scrapeAllJobs w s)
           = Some (sizeGuard w (firstn (Z.to_nat MAX_JOBS) sorted))
        /\ map ranked (storedJobs (scrapeAllJobs w s))
           = map ranked (firstn (Z.to_nat MAX_JOBS) sorted)
        /\ Z.of_nat (List.length (storedJobs (scrapeAllJobs w s))) <= MAX_JOBS
        /\ (forall kept dropped,
              In kept (firstn (Z.to_nat MAX_JOBS) sorted) ->
              In dropped (skipn (Z.to_nat MAX_JOBS) sorted) ->
              ranksBefore kept dropped)).
Proof.
  split.
  - intros Hr. apply run_keeps_bound, reachable_bound. exact Hr.
  - intros s' E. rewrite (scrapeAllJobs_ok _ _ _ E).
    apply scrapeBody_ok in E. destruct E as (kws & s1 & Ekw & ->).
    set (L := map (rescore (newSet kws)) (prune (cutoff w) (merged w s))).
    exists kws, s1, (sort compareJobs L).
    split; [exact Ekw|]. split; [apply sort_perm|]. split; [apply sort_sorted|].
    split; [apply persisted_jobs|].
    split; [unfold storedJobs; rewrite persisted_jobs; apply sizeGuard_ranked|].
    split; [apply persisted_bound|].
    intros kept dropped Hk Hd.
    apply (sorted_split (firstn (Z.to_nat MAX_JOBS) (sort compareJobs L))
                        (skipn (Z.to_nat MAX_JOBS) (sort compareJobs L)));
      try assumption.
    rewrite firstn_skipn. apply sort_sorted.
Qed.

(** ** Retention *)

Lemma prune_In (c : Z) (l : list Job) (j : Job) :
  In j (prune c l) <->
  In j l /\ exists ms, getTime (first_seen_at j) = Time ms /\ c < ms.
Proof.
  unfold prune. rewrite filter_In. split; intros [Hin H]; split; try assumption.
  - destruct (getTime (first_seen_at j)) as [|ms]; simpl in H; [discriminate|].
    exists ms. split; [reflexivity|]. apply Z.ltb_lt. exact H.
  - destruct H as (ms & -> & Hlt). simpl. apply Z.ltb_lt. exact Hlt.
Qed.

(** ** From the pruned collection to the persisted one *)

Lemma sizeGuard_In (w : World) (l : list Job) (j' : Job) :
  In j' (sizeGuard w l) ->
  exists j, In j l /\ (j' = j \/ j' = truncateDescription j).
Proof.
  unfold sizeGuard. destruct (_ <? _).
  - rewrite in_map_iff. intros (j & <- & Hj). eauto.
  - intros H. eauto.
Qed.

Lemma sizeGuard_In_inv (w : World) (l : list Job) (j : Job) :
  In j l -> In j (sizeGuard w l) \/ In (truncateDescription j) (sizeGuard w l).
Proof.
  unfold sizeGuard. destruct (_ <? _).
  - right. apply in_map. assumption.
  - left. assumption.
Qed.

(** Every persisted entry is a job that survived the prune step, with its
    score recomputed and possibly its description shortened. *)
Lemma persisted_from_pruned (w : World) (s : Store) (kws : list string)
      (s1 : Store) (j' : Job) :
  In j' (storedJobs (persisted w s kws s1)) ->
  exists j, In j (prune (cutoff w) (merged w s))
            /\ id j' = id j /\ first_seen_at j' = first_seen_at j.
Proof.
  unfold storedJobs. rewrite persisted_jobs. cbn [fromOption]. intros H.
  apply sizeGuard_In in H. destruct H as (j1 & H1 & Hj').
  apply In_firstn in H1.
  apply (Permutation_in _ (sort_perm _)) in H1.
  apply in_map_iff in H1. destruct H1 as (j & <- & Hj).
  exists j. split; [exact Hj|].
  destruct Hj' as [->| ->].
  - split; reflexivity.
  - destruct (truncateDescription_ranked (rescore (newSet kws) j)) as [Hr Hf].
    unfold ranked in Hr. inversion Hr. rewrite Hf. split; reflexivity.
Qed.

(** Unless the cap drops it, a job that survived the prune step is
    persisted. *)
Lemma pruned_persisted (w : World) (s : Store) (kws : list string)
      (s1 : Store) (j : Job) :
  In j (prune (cutoff w) (merged w s)) ->
  Z.of_nat (List.length (prune (cutoff w) (merged w s))) <= MAX_JOBS ->
  exists j', In j' (storedJobs (persisted w s kws s1))
             /\ id j' = id j /\ first_seen_at j' = first_seen_at j.
Proof.
  intros Hj Hlen. unfold storedJobs. rewrite persisted_jobs. cbn [fromOption].
  set (L := map (rescore (newSet kws)) (prune (cutoff w) (merged w s))).
  assert (HL : In (rescore (newSet kws) j) (firstn (Z.to_nat MAX_JOBS) (sort compareJobs L))).
  { rewrite firstn_all2.
    - apply (Permutation_in _ (Permutation_sym (sort_perm L))).
      unfold L. apply in_map. exact Hj.
    - rewrite (Permutation_length (sort_perm L)). unfold L.
      rewrite length_map. lia. }
  destruct (sizeGuard_In_inv w _ _ HL) as [H|H].
  - eexists. split; [exact H|]. split; reflexivity.
  - eexists. split; [exact H|].
    destruct (truncateDescription_ranked (rescore (newSet kws) j)) as [Hr Hf].
    unfold ranked in Hr. inversion Hr. rewrite Hf. split; reflexivity.
Qed.

(** The data-model invariant on scores: every persisted score is an
    integer between 0 and 100. *)
Lemma persisted_scores (w : World) (s : Store) (kws : list string) (s1 : Store)
      (j' : Job) :
  In j' (storedJobs (persisted w s kws s1)) -> 0 <= score j' <= 100.
Proof.
  unfold storedJobs. rewrite persisted_jobs. cbn [fromOption]. intros H.
  apply sizeGuard_In in H. destruct H as (j1 & H1 & Hj').
  apply In_firstn in H1.
  apply (Permutation_in _ (sort_perm _)) in H1.
  apply in_map_iff in H1. destruct H1 as (j & <- & _).
  assert (Hs : score j' = fst (scoreJob (jobText j) (newSet kws))).
  { destruct Hj' as [->| ->]; [reflexivity|].
    destruct (truncateDescription_ranked (rescore (newSet kws) j)) as [Hr _].
    unfold ranked in Hr. inversion Hr. reflexivity. }
  rewrite Hs. apply scoreJob_bounds.
Qed.

(** C10.  A job whose first_seen_at is missing or does not parse (a NaN
    time value) is removed by the prune step, whatever the cutoff and
    whatever its actual age, and so is a job whose first_seen_at is the
    cutoff instant itself: the comparison is a strict greater-than.  No
    such job is in the store after a run. *)
Theorem prune_nan_and_boundary (c : Z) (l : list Job) (j : Job) :
  (getTime (first_seen_at j) = NaN -> ~ In j (prune c l))
  /\ (first_seen_at j = DateMissing -> ~ In j (prune c l))
  /\ (forall raw, first_seen_at j = DateInvalid raw -> ~ In j (prune c l))
  /\ (getTime (first_seen_at j) = Time c -> ~ In j (prune c l))
  /\ (forall w s s',
        scrapeBody w s = (Ok tt, s') ->
        In j (storedJobs (scrapeAllJobs w s)) ->
        getTime (first_seen_at j) <> NaN
        /\ getTime (first_seen_at j) <> Time (cutoff w)).
Proof.
  assert (Hnan : getTime (first_seen_at j) = NaN -> ~ In j (prune c l)).
  { intros E Hin. apply prune_In in Hin. destruct Hin as (_ & ms & E' & _).
    congruence. }
  split; [exact Hnan|]. split; [|split; [|split]].
  - intros E. apply Hnan. rewrite E. reflexivity.
  - intros raw E. apply Hnan. rewrite E. reflexivity.
  - intros E Hin. apply prune_In in Hin. destruct Hin as (_ & ms & E' & Hlt).
    rewrite E in E'. inversion E'. lia.
  - intros w s s' E Hj. rewrite (scrapeAllJobs_ok _ _ _ E) in Hj.
    apply scrapeBody_ok in E. destruct E as (kws & s1 & _ & ->).
    apply persisted_from_pruned in Hj. destruct Hj as (j0 & Hj0 & _ & Hf).
    apply prune_In in Hj0. destruct Hj0 as (_ & ms & Hms & Hgt).
    rewrite Hf, Hms. split; [discriminate|].
    intros E. inversion E. lia.
Qed.

(** C3 (amended).  The prune step keeps exactly the jobs of the merged
    collection whose first_seen_at denotes an instant strictly later than
    the cutoff, the clock read at the prune step minus 30 days.  So no
    entry of the store after a run has a first_seen_at older than the
    cutoff, and a job one second inside the window survives the prune step
    and, unless the cap drops it, is in the store after the run. *)
Theorem prune_retention (w : World) (s : Store) :
  (forall j, In j (prune (cutoff w) (merged w s)) <->
             In j (merged w s)
             /\ exists ms, getTime (first_seen_at j) = Time ms /\ cutoff w < ms)
  /\ (forall s' j, scrapeBody w s = (Ok tt, s') ->
        In j (storedJobs (scrapeAllJobs w s)) ->
        ~ olderThan (first_seen_at j) (cutoff w))
  /\ (forall j, In j (merged w s) ->
        first_seen_at j = DateIso (cutoff w + 1000) ->
        In j (prune (cutoff w) (merged w s)))
  /\ (forall s' j, scrapeBody w s = (Ok tt, s') ->
        In j (merged w s) ->
        first_seen_at j = DateIso (cutoff w + 1000) ->
        Z.of_nat (List.length (prune (cutoff w) (merged w s))) <= MAX_JOBS ->
        exists j', In j' (storedJobs (scrapeAllJobs w s))
                   /\ id j' = id j /\ first_seen_at j' = first_seen_at j).
Proof.
  assert (Hin : forall j, In j (merged w s) ->
                  first_seen_at j = DateIso (cutoff w + 1000) ->
                  In j (prune (cutoff w) (merged w s))).
  { intros j Hj E. apply prune_In. split; [exact Hj|].
    exists (cutoff w + 1000). rewrite E. split; [reflexivity|lia]. }
  split; [intros j; apply prune_In|]. split; [|split; [exact Hin|]].
  - intros s' j E Hj [ms [Hms Hlt]].
    rewrite (scrapeAllJobs_ok _ _ _ E) in Hj.
    apply scrapeBody_ok in E. destruct E as (kws & s1 & _ & ->).
    apply persisted_from_pruned in Hj. destruct Hj as (j0 & Hj0 & _ & Hf).
    apply prune_In in Hj0. destruct Hj0 as (_ & ms' & Hms' & Hgt).
    rewrite Hf, Hms' in Hms. inversion Hms. lia.
  - intros s' j E Hj Hf Hlen.
    rewrite (scrapeAllJobs_ok _ _ _ E).
    apply scrapeBody_ok in E. destruct E as (kws & s1 & _ & ->).
    apply pruned_persisted; [apply Hin|]; assumption.
Qed.

(** ** Per-board failures *)

Section Collect.

Variable fetch : string -> Outcome (list Job).
Variable em : ObjectMap.

Lemma collect_app (l1 l2 : list Board) (acc : list Job) :
  collect fetch em (l1 ++ l2) acc = collect fetch em l2 (collect fetch em l1 acc).
Proof.
  revert acc. induction l1 as [|b l1 IH]; intros acc; simpl; [reflexivity|].
  apply IH.
Qed.

Lemma collect_skip (l1 l2 : list Board) (b : Board) (acc : list Job) (msg : string) :
  fetch (token b) = Throw msg ->
  collect fetch em (l1 ++ b :: l2) acc = collect fetch em (l1 ++ l2) acc.
Proof.
  intros E. rewrite !collect_app. simpl. rewrite E. reflexivity.
Qed.

Lemma collect_keeps (boards : list Board) (acc : list Job) (j : Job) :
  In j acc -> In j (collect fetch em boards acc).
Proof.
  revert acc. induction boards as [|b boards IH]; intros acc H; simpl; [exact H|].
  apply IH. destruct (fetch (token b)); [apply in_or_app; left|]; exact H.
Qed.

Lemma collect_merges (boards : list Board) (acc : list Job) (b : Board)
      (fetched : list Job) (j : Job) :
  In b boards -> fetch (token b) = Ok fetched -> In j fetched ->
  isNew em j = true -> In j (collect fetch em boards acc).
Proof.
  revert acc. induction boards as [|b' boards IH]; intros acc Hb E Hj Hn;
    simpl; [contradiction|].
  destruct Hb as [->|Hb].
  - rewrite E. apply collect_keeps, in_or_app. right.
    apply filter_In. split; assumption.
  - eapply IH; eassumption.
Qed.

Lemma collect_origin (boards : list Board) (acc : list Job) (j : Job) :
  In j (collect fetch em boards acc) ->
  In j acc
  \/ (isNew em j = true
      /\ exists b fetched, In b boards /\ fetch (token b) = Ok fetched /\ In j fetched).
Proof.
  revert acc. induction boards as [|b boards IH]; intros acc H; simpl in H;
    [left; exact H|].
  apply IH in H. destruct H as [H|(Hn & b' & f & Hb & E & Hj)].
  - destruct (fetch (token b)) as [fetched|msg] eqn:E; [|left; exact H].
    apply in_app_or in H. destruct H as [H|H]; [left; exact H|].
    apply filter_In in H. destruct H as [Hj Hn].
    right. split; [exact Hn|]. exists b, fetched. simpl. auto.
  - right. split; [exact Hn|]. exists b', f. simpl. auto.
Qed.

End Collect.

(** A board that answers with an error status makes its fetcher throw. *)
Lemma http_error_throws (w : World) (p : provider) (board : string) (status : Z) :
  boardStatus w p board = Some status -> ok status = false ->
  exists msg, fetchJobs w p board = Throw msg.
Proof.
  destruct p; simpl; unfold fetchGreenhouseJobs, fetchLeverJobs.
  - destruct (greenhouseApi w board) as [m|st body]; [discriminate|].
    intros E Hok. inversion E; subst. rewrite Hok. simpl. eauto.
  - destruct (leverApi w board) as [m|st body]; [discriminate|].
    intros E Hok. inversion E; subst. rewrite Hok. simpl. eauto.
Qed.

(** Identity stability: the id and the canonical URL of a normalised
    posting depend on the board and the posting only, not on the moment of
    the fetch. *)
Lemma normalizeGreenhouse_stable (w1 w2 : World) (board : string) (i1 i2 : nat)
      (posting : GhPosting) (j1 j2 : Job) :
  (forall text, sha1 w1 text = sha1 w2 text) ->
  normalizeGreenhouse w1 board i1 posting = Ok j1 ->
  normalizeGreenhouse w2 board i2 posting = Ok j2 ->
  id j1 = id j2 /\ url j1 = url j2 /\ posted_at j1 = posted_at j2
  /\ title j1 = title j2 /\ description j1 = description j2.
Proof.
  intros Hsha. unfold normalizeGreenhouse.
  destruct (toISOString _) as [posted|m]; [|discriminate].
  intros E1 E2. apply Ok_inj in E1, E2. subst j1 j2. cbn [id url posted_at title description].
  rewrite Hsha. repeat split.
Qed.

Lemma normalizeLever_stable (w1 w2 : World) (board : string) (i1 i2 : nat)
      (posting : LvPosting) (j1 j2 : Job) :
  (forall text, sha1 w1 text = sha1 w2 text) ->
  normalizeLever w1 board i1 posting = Ok j1 ->
  normalizeLever w2 board i2 posting = Ok j2 ->
  id j1 = id j2 /\ url j1 = url j2 /\ posted_at j1 = posted_at j2
  /\ title j1 = title j2 /\ description j1 = description j2.
Proof.
  intros Hsha. unfold normalizeLever.
  destruct (toISOString _) as [posted|m]; [|discriminate].
  intros E1 E2. apply Ok_inj in E1, E2. subst j1 j2. cbn [id url posted_at title description].
  rewrite Hsha. repeat split.
Qed.

Lemma fetchNew_skip (w : World) (sources : JobSources) (em : ObjectMap)
      (p : provider) (l1 l2 : list Board) (b : Board) (msg : string) :
  boardsOf p sources = l1 ++ b :: l2 ->
  fetchJobs w p (token b) = Throw msg ->
  fetchNew w sources em = fetchNew w (withBoards p (l1 ++ l2) sources) em.
Proof.
  intros Hb E. unfold fetchNew. destruct p; simpl in *; rewrite Hb.
  - rewrite (collect_skip _ _ _ _ _ _ _ E). reflexivity.
  - rewrite (collect_skip _ _ _ _ _ _ _ E). reflexivity.
Qed.

Lemma fetchNew_merges (w : World) (sources : JobSources) (em : ObjectMap)
      (p : provider) (b : Board) (fetched : list Job) (j : Job) :
  In b (boardsOf p sources) -> fetchJobs w p (token b) = Ok fetched ->
  In j fetched -> isNew em j = true -> In j (fetchNew w sources em).
Proof.
  intros Hb E Hj Hn. unfold fetchNew. destruct p; simpl in *.
  - apply collect_keeps. eapply collect_merges; eassumption.
  - eapply collect_merges; eassumption.
Qed.

Lemma fetchNew_origin (w : World) (sources : JobSources) (em : ObjectMap) (j : Job) :
  In j (fetchNew w sources em) ->
  isNew em j = true
  /\ exists p b fetched,
       In b (boardsOf p sources) /\ fetchJobs w p (token b) = Ok fetched
       /\ In j fetched.
Proof.
  unfold fetchNew. intros H. apply collect_origin in H.
  destruct H as [H|(Hn & b & f & Hb & E & Hj)].
  - apply collect_origin in H.
    destruct H as [[]|(Hn & b & f & Hb & E & Hj)].
    split; [exact Hn|]. exists Greenhouse, b, f. auto.
  - split; [exact Hn|]. exists Lever, b, f. auto.
Qed.

Lemma persisted_no_error (w : World) (s : Store) (kws : list string) (s1 : Store) :
  jobsLastError (persisted w s kws s1) = None.
Proof. reflexivity. Qed.

(** A run whose storage calls work completes and clears the last error,
    whatever the boards, the document export and the language model do. *)
Lemma run_completes (w : World) (s : Store) :
  storageWorks w ->
  exists kws s1, getCvKeywords w s = (Ok kws, s1)
                 /\ scrapeBody w s = (Ok tt, persisted w s kws s1)
                 /\ scrapeAllJobs w s = persisted w s kws s1.
Proof.
  intros Hw. destruct (scrapeBody_total w s Hw) as (s' & E).
  destruct (scrapeBody_ok _ _ _ E) as (kws & s1 & Ekw & ->).
  exists kws, s1. split; [exact Ekw|]. split; [exact E|].
  apply scrapeAllJobs_ok. exact E.
Qed.

(** C7.  The fetch failure of one board (an HTTP 500, say) does not abort
    the run: the failing board contributes no job (the new jobs are those
    of the source list without it), every job fetched from another board
    and not yet in the store is merged and, when it is inside the retention
    window and the cap does not drop it, persisted; the run completes and
    the persisted last-error field is null. *)
Theorem board_failure_isolated (w : World) (s : Store) (p : provider)
        (l1 l2 : list Board) (b : Board) (msg : string) :
  storageWorks w ->
  boardsOf p (activeSources s) = l1 ++ b :: l2 ->
  fetchJobs w p (token b) = Throw msg ->
  fetchNew w (activeSources s) (existingIndex s)
  = fetchNew w (withBoards p (l1 ++ l2) (activeSources s)) (existingIndex s)
  /\ (forall p' b' fetched j,
        In b' (boardsOf p' (activeSources s)) ->
        fetchJobs w p' (token b') = Ok fetched ->
        In j fetched -> isNew (existingIndex s) j = true ->
        In j (merged w s)
        /\ ((exists ms, getTime (first_seen_at j) = Time ms /\ cutoff w < ms) ->
            Z.of_nat (List.length (prune (cutoff w) (merged w s))) <= MAX_JOBS ->
            exists j', In j' (storedJobs (scrapeAllJobs w s))
                       /\ id j' = id j /\ first_seen_at j' = first_seen_at j))
  /\ (exists s', scrapeBody w s = (Ok tt, s'))
  /\ jobsLastError (scrapeAllJobs w s) = None.
Proof.
  intros Hw Hb E.
  destruct (run_completes w s Hw) as (kws & s1 & _ & E1 & E2).
  split; [eapply fetchNew_skip; eassumption|]. split; [|split].
  - intros p' b' fetched j Hb' E' Hj Hn.
    assert (Hm : In j (merged w s)).
    { unfold merged. apply in_or_app. right.
      eapply fetchNew_merges; eassumption. }
    split; [exact Hm|]. intros Hwin Hlen. rewrite E2.
    apply pruned_persisted; [|exact Hlen].
    apply prune_In. split; assumption.
  - eauto.
  - rewrite E2. reflexivity.
Qed.

(** ** Keyword extraction: the fallback *)

Lemma extraction_failure_throws (w : World) (cvText apiKey model : string) :
  ExtractionFailure (chatKeywords w apiKey model (slice0 4000 cvText)) ->
  exists msg, aiExtractKeywords w cvText apiKey model = Throw msg.
Proof.
  unfold aiExtractKeywords. intros H.
  inversion H as [m E|st body Hok E|st E|st parsed Hp E|st parsed Hp E
                  |st parsed items m Hp Ht E]; clear H.
  - eauto.
  - rewrite Hok. simpl. eauto.
  - destruct (negb (ok st)); eauto.
  - destruct (negb (ok st)); [eauto|].
    destruct (getProp "keywords" parsed) as [[[]|]|]; eauto.
    destruct items; [eauto|]. exfalso. eapply Hp. reflexivity.
  - destruct (negb (ok st)); [eauto|]. rewrite Hp. eauto.
  - destruct (negb (ok st)); [eauto|]. rewrite Hp.
    destruct items as [|k ks]; [eauto|]. rewrite Ht. eauto.
Qed.

(** Conversely, the language model strategy throws in these ways only. *)
Lemma throw_is_extraction_failure (w : World) (cvText apiKey model msg : string) :
  aiExtractKeywords w cvText apiKey model = Throw msg ->
  ExtractionFailure (chatKeywords w apiKey model (slice0 4000 cvText)).
Proof.
  unfold aiExtractKeywords.
  destruct (chatKeywords w _ _ _) as [m|st body];
    [intros _; apply ExtractTransport|].
  destruct (ok st) eqn:Hok; [|intros _; apply ExtractStatus; exact Hok].
  cbn [negb]. destruct body as [parsed|]; [|intros _; apply ExtractUndecodable].
  destruct (getProp "keywords" parsed) as [[v|]|m] eqn:Hp.
  - destruct v; try (intros _; apply ExtractMalformed; intros items E; congruence).
    destruct items as [|k ks]; [intros _; apply ExtractEmpty; exact Hp|].
    destruct (traverse_from normalizeKeyword 0 (k :: ks)) as [out|m] eqn:Ht;
      [intros E; discriminate E|].
    intros _. eapply ExtractBadElement; eassumption.
  - intros _. apply ExtractMalformed. intros items E. congruence.
  - intros _. apply ExtractMalformed. intros items E. congruence.
Qed.

(** C8.  When the keyword extraction by the language model fails
    (transport failure, malformed reply, empty keyword array),
    getCvKeywords falls back to extractSmartKeywords over the resume text,
    stores and returns its result, and the pipeline run is not failed. *)
Theorem keyword_extraction_falls_back (w : World) (s : Store) (cvText : string) :
  storageWorks w ->
  cacheFresh w s = None ->
  truthy (cvLink s) = true ->
  truthy (apiKey s) = true ->
  fetchGoogleDocTextBg w ForKeywords (orElse (cvLink s) "") = Ok cvText ->
  ExtractionFailure
    (chatKeywords w (orElse (apiKey s) "") (orElse (modelName s) "gpt-4o-mini")
                  (slice0 4000 cvText)) ->
  getCvKeywords w s
  = (Ok (extractSmartKeywords cvText),
     setKeywords (extractSmartKeywords cvText) (clock w AtKeywordStore) s)
  /\ (exists s', scrapeBody w s = (Ok tt, s'))
  /\ cvKeywords (scrapeAllJobs w s) = Some (extractSmartKeywords cvText)
  /\ jobsLastError (scrapeAllJobs w s) = None.
Proof.
  intros Hw Hc Hl Hk Hdoc Hfail.
  destruct (extraction_failure_throws _ _ _ _ Hfail) as [msg Hai].
  assert (Ekw : getCvKeywords w s
                = (Ok (extractSmartKeywords cvText),
                   setKeywords (extractSmartKeywords cvText) (clock w AtKeywordStore) s)).
  { unfold getCvKeywords. run_unfold. rewrite Hw, Hc, Hl. simpl negb. cbv iota.
    rewrite Hdoc, Hk, Hai. reflexivity. }
  split; [exact Ekw|].
  destruct (run_completes w s Hw) as (kws & s1 & Ekw' & E1 & E2).
  rewrite Ekw in Ekw'. inversion Ekw'; subst kws s1.
  split; [eauto|]. rewrite E2. split; reflexivity.
Qed.

(** ** The keyword sets of the pipeline are lower-case *)

Lemma lower_ascii_idem (c : ascii) : lower_ascii (lower_ascii c) = lower_ascii c.
Proof.
  destruct c as [[] [] [] [] [] [] [] []]; reflexivity.
Qed.

Lemma lower_ascii_space (c : ascii) : is_space (lower_ascii c) = is_space c.
Proof.
  destruct c as [[] [] [] [] [] [] [] []]; reflexivity.
Qed.

Lemma toLowerCase_idem (s : string) : lowercase (toLowerCase s).
Proof.
  unfold lowercase. induction s as [|c s IH]; simpl; [reflexivity|].
  rewrite lower_ascii_idem, IH. reflexivity.
Qed.

Lemma toLowerCase_rev (acc s : string) :
  toLowerCase (rev_string acc s) = rev_string (toLowerCase acc) (toLowerCase s).
Proof.
  revert acc. induction s as [|c s IH]; intros acc; simpl; [reflexivity|].
  rewrite IH. reflexivity.
Qed.

Lemma toLowerCase_trimStart (s : string) :
  toLowerCase (trimStart s) = trimStart (toLowerCase s).
Proof.
  induction s as [|c s IH]; simpl; [reflexivity|].
  rewrite lower_ascii_space. destruct (is_space c); [exact IH|reflexivity].
Qed.

Lemma toLowerCase_trim (s : string) : toLowerCase (trim s) = trim (toLowerCase s).
Proof.
  unfold trim.
  rewrite toLowerCase_rev, toLowerCase_trimStart, toLowerCase_rev,
    toLowerCase_trimStart.
  reflexivity.
Qed.

Lemma normalizeKeyword_lowercase (i : nat) (k : json) (s : string) :
  normalizeKeyword i k = Ok s -> lowercase s.
Proof.
  destruct k; simpl; try discriminate. intros E. apply Ok_inj in E. subst s.
  unfold lowercase. rewrite toLowerCase_trim.
  rewrite (toLowerCase_idem _). reflexivity.
Qed.

Lemma traverse_from_Forall {A B} (f : nat -> A -> Outcome B) (P : B -> Prop)
      (l : list A) (i : nat) (out : list B) :
  (forall n x y, f n x = Ok y -> P y) ->
  traverse_from f i l = Ok out -> Forall P out.
Proof.
  intros Hf. revert i out. induction l as [|x l IH]; intros i out; simpl.
  - intros E. apply Ok_inj in E. subst. constructor.
  - destruct (f i x) as [y|m] eqn:Ey; [|discriminate].
    destruct (traverse_from f (S i) l) as [ys|m] eqn:Eys; [|discriminate].
    intros E. apply Ok_inj in E. subst. constructor; eauto.
Qed.

(** The keywords the language model strategy returns are lower-case. *)
Lemma aiExtractKeywords_lowercase (w : World) (cvText apiKey model : string)
      (kws : list string) :
  aiExtractKeywords w cvText apiKey model = Ok kws -> Forall lowercase kws.
Proof.
  unfold aiExtractKeywords.
  destruct (chatKeywords w _ _ _) as [m|st body]; [discriminate|].
  destruct (negb (ok st)); [discriminate|].
  destruct body as [parsed|]; [|discriminate].
  destruct (getProp "keywords" parsed) as [[[]|]|]; try discriminate.
  destruct items as [|k ks]; [discriminate|].
  destruct (traverse_from normalizeKeyword 0 (k :: ks)) as [out|m] eqn:E;
    [|discriminate].
  intros H. apply Ok_inj in H. subst kws.
  apply (traverse_from_Forall _ lowercase) in E;
    [|exact normalizeKeyword_lowercase].
  rewrite Forall_forall in *. intros x Hx. apply filter_In in Hx. apply E, Hx.
Qed.

Lemma addMatching_Forall (P : string -> Prop) (lowerText : string)
      (terms acc : list string) :
  Forall P terms -> Forall P acc -> Forall P (addMatching lowerText terms acc).
Proof.
  unfold addMatching. intros Ht. revert acc.
  induction Ht as [|t terms Hp _ IH]; intros acc Hacc; simpl; [exact Hacc|].
  apply IH. destruct (includes lowerText t); [|exact Hacc].
  unfold set_add. destruct (mem t acc); [exact Hacc|].
  apply Forall_app. split; [exact Hacc|]. constructor; [exact Hp|constructor].
Qed.

(** The keywords the pattern strategy returns are lower-case. *)
Lemma extractSmartKeywords_lowercase (text : string) :
  Forall lowercase (extractSmartKeywords text).
Proof.
  unfold extractSmartKeywords.
  apply addMatching_Forall; [|apply addMatching_Forall; [|constructor]].
  - unfold roleTerms. repeat constructor.
  - unfold techTerms. repeat constructor.
Qed.

(** ** The shortlist *)

Lemma summaries_from_length (i : nat) (l : list Job) :
  List.length (summaries_from i l) = List.length l.
Proof.
  revert i. induction l as [|j l IH]; intros i; simpl; [reflexivity|].
  rewrite IH. reflexivity.
Qed.

(** The filter of aiRankTop5 keeps exactly the accepted entries. *)
Lemma validIndex_accepted (len : nat) (i : json) :
  validIndex len i = true <-> acceptedIndex len i.
Proof.
  unfold acceptedIndex. destruct i as [|b|q|str|items|props]; simpl;
    try (split; [discriminate|intros (q' & E & _); discriminate E]).
  rewrite andb_true_iff, negb_true_iff, Qle_bool_iff. split.
  - intros [H0 Hlt]. exists q. split; [reflexivity|]. split; [exact H0|].
    apply Qnot_le_lt. intros Hle. apply Qle_bool_iff in Hle. congruence.
  - intros (q' & E & H0 & Hlt). injection E as <-. split; [exact H0|].
    destruct (Qle_bool (inject_Z (Z.of_nat len)) q) eqn:Hle; [|reflexivity].
    apply Qle_bool_iff in Hle. exfalso. exact (Qlt_not_le _ _ Hlt Hle).
Qed.

Lemma none_accepted (len : nat) (indices : list json) :
  filter (validIndex len) indices = [] <->
  forall i, In i indices -> ~ acceptedIndex len i.
Proof.
  split.
  - intros E i Hi Ha. apply validIndex_accepted in Ha.
    assert (H : In i (filter (validIndex len) indices))
      by (apply filter_In; split; assumption).
    rewrite E in H. exact H.
  - intros H. induction indices as [|i l IH]; [reflexivity|]. simpl.
    destruct (validIndex len i) eqn:E.
    + exfalso. apply (H i); [now left|]. apply validIndex_accepted, E.
    + apply IH. intros x Hx. apply H. now right.
Qed.

Lemma ranking_failure_outcome (w : World) (top100 : list Job)
      (cvText apiKey model : string) :
  RankingFailure (List.length top100)
    (chatRanking w apiKey model (slice0 3000 cvText) (summaries_from 0 top100)) ->
  (exists msg, aiRankTop5 w top100 cvText apiKey model = Throw msg)
  \/ aiRankTop5 w top100 cvText apiKey model = Ok [].
Proof.
  unfold aiRankTop5. intros H.
  inversion H as [m E|st body Hok E|st E|st parsed Hp E|st parsed ix Hp Hf E];
    clear H.
  - left. eauto.
  - rewrite Hok. left. simpl. eauto.
  - left. destruct (negb (ok st)); eauto.
  - left. destruct (negb (ok st)); [eauto|].
    destruct (replyIndices parsed) as [[[]|]|]; eauto.
    exfalso. eapply Hp. reflexivity.
  - destruct (negb (ok st)); [left; eauto|]. right.
    apply none_accepted in Hf. rewrite Hp, Hf. reflexivity.
Qed.

(** Conversely, the re-rank throws or returns no pick in these ways only. *)
Lemma unusable_is_ranking_failure (w : World) (top100 : list Job)
      (cvText apiKey model : string) :
  (exists msg, aiRankTop5 w top100 cvText apiKey model = Throw msg)
  \/ aiRankTop5 w top100 cvText apiKey model = Ok [] ->
  RankingFailure (List.length top100)
    (chatRanking w apiKey model (slice0 3000 cvText) (summaries_from 0 top100)).
Proof.
  unfold aiRankTop5.
  destruct (chatRanking w _ _ _ _) as [m|st body]; [intros _; apply RankTransport|].
  destruct (ok st) eqn:Hok; [|intros _; apply RankStatus; exact Hok].
  cbn [negb]. destruct body as [parsed|]; [|intros _; apply RankUndecodable].
  destruct (replyIndices parsed) as [[v|]|m] eqn:Hp;
    try (intros _; apply RankBadShape; intros ix E; congruence).
  destruct v; try (intros _; apply RankBadShape; intros ix E; congruence).
  intros [[m E]|E]; [discriminate E|].
  apply Ok_inj in E. eapply RankNoValidIndex; [exact Hp|].
  apply none_accepted.
  destruct (filter (validIndex (List.length top100)) items) as [|i rest];
    [reflexivity|discriminate E].
Qed.

(** The keyword step leaves the settings that the re-rank reads. *)
Lemma keywords_keep_settings (w : World) (s s1 : Store) (r : Outcome (list string)) :
  getCvKeywords w s = (r, s1) ->
  apiKey s1 = apiKey s /\ cvLink s1 = cvLink s /\ modelName s1 = modelName s.
Proof.
  intros E. destruct (getCvKeywords_store _ _ _ _ E) as [->|[k ->]];
    repeat split.
Qed.

Lemma rankingUnusable_settings (w : World) (data data' : Store) (pool : list Job) :
  apiKey data' = apiKey data -> cvLink data' = cvLink data ->
  modelName data' = modelName data ->
  rankingUnusable w data pool -> rankingUnusable w data' pool.
Proof.
  unfold rankingUnusable, rankingReply. intros -> -> ->. trivial.
Qed.

(** When the re-rank of the pool gives nothing usable, the shortlist is
    the keyword-only default. *)
Lemma shortlist_default (w : World) (data : Store) (top100 : list Job) :
  rankingUnusable w data top100 ->
  shortlist w data top100 = map Some (firstn 5 top100).
Proof.
  intros Hu. unfold shortlist.
  destruct (truthy (apiKey data) && truthy (cvLink data)
            && (0 <? List.length top100)%nat); [|reflexivity].
  unfold rankBlock, try_catch, bind, lift, ret, put.
  destruct Hu as [[msg ->]|(cvText & -> & Hrank)]; [reflexivity|].
  unfold rankingReply in Hrank. apply ranking_failure_outcome in Hrank.
  destruct Hrank as [[m ->]| ->]; reflexivity.
Qed.

(** Conversely: when the re-rank is requested and the shortlist is not
    what the language model picked, the re-rank gave nothing usable. *)
Lemma shortlist_requested (w : World) (data : Store) (top100 : list Job) :
  truthy (apiKey data) = true -> truthy (cvLink data) = true ->
  top100 <> [] ->
  rankingUnusable w data top100
  \/ exists cvText picks,
       fetchGoogleDocTextBg w ForRanking (orElse (cvLink data) "") = Ok cvText
       /\ aiRankTop5 w top100 cvText (orElse (apiKey data) "")
                     (orElse (modelName data) "gpt-4o-mini") = Ok picks
       /\ picks <> [] /\ shortlist w data top100 = picks.
Proof.
  intros Hk Hl Hne. unfold shortlist. rewrite Hk, Hl.
  assert (Hlen : (0 <? List.length top100)%nat = true).
  { apply Nat.ltb_lt. destruct top100; [congruence|simpl; lia]. }
  rewrite Hlen. cbn [andb].
  unfold rankBlock, try_catch, bind, lift, ret, put.
  destruct (fetchGoogleDocTextBg w ForRanking _) as [cvText|m] eqn:Edoc;
    [|left; left; eauto].
  destruct (aiRankTop5 w top100 cvText _ _) as [picks|m] eqn:Eai.
  - destruct picks as [|x picks].
    + left. right. exists cvText. split; [first [exact Edoc|reflexivity]|].
      apply unusable_is_ranking_failure. right. exact Eai.
    + right. exists cvText, (x :: picks). split; [first [exact Edoc|reflexivity]|].
      split; [first [exact Eai|reflexivity]|]. split; [discriminate|].
      cbn [List.length Nat.ltb Nat.leb].
      destruct (traverse_from pickLabel 0 (x :: picks)); reflexivity.
  - left. right. exists cvText. split; [first [exact Edoc|reflexivity]|].
    apply unusable_is_ranking_failure. left. eauto.
Qed.

Lemma pick_In (top100 : list Job) (i : json) (j : Job) :
  pick top100 i = Some j -> In j top100.
Proof.
  destruct i; simpl; try discriminate.
  destruct (_ =? 0); [|discriminate]. apply nth_error_In.
Qed.

(** The shortlist has at most five entries, and each of its entries that
    is a job is a job of the pool. *)
Lemma shortlist_sound (w : World) (data : Store) (top100 : list Job) :
  (List.length (shortlist w data top100) <= 5)%nat
  /\ forall j, In (Some j) (shortlist w data top100) -> In j top100.
Proof.
  assert (Hdef : (List.length (map Some (firstn 5 top100)) <= 5)%nat
                 /\ forall j, In (Some j) (map Some (firstn 5 top100)) -> In j top100).
  { split.
    - rewrite length_map. apply firstn_le_length.
    - intros j Hj. apply in_map_iff in Hj. destruct Hj as (x & Hx & Hin).
      inversion Hx; subst. eapply In_firstn. exact Hin. }
  unfold shortlist.
  destruct (truthy (apiKey data) && truthy (cvLink data)
            && (0 <? List.length top100)%nat); [|exact Hdef].
  unfold rankBlock, try_catch, bind, lift, ret, put.
  destruct (fetchGoogleDocTextBg w ForRanking _) as [cvText|m]; [|exact Hdef].
  destruct (aiRankTop5 w top100 cvText _ _) as [aiPicks|m] eqn:Eai; [|exact Hdef].
  assert (Hpicks : (List.length aiPicks <= 5)%nat
                   /\ forall j, In (Some j) aiPicks -> In j top100).
  { unfold aiRankTop5 in Eai.
    destruct (chatRanking w _ _ _ _) as [m|st body]; [discriminate|].
    destruct (negb (ok st)); [discriminate|].
    destruct body as [parsed|]; [|discriminate].
    destruct (replyIndices parsed) as [[[]|]|]; try discriminate.
    apply Ok_inj in Eai. subst aiPicks. split.
    - rewrite length_map. apply firstn_le_length.
    - intros j Hj. apply in_map_iff in Hj. destruct Hj as (i & Hi & _).
      eapply pick_In. exact Hi. }
  destruct (0 <? List.length aiPicks)%nat; [|exact Hdef].
  destruct (traverse_from pickLabel 0 aiPicks); exact Hpicks.
Qed.

Lemma persisted_topJobs (w : World) (s : Store) (kws : list string) (s1 : Store) :
  topJobs (persisted w s kws s1)
  = Some (shortlist w s1 (firstn 100 (storedJobs (persisted w s kws s1)))).
Proof. reflexivity. Qed.

Lemma firstn_5_100 {A} (l : list A) : firstn 5 (firstn 100 l) = firstn 5 l.
Proof. rewrite firstn_firstn. reflexivity. Qed.

(** C5 (amended).  When the re-rank that the run requests for its pool, the
    first 100 jobs of the list it persists, gives nothing usable (the
    resume cannot be downloaded, the language model cannot be reached, its
    reply has an error status, does not decode or holds no index array, or
    no entry of the index array is accepted as an index into the pool),
    the persisted shortlist is the keyword-only default, the first 5 jobs
    of the sorted list, and the run completes with a null last error. *)
Theorem ranking_failure_keeps_keyword_shortlist (w : World) (s : Store) :
  storageWorks w ->
  rankingUnusable w s (firstn 100 (storedJobs (scrapeAllJobs w s))) ->
  (exists s', scrapeBody w s = (Ok tt, s'))
  /\ jobsLastError (scrapeAllJobs w s) = None
  /\ topJobs (scrapeAllJobs w s)
     = Some (map Some (firstn 5 (storedJobs (scrapeAllJobs w s)))).
Proof.
  intros Hw Hu.
  destruct (run_completes w s Hw) as (kws & s1 & E1 & E2 & E3).
  split; [eauto|]. rewrite E3 in Hu |- *. split; [reflexivity|].
  destruct (keywords_keep_settings _ _ _ _ E1) as (Ea & Ec & Em).
  apply (rankingUnusable_settings w s s1 _ Ea Ec Em) in Hu.
  rewrite persisted_topJobs, shortlist_default by exact Hu.
  rewrite firstn_5_100. reflexivity.
Qed.

(** After a successful run the shortlist has at most five entries, and
    each of its entries that is a job is an entry of the persisted list. *)
Lemma topJobs_sound (w : World) (s s' : Store) :
  scrapeBody w s = (Ok tt, s') ->
  exists top, topJobs (scrapeAllJobs w s) = Some top
              /\ (List.length top <= 5)%nat
              /\ forall j, In (Some j) top -> In j (storedJobs (scrapeAllJobs w s)).
Proof.
  intros E. rewrite (scrapeAllJobs_ok _ _ _ E).
  apply scrapeBody_ok in E. destruct E as (kws & s1 & _ & ->).
  rewrite persisted_topJobs. eexists. split; [reflexivity|].
  destruct (shortlist_sound w s1 (firstn 100 (storedJobs (persisted w s kws s1))))
    as [Hlen Hin].
  split; [exact Hlen|]. intros j Hj. eapply In_firstn. apply Hin. exact Hj.
Qed.

(** ** The identity index *)

Lemma map_set_keys (m : ObjectMap) (k : string) (v : Job) (k' : string) :
  In k' (map fst (map_set m k v)) <-> k' = k \/ In k' (map fst m).
Proof.
  induction m as [|[k0 v0] m IH]; simpl.
  - intuition.
  - destruct (String.eqb_spec k0 k) as [->|Hne]; simpl.
    + intuition.
    + rewrite IH. intuition.
Qed.

Lemma map_set_fresh (m : ObjectMap) (k : string) (v : Job) :
  ~ In k (map fst m) -> map_set m k v = m ++ [(k, v)].
Proof.
  induction m as [|[k0 v0] m IH]; simpl; intros Hn; [reflexivity|].
  destruct (String.eqb_spec k0 k) as [->|Hne].
  - exfalso. apply Hn. left. reflexivity.
  - rewrite IH; [reflexivity|]. intros H. apply Hn. right. exact H.
Qed.

Lemma map_set_NoDup (m : ObjectMap) (k : string) (v : Job) :
  NoDup (map fst m) -> NoDup (map fst (map_set m k v)).
Proof.
  induction m as [|[k0 v0] m IH]; simpl; intros Hnd.
  - repeat constructor. intros [].
  - inversion Hnd as [|? ? Hk0 Hm]; subst.
    destruct (String.eqb_spec k0 k) as [->|Hne]; simpl.
    + constructor; assumption.
    + constructor; [|apply IH; exact Hm].
      rewrite map_set_keys. intros [E|H]; [congruence|contradiction].
Qed.

Lemma map_set_entries (m : ObjectMap) (k : string) (v : Job) (k' : string) (v' : Job) :
  In (k', v') (map_set m k v) -> (k' = k /\ v' = v) \/ In (k', v') m.
Proof.
  induction m as [|[k0 v0] m IH]; simpl.
  - intros [E|[]]. inversion E. auto.
  - destruct (String.eqb_spec k0 k) as [->|Hne]; simpl.
    + intros [E|H]; [inversion E; auto|auto].
    + intros [E|H]; [auto|]. apply IH in H. intuition.
Qed.

Section Index.

Let step (m : ObjectMap) (j : Job) : ObjectMap := map_set m (id j) j.

Lemma build_keys (E : list Job) (acc : ObjectMap) (k : string) :
  In k (map fst (fold_left step E acc)) <-> In k (map fst acc) \/ In k (map id E).
Proof.
  revert acc. induction E as [|j E IH]; intros acc; simpl.
  - intuition.
  - rewrite IH. unfold step. rewrite map_set_keys. intuition.
Qed.

Lemma build_NoDup (E : list Job) (acc : ObjectMap) :
  NoDup (map fst acc) -> NoDup (map fst (fold_left step E acc)).
Proof.
  revert acc. induction E as [|j E IH]; intros acc H; simpl; [exact H|].
  apply IH. apply map_set_NoDup. exact H.
Qed.

Lemma build_entries (E : list Job) (acc : ObjectMap) (k : string) (v : Job) :
  In (k, v) (fold_left step E acc) -> In (k, v) acc \/ (In v E /\ k = id v).
Proof.
  revert acc. induction E as [|j E IH]; intros acc; simpl; [auto|].
  intros H. apply IH in H. destruct H as [H|[H1 H2]]; [|auto].
  apply map_set_entries in H. destruct H as [[-> ->]|H]; auto.
Qed.

Lemma build_distinct (E : list Job) (acc : ObjectMap) :
  NoDup (map fst acc ++ map id E) ->
  fold_left step E acc = acc ++ map (fun j => (id j, j)) E.
Proof.
  revert acc. induction E as [|j E IH]; intros acc H; simpl.
  - rewrite app_nil_r. reflexivity.
  - unfold step at 2. rewrite map_set_fresh.
    + rewrite IH.
      * rewrite <- app_assoc. reflexivity.
      * rewrite map_app. simpl. rewrite <- app_assoc. exact H.
    + simpl in H. apply NoDup_remove_2 in H. intros Hin. apply H.
      apply in_or_app. left. exact Hin.
Qed.

Lemma indexById_keys (E : list Job) (k : string) :
  In k (map fst (indexById E)) <-> In k (map id E).
Proof. unfold indexById. fold step. rewrite build_keys. simpl. intuition. Qed.

Lemma indexById_NoDup (E : list Job) : NoDup (map fst (indexById E)).
Proof. unfold indexById. fold step. apply build_NoDup. constructor. Qed.

Lemma indexById_entries (E : list Job) (k : string) (v : Job) :
  In (k, v) (indexById E) -> In v E /\ k = id v.
Proof.
  unfold indexById. fold step. intros H. apply build_entries in H.
  destruct H as [[]|H]. exact H.
Qed.

(** With distinct ids the index enumerates the stored list itself. *)
Lemma indexById_distinct (E : list Job) :
  NoDup (map id E) -> Object_values (indexById E) = E.
Proof.
  intros H. unfold indexById. fold step. rewrite build_distinct by exact H.
  unfold Object_values. simpl. rewrite map_map. simpl. apply map_id.
Qed.

End Index.

Lemma map_get_Some (m : ObjectMap) (k : string) (v : Job) :
  map_get m k = Some v -> In (k, v) m.
Proof.
  unfold map_get. destruct (find _ m) as [[k0 v0]|] eqn:F; [|discriminate].
  simpl. intros E. inversion E; subst.
  apply find_some in F. destruct F as [Hin Hk]. simpl in Hk.
  apply String.eqb_eq in Hk. subst. exact Hin.
Qed.

Lemma map_get_In (m : ObjectMap) (k : string) (v : Job) :
  NoDup (map fst m) -> In (k, v) m -> map_get m k = Some v.
Proof.
  unfold map_get. induction m as [|[k0 v0] m IH]; simpl; intros Hnd Hin; [contradiction|].
  inversion Hnd as [|? ? Hk0 Hm]; subst.
  destruct (String.eqb_spec k0 k) as [->|Hne]; simpl.
  - destruct Hin as [E|Hin]; [inversion E; reflexivity|].
    exfalso. apply Hk0. apply (in_map fst) in Hin. exact Hin.
  - destruct Hin as [E|Hin]; [inversion E; congruence|].
    apply IH; assumption.
Qed.

Lemma map_get_None (m : ObjectMap) (k : string) :
  map_get m k = None <-> ~ In k (map fst m).
Proof.
  unfold map_get. split.
  - intros H Hin. apply in_map_iff in Hin. destruct Hin as ([k0 v0] & E & Hin).
    simpl in E. subst k0.
    destruct (find _ m) eqn:F; [discriminate|].
    apply (find_none _ _ F) in Hin. simpl in Hin.
    rewrite String.eqb_refl in Hin. discriminate.
  - intros Hn. destruct (find _ m) as [[k0 v0]|] eqn:F; [|reflexivity].
    exfalso. apply find_some in F. destruct F as [Hin Hk]. simpl in Hk.
    apply String.eqb_eq in Hk. subst. apply Hn.
    apply (in_map fst) in Hin. exact Hin.
Qed.

(** A fetched job counts as new exactly when its id is not the id of a
    stored job. *)
Lemma isNew_absent (E : list Job) (j : Job) :
  isNew (indexById E) j = true <-> ~ In (id j) (map id E).
Proof.
  unfold isNew. rewrite <- indexById_keys, <- map_get_None.
  destruct (map_get (indexById E) (id j)); split; congruence.
Qed.

(** ** Counting the entries of an id *)

Lemma occurrences_app (k : string) (l1 l2 : list Job) :
  occurrences k (l1 ++ l2) = (occurrences k l1 + occurrences k l2)%nat.
Proof. unfold occurrences. rewrite filter_app, length_app. reflexivity. Qed.

Lemma occurrences_absent (k : string) (l : list Job) :
  ~ In k (map id l) -> occurrences k l = 0%nat.
Proof.
  unfold occurrences. induction l as [|j l IH]; simpl; intros Hn; [reflexivity|].
  destruct (String.eqb_spec (id j) k) as [E|Hne].
  - exfalso. apply Hn. left. exact E.
  - apply IH. intros H. apply Hn. right. exact H.
Qed.

Lemma occurrences_NoDup (k : string) (l : list Job) :
  NoDup (map id l) -> (occurrences k l <= 1)%nat.
Proof.
  induction l as [|j l IH]; simpl; intros Hnd; [unfold occurrences; simpl; lia|].
  inversion Hnd as [|? ? Hj Hl]; subst.
  change (j :: l) with ([j] ++ l). rewrite occurrences_app.
  unfold occurrences at 1. simpl.
  destruct (String.eqb_spec (id j) k) as [E|Hne]; simpl.
  - rewrite occurrences_absent; [lia|]. rewrite <- E. exact Hj.
  - apply IH. exact Hl.
Qed.

Lemma occurrences_filter (k : string) (f : Job -> bool) (l : list Job) :
  (occurrences k (filter f l) <= occurrences k l)%nat.
Proof.
  unfold occurrences. induction l as [|j l IH]; simpl; [lia|].
  destruct (f j); simpl; destruct (String.eqb (id j) k); simpl; lia.
Qed.

Lemma occurrences_map (k : string) (f : Job -> Job) (l : list Job) :
  (forall j, id (f j) = id j) -> occurrences k (map f l) = occurrences k l.
Proof.
  intros Hf. unfold occurrences. induction l as [|j l IH]; simpl; [reflexivity|].
  rewrite Hf. destruct (String.eqb (id j) k); simpl; rewrite IH; reflexivity.
Qed.

Lemma occurrences_perm (k : string) (l l' : list Job) :
  Permutation l l' -> occurrences k l = occurrences k l'.
Proof.
  intros HP. unfold occurrences. apply Permutation_length.
  induction HP; simpl.
  - constructor.
  - destruct (String.eqb (id x) k); [constructor|]; assumption.
  - destruct (String.eqb (id x) k), (String.eqb (id y) k);
      try apply perm_swap; apply Permutation_refl.
  - eapply Permutation_trans; eassumption.
Qed.

Lemma occurrences_firstn (k : string) (n : nat) (l : list Job) :
  (occurrences k (firstn n l) <= occurrences k l)%nat.
Proof.
  rewrite <- (firstn_skipn n l) at 2. rewrite occurrences_app. lia.
Qed.

Lemma occurrences_sizeGuard (w : World) (k : string) (l : list Job) :
  occurrences k (sizeGuard w l) = occurrences k l.
Proof.
  unfold sizeGuard. destruct (_ <? _); [|reflexivity].
  apply occurrences_map. intros j.
  destruct (truncateDescription_ranked j) as [H _]. unfold ranked in H.
  inversion H. reflexivity.
Qed.

Lemma Object_values_ids (E : list Job) :
  map id (Object_values (indexById E)) = map fst (indexById E).
Proof.
  unfold Object_values. rewrite map_map.
  apply map_ext_in. intros [k v] Hin. simpl.
  apply indexById_entries in Hin. destruct Hin as [_ ->]. reflexivity.
Qed.

(** ** Deduplication across runs *)

Lemma fetchNew_absent (w : World) (s : Store) (j : Job) :
  In j (fetchNew w (activeSources s) (existingIndex s)) ->
  ~ In (id j) (map id (storedJobs s)).
Proof.
  intros H. apply fetchNew_origin in H. destruct H as [Hn _].
  apply isNew_absent. exact Hn.
Qed.

Lemma merged_occurrences (w : World) (s : Store) (k : string) :
  In k (map id (storedJobs s)) -> (occurrences k (merged w s) <= 1)%nat.
Proof.
  intros Hk. unfold merged. rewrite occurrences_app.
  rewrite (occurrences_absent k (fetchNew _ _ _)).
  - rewrite Nat.add_0_r. apply occurrences_NoDup.
    unfold existingIndex. rewrite Object_values_ids. apply indexById_NoDup.
  - intros Hin. apply in_map_iff in Hin. destruct Hin as (j & <- & Hj).
    apply fetchNew_absent in Hj. contradiction.
Qed.

Lemma rescore_id (K : list string) (j : Job) : id (rescore K j) = id j.
Proof. reflexivity. Qed.

Lemma persisted_occurrences (w : World) (s : Store) (kws : list string)
      (s1 : Store) (k : string) :
  (occurrences k (storedJobs (persisted w s kws s1)) <= occurrences k (merged w s))%nat.
Proof.
  unfold storedJobs. rewrite persisted_jobs. cbn [fromOption].
  rewrite occurrences_sizeGuard.
  eapply Nat.le_trans; [apply occurrences_firstn|].
  rewrite (occurrences_perm _ _ _ (sort_perm _)).
  rewrite occurrences_map by apply rescore_id.
  apply occurrences_filter.
Qed.

Lemma persisted_first_seen (w : World) (s : Store) (kws : list string)
      (s1 : Store) (j' : Job) :
  In j' (storedJobs (persisted w s kws s1)) ->
  In (id j') (map id (storedJobs s)) ->
  exists e, In e (storedJobs s) /\ id e = id j'
            /\ map_get (existingIndex s) (id j') = Some e
            /\ first_seen_at j' = first_seen_at e.
Proof.
  intros Hj' Hk. apply persisted_from_pruned in Hj'.
  destruct Hj' as (j & Hj & Hid & Hfs).
  apply prune_In in Hj. destruct Hj as [Hj _]. unfold merged in Hj.
  apply in_app_or in Hj. destruct Hj as [Hj|Hj].
  - unfold Object_values in Hj. apply in_map_iff in Hj.
    destruct Hj as ([k0 v] & E & Hin). simpl in E. subst v.
    pose proof (indexById_entries _ _ _ Hin) as [HE Hk0]. subst k0.
    exists j. split; [exact HE|]. split; [auto|]. split; [|exact Hfs].
    rewrite Hid. apply map_get_In; [apply indexById_NoDup|exact Hin].
  - apply fetchNew_absent in Hj. rewrite Hid in Hk. contradiction.
Qed.

Lemma rescore_idem (K : list string) (j : Job) :
  rescore K (rescore K j) = rescore K j.
Proof. reflexivity. Qed.

Lemma sizeGuard_silent (w : World) (l : list Job) :
  jsonLength w l <= STORAGE_WARN_BYTES -> sizeGuard w l = l.
Proof.
  intros H. unfold sizeGuard.
  destruct (Z.ltb_spec STORAGE_WARN_BYTES (jsonLength w l)); [lia|reflexivity].
Qed.

(** The list a run is about to persist is scored with the keyword set of
    the run, in the sort order and within the cap. *)
Lemma preGuard_settled (w : World) (s : Store) (kws : list string) :
  map (rescore (newSet kws)) (preGuard w s kws) = preGuard w s kws
  /\ StronglySorted ranksBefore (preGuard w s kws)
  /\ (List.length (preGuard w s kws) <= Z.to_nat MAX_JOBS)%nat.
Proof.
  unfold preGuard. rewrite cap_firstn. split; [|split].
  - rewrite <- (map_id (firstn _ _)) at 2. apply map_ext_in.
    intros j Hj. apply In_firstn in Hj.
    apply (Permutation_in _ (sort_perm _)) in Hj.
    apply in_map_iff in Hj. destruct Hj as (j0 & <- & _).
    apply rescore_idem.
  - apply sorted_firstn, sort_sorted.
  - apply firstn_le_length.
Qed.

(** A run over a settled store whose boards return nothing new and whose
    jobs are all inside the window persists the stored list again. *)
Lemma settled_run (w : World) (s : Store) (kws : list string) (s1 : Store) :
  map (rescore (newSet kws)) (storedJobs s) = storedJobs s ->
  StronglySorted ranksBefore (storedJobs s) ->
  (List.length (storedJobs s) <= Z.to_nat MAX_JOBS)%nat ->
  jsonLength w (storedJobs s) <= STORAGE_WARN_BYTES ->
  NoDup (map id (storedJobs s)) ->
  fetchNew w (activeSources s) (existingIndex s) = [] ->
  prune (cutoff w) (storedJobs s) = storedJobs s ->
  jobs (persisted w s kws s1) = Some (storedJobs s).
Proof.
  intros Hscore Hsorted Hlen Hsize Hnd Hnew Hwin.
  rewrite persisted_jobs. unfold merged, existingIndex. fold (storedJobs s).
  rewrite indexById_distinct by exact Hnd.
  unfold existingIndex in Hnew. fold (storedJobs s) in Hnew.
  rewrite Hnew, app_nil_r, Hwin, Hscore.
  rewrite sort_fixed by exact Hsorted.
  rewrite firstn_all2 by exact Hlen.
  rewrite sizeGuard_silent by exact Hsize. reflexivity.
Qed.

(** C1 (amended).  In every run, for every id already in the store the run
    creates no duplicate entry and the entry keeps the first_seen_at of the
    stored job, and a fetched job is appended only if its id is absent from
    the identity index.  A second run in succession leaves the persisted
    jobs list unchanged provided that it computes the same keyword set,
    the boards return no job that is not in the store (none was pruned or
    capped out), no stored job has left the retention window, the stored
    ids are distinct and the size guard does not fire. *)
Theorem dedup_idempotence (w : World) (s : Store) :
  (forall s', scrapeBody w s = (Ok tt, s') ->
     (forall k, In k (map id (storedJobs s)) ->
        (occurrences k (storedJobs (scrapeAllJobs w s)) <= 1)%nat)
     /\ (forall j', In j' (storedJobs (scrapeAllJobs w s)) ->
           In (id j') (map id (storedJobs s)) ->
           exists e, In e (storedJobs s) /\ id e = id j'
                     /\ map_get (existingIndex s) (id j') = Some e
                     /\ first_seen_at j' = first_seen_at e)
     /\ (forall j, In j (fetchNew w (activeSources s) (existingIndex s)) ->
           map_get (existingIndex s) (id j) = None
           /\ ~ In (id j) (map id (storedJobs s))))
  /\ (forall w0 s0 kws s0' s1,
        scrapeBody w0 s0 = (Ok tt, s) ->
        getCvKeywords w0 s0 = (Ok kws, s0') ->
        getCvKeywords w s = (Ok kws, s1) ->
        storageWorks w ->
        jsonLength w0 (preGuard w0 s0 kws) <= STORAGE_WARN_BYTES ->
        jsonLength w (storedJobs s) <= STORAGE_WARN_BYTES ->
        NoDup (map id (storedJobs s)) ->
        fetchNew w (activeSources s) (existingIndex s) = [] ->
        prune (cutoff w) (storedJobs s) = storedJobs s ->
        jobs (scrapeAllJobs w s) = jobs s).
Proof.
  split.
  - intros s' E. rewrite (scrapeAllJobs_ok _ _ _ E).
    apply scrapeBody_ok in E. destruct E as (kws & s1 & _ & ->).
    split; [|split].
    + intros k Hk. eapply Nat.le_trans; [apply persisted_occurrences|].
      apply merged_occurrences. exact Hk.
    + intros j' Hj' Hk. eapply persisted_first_seen; eassumption.
    + intros j Hj. pose proof (fetchNew_absent _ _ _ Hj) as Hn.
      split; [|exact Hn]. apply map_get_None.
      unfold existingIndex. rewrite indexById_keys. exact Hn.
  - intros w0 s0 kws s0' s1 E0 Ekw0 Ekw Hw Hsize0 Hsize Hnd Hnew Hwin.
    apply scrapeBody_ok in E0. destruct E0 as (kws0 & s0'' & Ekw0' & Es).
    rewrite Ekw0 in Ekw0'. inversion Ekw0'; subst kws0 s0''. clear Ekw0'.
    assert (Hjobs : storedJobs s = preGuard w0 s0 kws).
    { rewrite Es. unfold storedJobs, persisted, rankAll, setResult. cbn [jobs fromOption].
      fold (merged w0 s0). fold (preGuard w0 s0 kws).
      apply sizeGuard_silent. exact Hsize0. }
    destruct (preGuard_settled w0 s0 kws) as (Hscore & Hsorted & Hlen).
    rewrite <- Hjobs in Hscore, Hsorted, Hlen.
    destruct (run_completes w s Hw) as (kws' & s1' & Ekw' & _ & E2).
    rewrite Ekw in Ekw'. inversion Ekw'; subst kws' s1'. clear Ekw'.
    rewrite E2. rewrite (settled_run w s kws s1); try assumption.
    rewrite Es at 2. unfold persisted, setResult. cbn [jobs].
    f_equal. rewrite Hjobs. unfold preGuard, rankAll.
    fold (merged w0 s0). symmetry. apply sizeGuard_silent. exact Hsize0.
Qed.

(** ** The properties at work on the concrete world *)

Module Examples.
Import Scenario.

Lemma offline_storage : storageWorks offline.
Proof. intros keys. reflexivity. Qed.

(** acme returns two jobs, beta one, the store starts empty and there is
    neither resume nor credential: after one run the store holds the three
    jobs with score 0, and the shortlist is the three jobs in the order of
    posted_at, latest first. *)
Example first_run_without_resume :
  map (fun j => (title j, score j, posted_at j)) (storedJobs (scrapeAllJobs offline bare))
  = [ ("Rust Developer", 0, Some (today - day));
      ("Designer", 0, Some (today - 2 * day));
      ("Python Engineer", 0, Some (today - 5 * day)) ]
  /\ topJobs (scrapeAllJobs offline bare)
     = Some (map Some (storedJobs (scrapeAllJobs offline bare)))
  /\ jobsLastError (scrapeAllJobs offline bare) = None.
Proof. repeat split. Qed.

Lemma prune_nan_and_boundary_witness :
  ~ In undatedJob (prune (cutoff offline) (storedJobs agedStore))
  /\ ~ In garbledJob (prune (cutoff offline) [garbledJob])
  /\ ~ In edgeJob (prune (cutoff offline) (storedJobs agedStore))
  /\ (forall j, In j (storedJobs (scrapeAllJobs offline agedStore)) ->
        getTime (first_seen_at j) <> NaN
        /\ getTime (first_seen_at j) <> Time (cutoff offline)).
Proof.
  destruct (prune_nan_and_boundary (cutoff offline) (storedJobs agedStore) undatedJob)
    as (Hnan & Hmissing & _).
  destruct (prune_nan_and_boundary (cutoff offline) [garbledJob] garbledJob)
    as (_ & _ & Hgarbled & _).
  destruct (prune_nan_and_boundary (cutoff offline) (storedJobs agedStore) edgeJob)
    as (_ & _ & _ & Hedge & _).
  split; [apply Hmissing; reflexivity|].
  split; [apply (Hgarbled "next week"); reflexivity|].
  split; [apply Hedge; reflexivity|].
  intros j.
  destruct (prune_nan_and_boundary 0 [] j) as (_ & _ & _ & _ & Hrun).
  apply (Hrun offline agedStore (scrapeAllJobs offline agedStore)).
  vm_compute. reflexivity.
Defined.

Lemma pipeline_error_preserves_store_witness :
  jobs (scrapeAllJobs faulty staleStore) = jobs staleStore
  /\ topJobs (scrapeAllJobs faulty staleStore) = topJobs staleStore
  /\ jobsLastUpdated (scrapeAllJobs faulty staleStore) = jobsLastUpdated staleStore
  /\ jobsLastError (scrapeAllJobs faulty staleStore)
     = Some "Extension context invalidated.".
Proof.
  apply (pipeline_error_preserves_store faulty staleStore staleStore).
  vm_compute. reflexivity.
Defined.

Lemma cap_enforcement_witness :
  Z.of_nat (List.length (storedJobs (scrapeAllJobs offline fresh))) <= MAX_JOBS
  /\ exists sorted,
       StronglySorted ranksBefore sorted
       /\ jobs (scrapeAllJobs offline fresh)
          = Some (sizeGuard offline (firstn (Z.to_nat MAX_JOBS) sorted)).
Proof.
  destruct (cap_enforcement offline fresh) as [Hbound Htop].
  split.
  - apply Hbound. apply Installed. reflexivity.
  - destruct (Htop (scrapeAllJobs offline fresh))
      as (kws & s1 & sorted & _ & _ & Hsorted & Hjobs & _).
    + vm_compute. reflexivity.
    + exists sorted. split; assumption.
Defined.

(** The job seen exactly 30 days ago and the job without a date are not
    older than the window, and the run removes them. *)
Lemma prune_retention_counterexample :
  In edgeJob (merged offline agedStore)
  /\ ~ olderThan (first_seen_at edgeJob) (cutoff offline)
  /\ ~ In edgeJob (prune (cutoff offline) (merged offline agedStore))
  /\ ~ In (id edgeJob) (map id (storedJobs (scrapeAllJobs offline agedStore)))
  /\ In undatedJob (merged offline agedStore)
  /\ ~ olderThan (first_seen_at undatedJob) (cutoff offline)
  /\ ~ In undatedJob (prune (cutoff offline) (merged offline agedStore))
  /\ ~ In (id undatedJob) (map id (storedJobs (scrapeAllJobs offline agedStore))).
Proof.
  repeat split.
  - vm_compute. auto.
  - intros (ms & E & H). vm_compute in E. inversion E; subst.
    vm_compute in H. discriminate.
  - intros H. vm_compute in H. intuition discriminate.
  - intros H. vm_compute in H. intuition discriminate.
  - vm_compute. auto.
  - intros (ms & E & H). vm_compute in E. discriminate.
  - intros H. vm_compute in H. intuition discriminate.
  - intros H. vm_compute in H. intuition discriminate.
Qed.

Lemma prune_retention_witness :
  (forall j, In j (storedJobs (scrapeAllJobs offline agedStore)) ->
             ~ olderThan (first_seen_at j) (cutoff offline))
  /\ In insideJob (prune (cutoff offline) (merged offline agedStore))
  /\ exists j', In j' (storedJobs (scrapeAllJobs offline agedStore))
                /\ id j' = id insideJob
                /\ first_seen_at j' = first_seen_at insideJob.
Proof.
  destruct (prune_retention offline agedStore) as (_ & Hgone & Hpruned & Hkept).
  assert (Hrun : scrapeBody offline agedStore
                 = (Ok tt, scrapeAllJobs offline agedStore))
    by (vm_compute; reflexivity).
  split; [|split].
  - intros j. apply (Hgone _ j Hrun).
  - apply Hpruned.
    + vm_compute. auto.
    + vm_compute. reflexivity.
  - apply (Hkept _ insideJob Hrun).
    + vm_compute. auto.
    + vm_compute. reflexivity.
    + vm_compute. discriminate.
Defined.

Lemma board_failure_isolated_witness :
  fetchNew offline (activeSources fresh) (existingIndex fresh)
  = fetchNew offline
             (withBoards Greenhouse ([mkBoard "acme" "Acme"] ++ [])
                         (activeSources fresh))
             (existingIndex fresh)
  /\ (forall j, In j betaJobs ->
        In j (merged offline fresh)
        /\ exists j', In j' (storedJobs (scrapeAllJobs offline fresh))
                      /\ id j' = id j /\ first_seen_at j' = first_seen_at j)
  /\ jobsLastError (scrapeAllJobs offline fresh) = None.
Proof.
  destruct (board_failure_isolated offline fresh Greenhouse
              [mkBoard "acme" "Acme"] [] (mkBoard "down" "Down")
              "Greenhouse down: HTTP 500")
    as (Hskip & Hmerged & _ & Herr).
  - exact offline_storage.
  - reflexivity.
  - vm_compute. reflexivity.
  - split; [exact Hskip|]. split; [|exact Herr].
    intros j Hj.
    destruct (Hmerged Lever (mkBoard "beta" "Beta") betaJobs j) as [Hin Hkept].
    + vm_compute. auto.
    + vm_compute. reflexivity.
    + exact Hj.
    + vm_compute in Hj. destruct Hj as [<-|[]]. vm_compute. reflexivity.
    + split; [exact Hin|]. apply Hkept.
      * vm_compute in Hj. destruct Hj as [<-|[]].
        eexists. split; [reflexivity|]. vm_compute. reflexivity.
      * vm_compute. discriminate.
Defined.

Lemma keyword_extraction_falls_back_witness :
  cvKeywords (scrapeAllJobs offline fresh)
  = Some (extractSmartKeywords "Senior Python and Rust engineer")
  /\ jobsLastError (scrapeAllJobs offline fresh) = None.
Proof.
  destruct (keyword_extraction_falls_back offline fresh
              "Senior Python and Rust engineer")
    as (_ & _ & Hkw & Herr).
  - exact offline_storage.
  - reflexivity.
  - reflexivity.
  - reflexivity.
  - vm_compute. reflexivity.
  - apply ExtractTransport.
  - split; assumption.
Defined.

(** The pool of the first run has three jobs, so that no entry of the
    reply [[500]] is accepted as an index into it. *)
Lemma outOfRange_unusable :
  rankingUnusable outOfRange fresh
    (firstn 100 (storedJobs (scrapeAllJobs outOfRange fresh))).
Proof.
  right. exists "Senior Python and Rust engineer". split; [reflexivity|].
  apply (RankNoValidIndex _ 200 _ [JNum (500 # 1)]); [reflexivity|].
  intros i [<-|[]] (q & E & _ & Hlt). injection E as <-.
  vm_compute in Hlt. discriminate Hlt.
Qed.

Lemma ranking_failure_keeps_keyword_shortlist_witness :
  (jobsLastError (scrapeAllJobs offline fresh) = None
   /\ topJobs (scrapeAllJobs offline fresh)
      = Some (map Some (firstn 5 (storedJobs (scrapeAllJobs offline fresh)))))
  /\ (jobsLastError (scrapeAllJobs outOfRange fresh) = None
      /\ topJobs (scrapeAllJobs outOfRange fresh)
         = Some (map Some (firstn 5 (storedJobs (scrapeAllJobs outOfRange fresh))))).
Proof.
  split.
  - destruct (ranking_failure_keeps_keyword_shortlist offline fresh)
      as (_ & Herr & Htop).
    + exact offline_storage.
    + right. exists "Senior Python and Rust engineer". split; [reflexivity|].
      apply RankTransport.
    + split; assumption.
  - destruct (ranking_failure_keeps_keyword_shortlist outOfRange fresh)
      as (_ & Herr & Htop).
    + intros keys. reflexivity.
    + exact outOfRange_unusable.
    + split; assumption.
Defined.

(** The reply [[1, 500]] holds the invalid index 500; the run completes,
    and the shortlist is the single job of index 1, not the first five
    of the sorted list. *)
Lemma mixed_indices_counterexample :
  validIndex 3 (JNum (500 # 1)) = false
  /\ jobsLastError (scrapeAllJobs mixedIndices fresh) = None
  /\ option_map (@List.length (option Job)) (topJobs (scrapeAllJobs mixedIndices fresh))
     = Some 1%nat
  /\ topJobs (scrapeAllJobs mixedIndices fresh)
     <> Some (map Some (firstn 5 (storedJobs (scrapeAllJobs mixedIndices fresh)))).
Proof.
  repeat split.
  intros H. apply (f_equal (option_map (@List.length (option Job)))) in H.
  vm_compute in H. discriminate.
Qed.

(** C9, at the reply [{"indices": [0.5]}].  The index 0.5 passes the
    filter of aiRankTop5, selects no job, and the run persists a shortlist
    whose single entry is undefined: no element of the persisted jobs. *)
Theorem fractional_index_escapes_filter :
  validIndex 3 (JNum (1 # 2)) = true
  /\ pick (storedJobs (scrapeAllJobs fractionalIndex fresh)) (JNum (1 # 2)) = None
  /\ (exists s', scrapeBody fractionalIndex fresh = (Ok tt, s'))
  /\ List.length (storedJobs (scrapeAllJobs fractionalIndex fresh)) = 3%nat
  /\ topJobs (scrapeAllJobs fractionalIndex fresh) = Some [None]
  /\ jobsLastError (scrapeAllJobs fractionalIndex fresh) = None.
Proof.
  split; [reflexivity|]. split; [reflexivity|]. split.
  - eexists. vm_compute. reflexivity.
  - repeat split.
Qed.

(** The first posting of acme is in the store, seen 31 days ago, and the
    board still lists it: the first run prunes it, the second run fetches
    it as a new job, with a new first_seen_at. *)
Lemma stale_job_readded :
  let s1 := scrapeAllJobs offline staleStore in
  let s2 := scrapeAllJobs offline s1 in
  In staleJob (storedJobs staleStore)
  /\ jobs s2 <> jobs s1
  /\ ~ In (id staleJob) (map id (storedJobs s1))
  /\ exists j, In j (storedJobs s2) /\ id j = id staleJob
               /\ first_seen_at j = DateIso today
               /\ first_seen_at j <> first_seen_at staleJob.
Proof.
  cbv zeta. split; [left; reflexivity|]. split; [|split].
  - intros H.
    apply (f_equal (fun o => List.length (fromOption o))) in H.
    vm_compute in H. discriminate.
  - intros H. vm_compute in H. intuition discriminate.
  - eexists. split; [vm_compute; left; reflexivity|].
    repeat split. vm_compute. discriminate.
Qed.

Lemma dedup_idempotence_witness :
  jobs afterTwo = jobs afterOne
  /\ (forall k, In k (map id (storedJobs afterOne)) ->
                (occurrences k (storedJobs afterTwo) <= 1)%nat)
  /\ (forall j, In j (storedJobs afterTwo) ->
                In (id j) (map id (storedJobs afterOne)) ->
                exists e, In e (storedJobs afterOne) /\ id e = id j
                          /\ map_get (existingIndex afterOne) (id j) = Some e
                          /\ first_seen_at j = first_seen_at e)
  /\ (forall j, In j (fetchNew offline (activeSources afterOne)
                               (existingIndex afterOne)) ->
                map_get (existingIndex afterOne) (id j) = None
                /\ ~ In (id j) (map id (storedJobs afterOne))).
Proof.
  destruct (dedup_idempotence offline afterOne) as [Hrun Hsame].
  split.
  - apply (Hsame offline fresh
                 (extractSmartKeywords "Senior Python and Rust engineer")
                 (snd (getCvKeywords offline fresh))
                 afterOne).
    + vm_compute. reflexivity.
    + vm_compute. reflexivity.
    + vm_compute. reflexivity.
    + exact offline_storage.
    + vm_compute. discriminate.
    + vm_compute. discriminate.
    + vm_compute. repeat constructor; simpl; intuition discriminate.
    + vm_compute. reflexivity.
    + vm_compute. reflexivity.
  - apply (Hrun afterTwo). vm_compute. reflexivity.
Defined.

Lemma insert_last (x : Job) (l : list Job) :
  Forall (fun y => 0 < compareJobs x y) l -> insert compareJobs x l = l ++ [x].
Proof.
  induction 1 as [|y l Hy _ IH]; simpl; [reflexivity|].
  destruct (Z.leb_spec (compareJobs x y) 0); [lia|]. rewrite IH. reflexivity.
Qed.

Lemma crowd_keys (j : Job) :
  In j crowd -> score j = 0 /\ posted_at j = Some today.
Proof.
  unfold crowd. rewrite in_map_iff. intros (n & <- & _). split; reflexivity.
Qed.

Lemma crowd_length : List.length crowd = Z.to_nat MAX_JOBS.
Proof. unfold crowd. rewrite length_map, length_seq. reflexivity. Qed.

Lemma crowd_sorted : StronglySorted ranksBefore crowd.
Proof.
  pose proof crowd_keys as Hk. induction crowd as [|j l IH]; constructor.
  - apply IH. intros x Hx. apply Hk. right. exact Hx.
  - apply Forall_forall. intros x Hx.
    destruct (Hk j (or_introl eq_refl)) as [Hs Hp].
    destruct (Hk x (or_intror Hx)) as [Hs' Hp'].
    unfold ranksBefore, postedTime. rewrite Hs, Hs', Hp, Hp'. lia.
Qed.

(** The scenario of 10,001 jobs before the cap: the 10,000 jobs posted
    today are kept and the one dropped is the lowest-ranked, the job of
    unknown posting date. *)
Example cap_drops_lowest :
  let sorted := sort compareJobs (undatedPosting :: crowd) in
  sorted = crowd ++ [undatedPosting]
  /\ cap sorted = crowd
  /\ Z.of_nat (List.length (cap sorted)) = MAX_JOBS
  /\ skipn (Z.to_nat MAX_JOBS) sorted = [undatedPosting].
Proof.
  cbv zeta.
  assert (Hsorted : sort compareJobs (undatedPosting :: crowd)
                    = crowd ++ [undatedPosting]).
  { rewrite sort_cons, (sort_fixed crowd crowd_sorted). apply insert_last.
    apply Forall_forall. intros j Hj. destruct (crowd_keys j Hj) as [Hs Hp].
    unfold compareJobs, postedTime. rewrite Hs, Hp. reflexivity. }
  assert (Hcap : cap (crowd ++ [undatedPosting]) = crowd).
  { rewrite cap_firstn, <- crowd_length.
    rewrite <- (Nat.add_0_r (List.length crowd)), firstn_app_2.
    apply app_nil_r. }
  rewrite Hsorted, Hcap. split; [reflexivity|]. split; [reflexivity|]. split.
  - rewrite crowd_length. reflexivity.
  - rewrite <- crowd_length, skipn_app, skipn_all, Nat.sub_diag. reflexivity.
Qed.

End Examples.

(** * The utilities *)

(** ** Strings *)

Lemma append_assoc_s (a b c : string) : ((a ++ b) ++ c = a ++ (b ++ c))%string.
Proof. induction a as [|x a IH]; simpl; [reflexivity|]. now rewrite IH. Qed.

Lemma append_empty_r (a : string) : (a ++ "" = a)%string.
Proof. induction a as [|x a IH]; simpl; [reflexivity|]. now rewrite IH. Qed.

Lemma length_append (a b : string) :
  String.length (a ++ b) = (String.length a + String.length b)%nat.
Proof. induction a as [|x a IH]; simpl; [reflexivity|]. now rewrite IH. Qed.

Lemma prefix_append (k rest : string) : String.prefix k (k ++ rest) = true.
Proof.
  induction k as [|c k IH]; simpl.
  - destruct rest; reflexivity.
  - destruct (ascii_dec c c) as [_|N]; [exact IH|congruence].
Qed.

Lemma prefix_occurs (k s : string) :
  String.prefix k s = true -> exists rest, s = (k ++ rest)%string.
Proof.
  revert s. induction k as [|c k IH]; intros s H.
  - exists s. reflexivity.
  - destruct s as [|d s]; simpl in H; [discriminate|].
    destruct (ascii_dec c d) as [E|N]; [|discriminate]. subst d.
    destruct (IH s H) as [rest ->]. exists rest. reflexivity.
Qed.

(** [includes] finds exactly the substrings. *)
Lemma includes_occurs (s k : string) :
  includes s k = true <-> exists a b, s = (a ++ k ++ b)%string.
Proof.
  split.
  - induction s as [|c s IH]; cbn [includes]; intros H.
    + rewrite orb_false_r in H. destruct (prefix_occurs _ _ H) as [b E].
      exists "", b. exact E.
    + apply orb_true_iff in H. destruct H as [H|H].
      * destruct (prefix_occurs _ _ H) as [b E]. exists "", b. exact E.
      * destruct (IH H) as (a & b & E). exists (String c a), b. simpl. now rewrite E.
  - intros (a & b & ->). induction a as [|c a IH].
    + change ("" ++ k ++ b)%string with (k ++ b)%string.
      destruct (k ++ b)%string eqn:E; cbn [includes]; rewrite <- E, prefix_append;
        reflexivity.
    + change (String c a ++ k ++ b)%string with (String c (a ++ k ++ b)).
      cbn [includes]. rewrite IH. apply orb_true_r.
Qed.

Lemma includes_trans (s t k : string) :
  includes s t = true -> includes t k = true -> includes s k = true.
Proof.
  rewrite !includes_occurs. intros (a & b & ->) (a' & b' & ->).
  exists (a ++ a')%string, (b' ++ b)%string.
  now rewrite !append_assoc_s.
Qed.

Lemma string_forall_append (p : ascii -> bool) (a b : string) :
  string_forall p (a ++ b) = string_forall p a && string_forall p b.
Proof.
  induction a as [|c a IH]; simpl; [reflexivity|]. now rewrite IH, andb_assoc.
Qed.

Lemma string_forall_impl (p q : ascii -> bool) (s : string) :
  (forall c, p c = true -> q c = true) ->
  string_forall p s = true -> string_forall q s = true.
Proof.
  intros Hpq. induction s as [|c s IH]; simpl; [reflexivity|].
  intros H. apply andb_true_iff in H. destruct H as [Hc Hs].
  now rewrite (Hpq _ Hc), (IH Hs).
Qed.

Lemma string_forall_and (p q : ascii -> bool) (s : string) :
  string_forall (fun c => p c && q c) s = string_forall p s && string_forall q s.
Proof.
  induction s as [|c s IH]; simpl; [reflexivity|]. rewrite IH.
  destruct (p c), (q c), (string_forall p s); reflexivity.
Qed.

Lemma toLowerCase_fixed (s : string) :
  string_forall (fun c => Ascii.eqb (lower_ascii c) c) (toLowerCase s) = true.
Proof.
  induction s as [|c s IH]; simpl; [reflexivity|].
  now rewrite lower_ascii_idem, Ascii.eqb_refl, IH.
Qed.

Lemma fixed_lowercase (s : string) :
  string_forall (fun c => Ascii.eqb (lower_ascii c) c) s = true -> lowercase s.
Proof.
  unfold lowercase. induction s as [|c s IH]; simpl; [reflexivity|].
  intros H. apply andb_true_iff in H. destruct H as [Hc Hs].
  apply Ascii.eqb_eq in Hc. now rewrite Hc, (IH Hs).
Qed.

(** ** tokenize and keywordSet *)

Lemma flush_In (cur t : string) : In t (flush cur) -> t = cur /\ cur <> "".
Proof.
  unfold flush. destruct (String.eqb_spec cur ""); simpl; [tauto|].
  intros [E|[]]. now subst.
Qed.

Lemma runs_from_occurs (s cur t : string) :
  In t (runs_from cur s) -> exists a b, (cur ++ s = a ++ t ++ b)%string.
Proof.
  revert cur. induction s as [|c s IH]; intros cur; simpl.
  - intros H. apply flush_In in H. destruct H as [-> _].
    exists "", "". simpl. reflexivity.
  - destruct (is_token_char c).
    + intros H. destruct (IH _ H) as (a & b & E). exists a, b.
      rewrite <- E, append_assoc_s. reflexivity.
    + intros H. apply in_app_or in H. destruct H as [H|H].
      * apply flush_In in H. destruct H as [-> _]. exists "", (String c s).
        reflexivity.
      * destruct (IH _ H) as (a & b & E). simpl in E.
        exists (cur ++ String c a)%string, b.
        rewrite append_assoc_s. simpl. now rewrite E.
Qed.

Lemma runs_from_chars (q : ascii -> bool) (s cur t : string) :
  string_forall (fun c => is_token_char c && q c) cur = true ->
  string_forall q s = true ->
  In t (runs_from cur s) ->
  string_forall (fun c => is_token_char c && q c) t = true.
Proof.
  revert cur. induction s as [|c s IH]; intros cur Hcur Hs; simpl.
  - intros H. apply flush_In in H. destruct H as [-> _]. exact Hcur.
  - simpl in Hs. apply andb_true_iff in Hs. destruct Hs as [Hc Hs].
    destruct (is_token_char c) eqn:Ec.
    + apply IH; [|exact Hs]. rewrite string_forall_append, Hcur. simpl.
      now rewrite Ec, Hc.
    + intros H. apply in_app_or in H. destruct H as [H|H].
      * apply flush_In in H. destruct H as [-> _]. exact Hcur.
      * apply (IH ""); [reflexivity|exact Hs|exact H].
Qed.

(** X1. A token that tokenize returns is longer than two characters, is
    made of the characters of the token class only, is in lower case, and
    occurs in the text put in lower case. *)
Theorem tokenize_tokens (text t : string) :
  In t (tokenize text) ->
  (2 < String.length t)%nat
  /\ string_forall is_token_char t = true
  /\ lowercase t
  /\ includes (toLowerCase text) t = true.
Proof.
  unfold tokenize. intros H. apply filter_In in H. destruct H as [H Hlen].
  assert (Hc := runs_from_chars (fun c => Ascii.eqb (lower_ascii c) c)
                  (toLowerCase text) "" t eq_refl (toLowerCase_fixed text) H).
  rewrite string_forall_and in Hc. apply andb_true_iff in Hc.
  destruct Hc as [Htok Hlow].
  repeat split.
  - apply Nat.ltb_lt. exact Hlen.
  - exact Htok.
  - apply fixed_lowercase. exact Hlow.
  - apply includes_occurs. destruct (runs_from_occurs _ _ _ H) as (a & b & E).
    exists a, b. exact E.
Qed.

Lemma mem_In (k : string) (l : list string) : mem k l = true <-> In k l.
Proof.
  unfold mem. rewrite existsb_exists. split.
  - intros (x & Hx & E). apply String.eqb_eq in E. now subst.
  - intros H. exists k. split; [exact H|apply String.eqb_refl].
Qed.

Lemma set_add_In (acc : list string) (x k : string) :
  In k (set_add acc x) <-> In k acc \/ k = x.
Proof.
  unfold set_add. destruct (mem x acc) eqn:E.
  - apply mem_In in E. split; [tauto|]. intros [H| ->]; assumption.
  - rewrite in_app_iff. simpl. intuition.
Qed.

Lemma set_add_NoDup (acc : list string) (x : string) :
  NoDup acc -> NoDup (set_add acc x).
Proof.
  intros H. unfold set_add. destruct (mem x acc) eqn:E; [exact H|].
  assert (N : ~ In x acc) by (rewrite <- mem_In, E; discriminate).
  clear E. induction H as [|y l Hy Hl IH]; simpl.
  - constructor; [intros []|constructor].
  - constructor.
    + rewrite in_app_iff. simpl. intros [H|[H|[]]]; [tauto|].
      subst. apply N. now left.
    + apply IH. intros H. apply N. now right.
Qed.

Lemma add_all_In (l acc : list string) (k : string) :
  In k (fold_left set_add l acc) <-> In k acc \/ In k l.
Proof.
  revert acc. induction l as [|x l IH]; intros acc; simpl; [tauto|].
  rewrite IH, set_add_In. intuition (subst; auto).
Qed.

Lemma add_all_NoDup (l acc : list string) :
  NoDup acc -> NoDup (fold_left set_add l acc).
Proof.
  revert acc. induction l as [|x l IH]; intros acc H; simpl; [exact H|].
  apply IH, set_add_NoDup, H.
Qed.

Lemma keywordSet_from (texts : list string) (acc : list string) :
  let out := fold_left (fun keywords text =>
                          fold_left set_add (tokenize text) keywords) texts acc in
  (NoDup acc -> NoDup out)
  /\ forall k, In k out <->
               In k acc \/ exists text, In text texts /\ In k (tokenize text).
Proof.
  revert acc. induction texts as [|text texts IH]; intros acc; simpl.
  - split; [auto|]. intros k. split; [auto|]. intros [H|(t & [] & _)]. exact H.
  - destruct (IH (fold_left set_add (tokenize text) acc)) as [IHn IHi].
    split.
    + intros H. apply IHn, add_all_NoDup, H.
    + intros k. rewrite IHi, add_all_In. split.
      * intros [[H|H]|(t & Ht & Hk)]; eauto.
      * intros [H|(t & [E|Ht] & Hk)]; subst; eauto.
Qed.

(** X2. keywordSet returns each token of each text once: the set has no
    repetition, and its members are exactly the tokens of the texts. *)
Theorem keywordSet_tokens (texts : list string) :
  NoDup (keywordSet texts)
  /\ forall k, In k (keywordSet texts) <->
               exists text, In text texts /\ In k (tokenize text).
Proof.
  destruct (keywordSet_from texts []) as [Hn Hi]. split.
  - apply Hn. constructor.
  - intros k. rewrite (Hi k). simpl. tauto.
Qed.

(** X3. A text scored against the keyword set of texts that it quotes
    scores 100 with every keyword matched, whatever the case in which it
    quotes them. *)
Theorem quoted_texts_score_100 (texts : list string) (jobText : string) :
  keywordSet texts <> [] ->
  (forall text, In text texts ->
                includes (toLowerCase jobText) (toLowerCase text) = true) ->
  scoreJob jobText (keywordSet texts)
  = (100, Z.of_nat (List.length (keywordSet texts))).
Proof.
  intros Hne Hq. unfold scoreJob.
  destruct (Z.eqb_spec (Z.of_nat (List.length (keywordSet texts))) 0) as [E|E].
  - destruct (keywordSet texts); [congruence|discriminate E].
  - rewrite count_matched_all.
    + rewrite js_percent_full by lia. reflexivity.
    + apply Forall_forall. intros k Hk.
      destruct (keywordSet_from texts []) as [_ Hi].
      apply Hi in Hk. destruct Hk as [[]|(text & Ht & Hk)].
      apply includes_trans with (t := toLowerCase text); [apply Hq, Ht|].
      apply includes_occurs. unfold tokenize in Hk. apply filter_In in Hk.
      destruct (runs_from_occurs _ _ _ (proj1 Hk)) as (a & b & E').
      exists a, b. exact E'.
Qed.

(** ** extractGoogleDocId *)

Lemma drop_append (a b : string) : drop (String.length a) (a ++ b) = b.
Proof. induction a as [|c a IH]; simpl; [destruct b; reflexivity|exact IH]. Qed.

Lemma take_id_chars (s : string) : string_forall is_id_char (take_id s) = true.
Proof.
  induction s as [|c s IH]; simpl; [reflexivity|].
  destruct (is_id_char c) eqn:E; simpl; [now rewrite E|reflexivity].
Qed.

Lemma take_id_prefix (s : string) : exists rest, s = (take_id s ++ rest)%string.
Proof.
  induction s as [|c s [rest IH]]; simpl.
  - exists "". reflexivity.
  - destruct (is_id_char c).
    + exists rest. simpl. now rewrite <- IH.
    + exists (String c s). reflexivity.
Qed.

Lemma take_id_append (id rest : string) :
  string_forall is_id_char id = true -> idEnds rest ->
  take_id (id ++ rest) = id.
Proof.
  intros Hid Hrest. induction id as [|c id IH]; simpl in *.
  - destruct rest as [|d rest]; simpl; [reflexivity|].
    unfold idEnds in Hrest. simpl in Hrest. now rewrite Hrest.
  - apply andb_true_iff in Hid. destruct Hid as [Hc Hid].
    now rewrite Hc, (IH Hid).
Qed.

Lemma extractGoogleDocId_step (link : string) :
  extractGoogleDocId link
  = let here := if String.prefix docPrefix link
                then take_id (drop (String.length docPrefix) link) else "" in
    if negb (String.eqb here "") then Some here
    else match link with
         | EmptyString => None
         | String _ link' => extractGoogleDocId link'
         end.
Proof. destruct link; reflexivity. Qed.

(** X4. The id that extractGoogleDocId returns is not empty, is made of
    id characters, and follows the literal of the pattern in the link. *)
Theorem extractGoogleDocId_sound (link docId : string) :
  extractGoogleDocId link = Some docId ->
  docId <> ""
  /\ string_forall is_id_char docId = true
  /\ includes link (docPrefix ++ docId) = true.
Proof.
  induction link as [|c link IH]; rewrite extractGoogleDocId_step; cbv zeta.
  - simpl. discriminate.
  - destruct (String.prefix docPrefix (String c link)) eqn:Ep.
    + destruct (String.eqb_spec
                  (take_id (drop (String.length docPrefix) (String c link))) "")
        as [E|E]; cbn [negb].
      * intros H. destruct (IH H) as (H1 & H2 & H3). repeat split; trivial.
        cbn [includes]. rewrite H3. apply orb_true_r.
      * intros H.
        assert (Ed : docId
                     = take_id (drop (String.length docPrefix) (String c link)))
          by congruence.
        clear H. rewrite Ed. split; [exact E|].
        split; [apply take_id_chars|].
        apply includes_occurs. destruct (prefix_occurs _ _ Ep) as [rest Er].
        rewrite Er, drop_append.
        destruct (take_id_prefix rest) as [rest' Er'].
        exists "", rest'.
        change ("" ++ (docPrefix ++ take_id rest) ++ rest')%string
          with ((docPrefix ++ take_id rest) ++ rest')%string.
        rewrite append_assoc_s, <- Er'. reflexivity.
    + cbn [String.eqb negb]. intros H.
      destruct (IH H) as (H1 & H2 & H3). repeat split; trivial.
      cbn [includes]. rewrite H3. apply orb_true_r.
Qed.

Lemma docPrefix_first (c : ascii) (s : string) :
  Ascii.eqb c "d" = false -> String.prefix docPrefix (String c s) = false.
Proof.
  intros H. unfold docPrefix. cbn [String.prefix].
  destruct (ascii_dec "d" c) as [E|_]; [|reflexivity].
  subst c. discriminate H.
Qed.

(** X5. A link in which the literal of the pattern is followed by an id
    and then by the end of the link or by another character, and is not
    preceded by a letter d, gives that id; and the document downloaded for
    the link is the one exported under the id. *)
Theorem extractGoogleDocId_finds (before docId rest : string) :
  string_forall (fun c => negb (Ascii.eqb c "d")) before = true ->
  docId <> "" ->
  string_forall is_id_char docId = true ->
  idEnds rest ->
  let link := (before ++ docPrefix ++ docId ++ rest)%string in
  extractGoogleDocId link = Some docId
  /\ forall w call,
       fetchGoogleDocTextBg w call link
       = match docExport w call docId with
         | Transport msg => Throw msg
         | Http status body =>
             if ok status then
               match body with
               | Some text => Ok text
               | None => Throw "body stream already read"
               end
             else Throw ("Doc export HTTP " ++ show status)
         end.
Proof.
  intros Hb Hne Hid Hrest link.
  assert (E : extractGoogleDocId link = Some docId).
  { subst link. induction before as [|c before IH].
    - change ("" ++ docPrefix ++ docId ++ rest)%string
        with (docPrefix ++ docId ++ rest)%string.
      rewrite extractGoogleDocId_step. cbv zeta.
      rewrite prefix_append, drop_append, take_id_append by assumption.
      destruct (String.eqb_spec docId ""); [contradiction|reflexivity].
    - simpl in Hb. apply andb_true_iff in Hb. destruct Hb as [Hc Hb].
      apply negb_true_iff in Hc.
      change (String c before ++ docPrefix ++ docId ++ rest)%string
        with (String c (before ++ docPrefix ++ docId ++ rest)).
      rewrite extractGoogleDocId_step. cbv zeta.
      rewrite docPrefix_first by exact Hc. cbn [String.eqb negb].
      apply IH, Hb. }
  split; [exact E|]. intros w call. unfold fetchGoogleDocTextBg. rewrite E.
  destruct (docExport w call docId) as [msg|status body]; [reflexivity|].
  destruct (ok status); reflexivity.
Qed.

(** ** stripTags and the descriptions of the fetchers *)


Lemma has_gt_no_tag (s : string) : has_gt s = false -> has_tag s = false.
Proof.
  induction s as [|c s IH]; simpl; [reflexivity|].
  intros H. apply orb_false_iff in H. destruct H as [_ H].
  now rewrite H, (IH H), andb_false_r.
Qed.

Lemma stripTagsFrom_no_tag (s : string) (in_tag : bool) :
  has_tag (stripTagsFrom in_tag s) = false.
Proof.
  revert in_tag. induction s as [|c s IH]; intros in_tag; [reflexivity|].
  cbn [stripTagsFrom]. destruct in_tag.
  - destruct (Ascii.eqb c ">"); apply IH.
  - destruct (Ascii.eqb c "<") eqn:Ec.
    + destruct (has_gt s) eqn:Eg.
      * cbn [has_tag]. rewrite IH. reflexivity.
      * cbn [has_tag]. now rewrite Eg, (has_gt_no_tag _ Eg), andb_false_r.
    + cbn [has_tag]. now rewrite Ec, IH.
Qed.

Lemma stripTags_fixed (s : string) : has_tag s = false -> stripTags s = s.
Proof.
  unfold stripTags. induction s as [|c s IH]; [reflexivity|].
  cbn [has_tag stripTagsFrom]. intros H. apply orb_false_iff in H.
  destruct H as [H1 H2]. destruct (Ascii.eqb c "<").
  - simpl in H1. now rewrite H1.
  - now rewrite (IH H2).
Qed.

Lemma stripTagsFrom_length (s : string) (in_tag : bool) :
  (String.length (stripTagsFrom in_tag s) <= String.length s)%nat.
Proof.
  revert in_tag. induction s as [|c s IH]; intros in_tag; [simpl; lia|].
  cbn [stripTagsFrom]. destruct in_tag.
  - destruct (Ascii.eqb c ">"); simpl; [specialize (IH false)|specialize (IH true)]; lia.
  - destruct (Ascii.eqb c "<").
    + destruct (has_gt s); simpl; [specialize (IH true)|]; lia.
    + simpl. specialize (IH false). lia.
Qed.

(** X6. What stripTags returns holds no opening bracket with a closing
    bracket after it; stripping it again changes nothing; it is not longer
    than the text; and a text without such a pair is returned as it is. *)
Theorem stripTags_clean (s : string) :
  has_tag (stripTags s) = false
  /\ stripTags (stripTags s) = stripTags s
  /\ (String.length (stripTags s) <= String.length s)%nat
  /\ (has_tag s = false -> stripTags s = s).
Proof.
  split; [apply stripTagsFrom_no_tag|].
  split; [apply stripTags_fixed, stripTagsFrom_no_tag|].
  split; [apply stripTagsFrom_length|apply stripTags_fixed].
Qed.

Lemma slice0_cons (n : nat) (c : ascii) (s : string) :
  slice0 (S n) (String c s) = String c (slice0 n s).
Proof. reflexivity. Qed.

Lemma slice0_zero (s : string) : slice0 0 s = "".
Proof. destruct s; reflexivity. Qed.

Lemma slice0_length (n : nat) (s : string) :
  (String.length (slice0 n s) <= n)%nat.
Proof.
  revert s. induction n as [|n IH]; intros s.
  - rewrite slice0_zero. simpl. lia.
  - destruct s as [|c s]; [simpl; lia|]. rewrite slice0_cons. simpl.
    specialize (IH s). lia.
Qed.

Lemma slice0_has_gt (n : nat) (s : string) :
  has_gt s = false -> has_gt (slice0 n s) = false.
Proof.
  revert s. induction n as [|n IH]; intros s H.
  - now rewrite slice0_zero.
  - destruct s as [|c s]; [reflexivity|]. rewrite slice0_cons.
    simpl in *. apply orb_false_iff in H. destruct H as [H1 H2].
    now rewrite H1, (IH _ H2).
Qed.

Lemma slice0_no_tag (n : nat) (s : string) :
  has_tag s = false -> has_tag (slice0 n s) = false.
Proof.
  revert s. induction n as [|n IH]; intros s H.
  - now rewrite slice0_zero.
  - destruct s as [|c s]; [reflexivity|]. rewrite slice0_cons.
    cbn [has_tag] in *. apply orb_false_iff in H. destruct H as [H1 H2].
    rewrite (IH _ H2), orb_false_r.
    destruct (Ascii.eqb c "<"); [|reflexivity]. simpl in *.
    apply slice0_has_gt, H1.
Qed.


(** ** safeFilename *)

Lemma underscoreRuns_chars (s : string) (in_run : bool) :
  string_forall is_name_char (underscoreRuns in_run s) = true.
Proof.
  revert in_run. induction s as [|c s IH]; intros in_run; [reflexivity|].
  cbn [underscoreRuns]. destruct (is_alnum c) eqn:Ec.
  - cbn [string_forall]. unfold is_name_char at 1. now rewrite Ec, IH.
  - destruct in_run; [apply IH|]. cbn [string_forall]. now rewrite IH.
Qed.

Lemma dropUnderscores_chars (p : ascii -> bool) (s : string) :
  string_forall p s = true -> string_forall p (dropUnderscores s) = true.
Proof.
  induction s as [|c s IH]; [reflexivity|]. cbn [dropUnderscores].
  destruct (Ascii.eqb c "_"); [|trivial].
  simpl. intros H. apply andb_true_iff in H. apply IH, H.
Qed.

Lemma rev_string_chars (p : ascii -> bool) (s acc : string) :
  string_forall p (rev_string acc s) = string_forall p acc && string_forall p s.
Proof.
  revert acc. induction s as [|c s IH]; intros acc; simpl.
  - now rewrite andb_true_r.
  - rewrite IH. simpl. destruct (p c), (string_forall p acc); reflexivity.
Qed.

Lemma dropUnderscores_first (s : string) :
  first_char (dropUnderscores s) <> Some "_"%char.
Proof.
  induction s as [|c s IH]; [discriminate|]. cbn [dropUnderscores].
  destruct (Ascii.eqb c "_") eqn:E; [exact IH|].
  simpl. intros H. injection H as ->. discriminate E.
Qed.

Lemma last_char_none (s : string) : last_char s = None -> s = "".
Proof.
  induction s as [|c s IH]; [reflexivity|]. simpl.
  destruct s; [discriminate|]. intros H. specialize (IH H). discriminate IH.
Qed.

Lemma last_char_cons (c : ascii) (s : string) :
  last_char (String c s) = match last_char s with Some d => Some d | None => Some c end.
Proof.
  destruct s as [|d s]; [reflexivity|].
  change (last_char (String c (String d s))) with (last_char (String d s)).
  destruct (last_char (String d s)) eqn:E; [reflexivity|].
  apply last_char_none in E. discriminate E.
Qed.

Lemma dropUnderscores_last (s : string) :
  last_char (dropUnderscores s) = None
  \/ last_char (dropUnderscores s) = last_char s.
Proof.
  induction s as [|c s IH]; [left; reflexivity|]. cbn [dropUnderscores].
  destruct (Ascii.eqb c "_"); [|right; reflexivity].
  destruct IH as [IH|IH]; [left; exact IH|].
  rewrite last_char_cons, IH.
  destruct (last_char s) eqn:E; [right; reflexivity|left; reflexivity].
Qed.

Lemma rev_string_last (s acc : string) :
  last_char (rev_string acc s)
  = match last_char acc with Some c => Some c | None => first_char s end.
Proof.
  revert acc. induction s as [|c s IH]; intros acc; cbn [rev_string first_char].
  - destruct (last_char acc); reflexivity.
  - rewrite IH, last_char_cons. destruct (last_char acc); reflexivity.
Qed.

Lemma rev_string_first (s acc : string) :
  first_char (rev_string acc s)
  = match last_char s with Some c => Some c | None => first_char acc end.
Proof.
  revert acc. induction s as [|c s IH]; intros acc; cbn [rev_string].
  - reflexivity.
  - rewrite IH, last_char_cons. destruct (last_char s); reflexivity.
Qed.

Lemma stripUnderscores_ends (s : string) :
  first_char (stripUnderscores s) <> Some "_"%char
  /\ last_char (stripUnderscores s) <> Some "_"%char.
Proof.
  unfold stripUnderscores.
  set (y := dropUnderscores s).
  assert (Hy : first_char y <> Some "_"%char) by apply dropUnderscores_first.
  assert (Hr : last_char (rev_string "" y) <> Some "_"%char).
  { rewrite rev_string_last. exact Hy. }
  split.
  - rewrite rev_string_first. cbn [first_char].
    destruct (dropUnderscores_last (rev_string "" y)) as [E|E]; rewrite E.
    + discriminate.
    + destruct (last_char (rev_string "" y)); [exact Hr|discriminate].
  - rewrite rev_string_last. cbn [last_char]. apply dropUnderscores_first.
Qed.

(** X7. The name that safeFilename returns is not empty, is made of
    letters, digits and underscores, and neither starts nor ends with an
    underscore. *)
Theorem safeFilename_safe (value : option string) :
  safeFilename value <> ""
  /\ string_forall is_name_char (safeFilename value) = true
  /\ first_char (safeFilename value) <> Some "_"%char
  /\ last_char (safeFilename value) <> Some "_"%char.
Proof.
  unfold safeFilename. cbv zeta.
  set (cleaned := underscoreRuns false (trim (orElse value ""))).
  change (orElse (Some (stripUnderscores cleaned)) "Candidate")
    with (if String.eqb (stripUnderscores cleaned) "" then "Candidate"
          else stripUnderscores cleaned).
  destruct (String.eqb_spec (stripUnderscores cleaned) "") as [E|E].
  - split; [discriminate|]. split; [reflexivity|]. split; discriminate.
  - split; [exact E|]. split; [|apply stripUnderscores_ends].
    unfold stripUnderscores. rewrite rev_string_chars. cbn [string_forall andb].
    apply dropUnderscores_chars. rewrite rev_string_chars. cbn [string_forall andb].
    apply dropUnderscores_chars, underscoreRuns_chars.
Qed.

(** ** The digest in hexadecimal *)

Lemma byte_hex (b : Byte.byte) :
  match padStart 2 "0" (toString16 b) with
  | String hi (String lo EmptyString) =>
      is_hex hi = true /\ is_hex lo = true
      /\ Byte.of_N (16 * hexValue hi + hexValue lo) = Some b
  | _ => False
  end.
Proof. destruct b; vm_compute; repeat split. Qed.

Lemma concat_cons (x : string) (xs : list string) :
  String.concat "" (x :: xs) = (x ++ String.concat "" xs)%string.
Proof.
  destruct xs as [|y ys]; cbn [String.concat].
  - now rewrite append_empty_r.
  - reflexivity.
Qed.

Lemma hexOfBytes_decodes (hash : list Byte.byte) :
  String.length (hexOfBytes hash) = (2 * List.length hash)%nat
  /\ string_forall is_hex (hexOfBytes hash) = true
  /\ bytesOfHex (hexOfBytes hash) = hash.
Proof.
  unfold hexOfBytes. induction hash as [|b hash (IH1 & IH2 & IH3)].
  - repeat split.
  - cbn [map]. rewrite concat_cons.
    pose proof (byte_hex b) as H.
    destruct (padStart 2 "0" (toString16 b)) as [|hi [|lo [|]]]; try contradiction.
    destruct H as (Hhi & Hlo & Hb).
    cbn [String.append String.length string_forall bytesOfHex].
    rewrite IH1, IH2, IH3, Hhi, Hlo, Hb. repeat split. cbn [List.length]. lia.
Qed.

(** X8. The hexadecimal form of a digest has two characters for each
    byte, all of them lower-case hexadecimal digits, and denotes the bytes
    it was made from; so two strings have the same hexadecimal digest only
    when they have the same digest. *)
Theorem sha1Hex_faithful (digest : string -> list Byte.byte) (str : string) :
  String.length (sha1Hex digest str) = (2 * List.length (digest str))%nat
  /\ string_forall is_hex (sha1Hex digest str) = true
  /\ bytesOfHex (sha1Hex digest str) = digest str
  /\ forall other, sha1Hex digest other = sha1Hex digest str ->
                   digest other = digest str.
Proof.
  unfold sha1Hex.
  destruct (hexOfBytes_decodes (digest str)) as (H1 & H2 & H3).
  split; [exact H1|]. split; [exact H2|]. split; [exact H3|].
  intros other E.
  destruct (hexOfBytes_decodes (digest other)) as (_ & _ & H3').
  rewrite <- H3', E. exact H3.
Qed.

(** ** escapeHtml *)

Lemma escapeChar_safe (c : ascii) :
  string_forall (fun d => negb (is_markup d) || Ascii.eqb d "&") (escapeChar c) = true.
Proof. destruct c as [[] [] [] [] [] [] [] []]; vm_compute; reflexivity. Qed.

Lemma escapeChar_plain (c : ascii) :
  is_markup c = false -> escapeChar c = String c "".
Proof. destruct c as [[] [] [] [] [] [] [] []]; vm_compute; congruence. Qed.

(** X9. What escapeHtml returns holds no angle bracket and no quote, and
    a text without the five replaced characters is returned as it is. *)
Theorem escapeHtml_safe (text : option string) :
  string_forall (fun d => negb (is_markup d) || Ascii.eqb d "&") (escapeHtml text) = true
  /\ forall s, text = Some s -> string_forall (fun c => negb (is_markup c)) s = true -> escapeHtml text = s.
Proof.
  split.
  - destruct text as [s|]; [|reflexivity]. simpl.
    induction s as [|c s IH]; [reflexivity|]. cbn [escapeText].
    now rewrite string_forall_append, escapeChar_safe, IH.
  - intros s -> H. simpl. induction s as [|c s IH]; [reflexivity|].
    cbn [escapeText string_forall] in *. apply andb_true_iff in H.
    destruct H as [Hc Hs]. apply negb_true_iff in Hc.
    rewrite (escapeChar_plain _ Hc), (IH Hs). reflexivity.
Qed.

(** ** The jobs that the fetchers build *)

Lemma description_clean (text : string) :
  let desc := slice0 (Z.to_nat DESC_TRUNCATE) (stripTags text) in
  (String.length desc <= Z.to_nat DESC_TRUNCATE)%nat /\ has_tag desc = false.
Proof.
  split; [apply slice0_length|]. apply slice0_no_tag, stripTagsFrom_no_tag.
Qed.

Lemma normalizeGreenhouse_normalised (w : World) (board : string) (i : nat)
      (posting : GhPosting) (j : Job) :
  normalizeGreenhouse w board i posting = Ok j -> normalised Greenhouse board j.
Proof.
  unfold normalizeGreenhouse. destruct (toISOString _) as [posted|m]; [|discriminate].
  intros E. apply Ok_inj in E. subst j. unfold normalised.
  cbn [source company score description first_seen_at].
  destruct (description_clean (orElse (gh_content posting) "")) as [H1 H2].
  repeat split; eauto.
Qed.

Lemma normalizeLever_normalised (w : World) (board : string) (i : nat)
      (posting : LvPosting) (j : Job) :
  normalizeLever w board i posting = Ok j -> normalised Lever board j.
Proof.
  unfold normalizeLever. destruct (toISOString _) as [posted|m]; [|discriminate].
  intros E. apply Ok_inj in E. subst j. unfold normalised.
  cbn [source company score description first_seen_at].
  destruct (description_clean
              (orElse (lv_descriptionPlain posting)
                      (orElse (lv_description posting) ""))) as [H1 H2].
  repeat split; eauto.
Qed.

Lemma fetchJobs_normalised (w : World) (p : provider) (board : string)
      (fetched : list Job) :
  fetchJobs w p board = Ok fetched -> Forall (normalised p board) fetched.
Proof.
  destruct p; simpl; unfold fetchGreenhouseJobs, fetchLeverJobs.
  - destruct (greenhouseApi w board) as [m|st [postings|]]; try discriminate;
      destruct (negb (ok st)); try discriminate.
    apply traverse_from_Forall. apply normalizeGreenhouse_normalised.
  - destruct (leverApi w board) as [m|st [postings|]]; try discriminate;
      destruct (negb (ok st)); try discriminate.
    apply traverse_from_Forall. apply normalizeLever_normalised.
Qed.

(** X10. Every job that a fetcher returns for a board carries the
    provider and the board as source and company, the score 0, a
    description of at most DESC_TRUNCATE characters without a complete
    tag, and a first-seen date that parses; and its id is the digest of its
    provider, board and URL. *)
Theorem fetched_jobs_normalised (w : World) (p : provider) (board : string)
        (fetched : list Job) :
  fetchJobs w p board = Ok fetched ->
  Forall (fun j => normalised p board j /\ identified w p board j) fetched.
Proof.
  intros E. pose proof (fetchJobs_normalised _ _ _ _ E) as Hn.
  rewrite Forall_forall in *. intros j Hj. split; [apply Hn, Hj|].
  revert E j Hj. rewrite <- Forall_forall.
  destruct p; simpl; unfold fetchGreenhouseJobs, fetchLeverJobs.
  - destruct (greenhouseApi w board) as [m|st [postings|]]; try discriminate;
      destruct (negb (ok st)); try discriminate.
    apply traverse_from_Forall. intros n posting j. unfold normalizeGreenhouse.
    destruct (toISOString _); [|discriminate].
    intros E. apply Ok_inj in E. subst j. reflexivity.
  - destruct (leverApi w board) as [m|st [postings|]]; try discriminate;
      destruct (negb (ok st)); try discriminate.
    apply traverse_from_Forall. intros n posting j. unfold normalizeLever.
    destruct (toISOString _); [|discriminate].
    intros E. apply Ok_inj in E. subst j. reflexivity.
Qed.

Lemma traverse_from_throws {A B} (f : nat -> A -> Outcome B) (msg : string)
      (l : list A) (i : nat) :
  (forall n x m, f n x = Throw m -> m = msg) ->
  Exists (fun x => forall n, f n x = Throw msg) l ->
  traverse_from f i l = Throw msg.
Proof.
  intros Hm H. revert i. induction H as [x l Hx|x l _ IH]; intros i; simpl.
  - now rewrite Hx.
  - destruct (f i x) as [y|m] eqn:E.
    + now rewrite IH.
    + now rewrite (Hm _ _ _ E).
Qed.

Lemma toISOString_message (posted : option RawDate) (m : string) :
  toISOString posted = Throw m -> m = "Invalid time value".
Proof. destruct posted as [[ms|]|]; simpl; congruence. Qed.

Lemma garbled_throws (w : World) (p : provider) (board : string) :
  garbledPosting w p board -> fetchJobs w p board = Throw "Invalid time value".
Proof.
  destruct p; simpl; unfold fetchGreenhouseJobs, fetchLeverJobs;
    intros (status & postings & -> & -> & H); cbn [negb].
  - apply traverse_from_throws.
    + intros n x m. unfold normalizeGreenhouse.
      destruct (toISOString _) as [posted|m'] eqn:E; [discriminate|].
      intros E'. apply toISOString_message in E. congruence.
    + eapply Exists_impl; [|exact H]. intros x Hx n.
      unfold normalizeGreenhouse. now rewrite Hx.
  - apply traverse_from_throws.
    + intros n x m. unfold normalizeLever.
      destruct (toISOString _) as [posted|m'] eqn:E; [discriminate|].
      intros E'. apply toISOString_message in E. congruence.
    + eapply Exists_impl; [|exact H]. intros x Hx n.
      unfold normalizeLever. now rewrite Hx.
Qed.

(** X11. One posting whose date does not parse makes the fetch of its
    board throw, so that the run merges none of the postings of that
    board: the new jobs are those of the source list without the board. *)
Theorem garbled_date_loses_board (w : World) (s : Store) (p : provider)
        (l1 l2 : list Board) (b : Board) :
  boardsOf p (activeSources s) = l1 ++ b :: l2 ->
  garbledPosting w p (token b) ->
  fetchJobs w p (token b) = Throw "Invalid time value"
  /\ fetchNew w (activeSources s) (existingIndex s)
     = fetchNew w (withBoards p (l1 ++ l2) (activeSources s)) (existingIndex s).
Proof.
  intros Hb Hg. pose proof (garbled_throws _ _ _ Hg) as E.
  split; [exact E|]. eapply fetchNew_skip; eassumption.
Qed.

(** * The stored list *)

(** Every persisted entry is a job that survived the prune step, scored
    again, with its description whole or cut by the size guard. *)
Lemma persisted_origin (w : World) (s : Store) (kws : list string) (s1 : Store)
      (j' : Job) :
  In j' (storedJobs (persisted w s kws s1)) ->
  exists j, In j (prune (cutoff w) (merged w s))
            /\ (j' = rescore (newSet kws) j
                \/ j' = truncateDescription (rescore (newSet kws) j)).
Proof.
  unfold storedJobs. rewrite persisted_jobs. cbn [fromOption]. intros H.
  apply sizeGuard_In in H. destruct H as (j1 & H1 & Hj').
  apply In_firstn in H1.
  apply (Permutation_in _ (sort_perm _)) in H1.
  apply in_map_iff in H1. destruct H1 as (j & <- & Hj).
  exists j. split; assumption.
Qed.

Lemma truncateDescription_same (j : Job) : samePosting (truncateDescription j) j.
Proof.
  unfold truncateDescription, samePosting.
  destruct (_ && _); cbn; repeat split; auto.
Qed.

Lemma truncateDescription_score (j : Job) : score (truncateDescription j) = score j.
Proof. unfold truncateDescription. destruct (_ && _); reflexivity. Qed.

Lemma persisted_same (w : World) (s : Store) (kws : list string) (s1 : Store)
      (j' : Job) :
  In j' (storedJobs (persisted w s kws s1)) ->
  exists j, In j (prune (cutoff w) (merged w s)) /\ samePosting j' j
            /\ score j' = fst (scoreJob (jobText j) (newSet kws)).
Proof.
  intros H. apply persisted_origin in H. destruct H as (j & Hj & [->| ->]).
  - exists j. split; [exact Hj|]. split; [|reflexivity].
    unfold samePosting. cbn. repeat split; auto.
  - exists j. split; [exact Hj|]. split.
    + destruct (truncateDescription_same (rescore (newSet kws) j))
        as (H1 & H2 & H3 & H4 & H5 & H6 & H7 & H8 & H9).
      unfold samePosting. cbn in *. repeat split; assumption.
    + rewrite truncateDescription_score. reflexivity.
Qed.

Lemma merged_origin (w : World) (s : Store) (j : Job) :
  In j (merged w s) ->
  In j (storedJobs s)
  \/ exists p b fetched,
       In b (boardsOf p (activeSources s))
       /\ fetchJobs w p (token b) = Ok fetched /\ In j fetched.
Proof.
  unfold merged. intros H. apply in_app_or in H. destruct H as [H|H].
  - left. unfold Object_values in H. apply in_map_iff in H.
    destruct H as ([k v] & <- & H). apply indexById_entries in H. apply H.
  - right. apply fetchNew_origin in H. apply H.
Qed.

Lemma sorted_by_ranked (l l' : list Job) :
  map ranked l' = map ranked l ->
  StronglySorted ranksBefore l -> StronglySorted ranksBefore l'.
Proof.
  intros E H. revert l' E. induction H as [|a l Hl IH Ha]; intros l' E.
  - destruct l'; [constructor|discriminate].
  - destruct l' as [|a' l']; [discriminate|]. simpl in E.
    assert (Ea : ranked a' = ranked a) by congruence.
    assert (El : map ranked l' = map ranked l) by congruence.
    clear E. constructor; [apply IH, El|].
    assert (Hrk : forall x y x' y', ranked x' = ranked x -> ranked y' = ranked y ->
                                    ranksBefore x y -> ranksBefore x' y').
    { unfold ranked, ranksBefore, postedTime. intros x y x' y' Hx Hy.
      assert (score x' = score x /\ posted_at x' = posted_at x) as [-> ->]
        by (split; congruence).
      assert (score y' = score y /\ posted_at y' = posted_at y) as [-> ->]
        by (split; congruence).
      trivial. }
    clear IH Hl. revert l' El. induction Ha as [|b l Hb _ IH]; intros l' El.
    + destruct l'; [constructor|discriminate].
    + destruct l' as [|b' l']; [discriminate|]. simpl in El.
      assert (Eb : ranked b' = ranked b) by congruence.
      assert (El' : map ranked l' = map ranked l) by congruence.
      constructor; [|apply IH, El'].
      eapply Hrk; eassumption.
Qed.

Lemma persisted_sorted (w : World) (s : Store) (kws : list string) (s1 : Store) :
  StronglySorted ranksBefore (storedJobs (persisted w s kws s1)).
Proof.
  unfold storedJobs. rewrite persisted_jobs. cbn [fromOption].
  eapply sorted_by_ranked; [apply sizeGuard_ranked|].
  apply sorted_firstn, sort_sorted.
Qed.

Lemma slice0_le (n : nat) (s : string) :
  (String.length (slice0 n s) <= String.length s)%nat.
Proof.
  revert s. induction n as [|n IH]; intros s.
  - rewrite slice0_zero. simpl. lia.
  - destruct s as [|c s]; [simpl; lia|]. rewrite slice0_cons. simpl.
    specialize (IH s). lia.
Qed.

Lemma samePosting_bounded (j' j : Job) :
  samePosting j' j -> boundedDescription j -> boundedDescription j'.
Proof.
  unfold samePosting, boundedDescription.
  intros (_ & _ & _ & _ & _ & _ & _ & _ & [E|E]) [H1 H2]; rewrite E.
  - split; assumption.
  - split; [|apply slice0_no_tag, H2].
    pose proof (slice0_le 500 (description j)). lia.
Qed.

(** The outcome of a run: it persists, or it leaves the jobs as they were. *)
Lemma run_outcome (w : World) (s : Store) :
  (exists kws s1, getCvKeywords w s = (Ok kws, s1)
                  /\ scrapeBody w s = (Ok tt, persisted w s kws s1)
                  /\ scrapeAllJobs w s = persisted w s kws s1)
  \/ (exists msg s', scrapeBody w s = (Throw msg, s')
                     /\ scrapeAllJobs w s = setError msg s'
                     /\ jobs (scrapeAllJobs w s) = jobs s).
Proof.
  destruct (scrapeBody w s) as [[[]|msg] s'] eqn:E.
  - left. destruct (scrapeBody_ok _ _ _ E) as (kws & s1 & Ek & ->).
    exists kws, s1. split; [exact Ek|]. split; [reflexivity|].
    apply scrapeAllJobs_ok. exact E.
  - right. exists msg, s'. split; [reflexivity|].
    pose proof (scrapeAllJobs_throw _ _ _ _ E) as Et. split; [exact Et|].
    rewrite Et. apply scrapeBody_throw in E. apply E.
Qed.

(** X12. In every store of an execution the stored list is sorted by
    score and posting date, every stored score lies between 0 and 100,
    every stored first-seen date parses, and every stored description has
    at most DESC_TRUNCATE characters and no complete tag. *)
Theorem reachable_invariants (s : Store) :
  Reachable s ->
  StronglySorted ranksBefore (storedJobs s)
  /\ Forall wellKept (storedJobs s).
Proof.
  induction 1 as [s E|w s _ [IHs IHk]|s s' _ IH E].
  - unfold storedJobs. rewrite E. split; constructor.
  - destruct (run_outcome w s) as [(kws & s1 & _ & _ & ->)|(msg & s' & _ & _ & E)].
    + split; [apply persisted_sorted|]. apply Forall_forall. intros j' Hj'.
      split; [eapply persisted_scores; exact Hj'|].
      destruct (persisted_same _ _ _ _ _ Hj') as (j & Hj & Hsame & _).
      apply prune_In in Hj. destruct Hj as (Hm & ms & Hms & _).
      split.
      * exists ms. destruct Hsame as (_ & _ & _ & _ & _ & _ & _ & -> & _).
        exact Hms.
      * apply (samePosting_bounded _ _ Hsame).
        destruct (merged_origin _ _ _ Hm) as [He|(p & b & fetched & _ & Ef & Hf)].
        -- rewrite Forall_forall in IHk. apply (IHk _ He).
        -- pose proof (fetchJobs_normalised _ _ _ _ Ef) as Hn.
           rewrite Forall_forall in Hn. destruct (Hn _ Hf) as (_ & _ & _ & H1 & H2 & _).
           split; assumption.
    + unfold storedJobs in *. rewrite E. split; assumption.
  - unfold storedJobs in *. rewrite E. exact IH.
Qed.

(** X13. A run never refreshes a posting that is already stored: the
    entry persisted under a stored id has the title, the company, the
    location, the URL, the dates and the source of the stored entry that
    the identity index holds for it, and its description, whole or cut to
    500 characters, whatever the board reports now. *)
Theorem stored_posting_not_refreshed (w : World) (s s' : Store) (j' : Job) :
  scrapeBody w s = (Ok tt, s') ->
  In j' (storedJobs (scrapeAllJobs w s)) ->
  In (id j') (map id (storedJobs s)) ->
  exists e, In e (storedJobs s)
            /\ map_get (existingIndex s) (id j') = Some e
            /\ samePosting j' e.
Proof.
  intros E Hj' Hid. rewrite (scrapeAllJobs_ok _ _ _ E) in Hj'.
  apply scrapeBody_ok in E. destruct E as (kws & s1 & _ & ->).
  destruct (persisted_same _ _ _ _ _ Hj') as (j & Hj & Hsame & _).
  assert (Eid : id j' = id j) by apply Hsame.
  apply prune_In in Hj. destruct Hj as [Hj _].
  unfold merged in Hj. apply in_app_or in Hj. destruct Hj as [Hj|Hj].
  - unfold Object_values in Hj. apply in_map_iff in Hj.
    destruct Hj as ([k v] & Ev & Hkv). simpl in Ev. subst v.
    pose proof (indexById_entries _ _ _ Hkv) as [He Ek]. subst k.
    exists j. split; [exact He|]. split; [|exact Hsame].
    rewrite Eid. apply map_get_In; [apply indexById_NoDup|exact Hkv].
  - apply fetchNew_absent in Hj. rewrite <- Eid in Hj. contradiction.
Qed.

(** ** The size guard *)

Lemma truncateDescription_short (j : Job) :
  (String.length (description (truncateDescription j)) <= 500)%nat.
Proof.
  unfold truncateDescription.
  destruct (String.eqb_spec (description j) "") as [E|E]; cbn [negb andb].
  - rewrite E. simpl. lia.
  - destruct (Nat.ltb_spec 500 (String.length (description j))) as [H|H].
    + cbn [description setDescription]. apply slice0_length.
    + exact H.
Qed.

Lemma truncated_same (l : list Job) :
  Forall2 samePosting (map truncateDescription l) l.
Proof.
  induction l as [|j l IH]; simpl; constructor;
    [apply truncateDescription_same|exact IH].
Qed.

Lemma storedJobs_persisted (w : World) (s : Store) (kws : list string) (s1 : Store) :
  storedJobs (persisted w s kws s1) = sizeGuard w (preGuard w s kws).
Proof.
  unfold storedJobs. rewrite persisted_jobs. cbn [fromOption].
  unfold preGuard. rewrite cap_firstn. reflexivity.
Qed.

(** X14. When the serialised list exceeds STORAGE_WARN_BYTES, every
    description that the run stores has at most 500 characters and the
    entries are otherwise the ones of the list before the guard, in the
    same order; when it does not, the list is stored as it is. *)
Theorem size_guard_truncates (w : World) (s s' : Store) (kws : list string)
        (s1 : Store) :
  scrapeBody w s = (Ok tt, s') ->
  getCvKeywords w s = (Ok kws, s1) ->
  let before := preGuard w s kws in
  let stored := storedJobs (scrapeAllJobs w s) in
  (STORAGE_WARN_BYTES < jsonLength w before ->
   Forall (fun j => (String.length (description j) <= 500)%nat) stored
   /\ Forall2 samePosting stored before)
  /\ (jsonLength w before <= STORAGE_WARN_BYTES -> stored = before).
Proof.
  intros E Ek before stored. subst stored.
  rewrite (scrapeAllJobs_ok _ _ _ E).
  apply scrapeBody_ok in E. destruct E as (kws' & s1' & Ek' & ->).
  rewrite Ek in Ek'. injection Ek' as <- <-.
  rewrite storedJobs_persisted. fold before. split.
  - intros H. unfold sizeGuard. apply Z.ltb_lt in H. rewrite H. split.
    + apply Forall_forall. intros j Hj. apply in_map_iff in Hj.
      destruct Hj as (j0 & <- & _). apply truncateDescription_short.
    + apply truncated_same.
  - intros H. apply sizeGuard_silent. exact H.
Qed.

(** ** A successful re-rank *)

Lemma validIndex_nonempty (len : nat) (indices : list json) :
  filter (validIndex len) indices <> [] -> (0 < len)%nat.
Proof.
  destruct len; [|lia]. intros H. exfalso. apply H. clear H.
  induction indices as [|i l IH]; [reflexivity|]. simpl.
  destruct i as [|b|q|str|items|props]; simpl; try exact IH.
  change (inject_Z 0) with (0%Q).
  destruct (Qle_bool 0 q); simpl; exact IH.
Qed.

Lemma shortlist_picks (w : World) (data : Store) (top100 : list Job)
      (cvText : string) (status : Z) (parsed : json) (indices : list json) :
  truthy (apiKey data) = true -> truthy (cvLink data) = true ->
  fetchGoogleDocTextBg w ForRanking (orElse (cvLink data) "") = Ok cvText ->
  chatRanking w (orElse (apiKey data) "") (orElse (modelName data) "gpt-4o-mini")
              (slice0 3000 cvText) (summaries_from 0 top100)
  = Http status (Some parsed) ->
  ok status = true ->
  replyIndices parsed = Ok (Some (JArr indices)) ->
  filter (validIndex (List.length top100)) indices <> [] ->
  shortlist w data top100
  = map (pick top100) (firstn 5 (filter (validIndex (List.length top100)) indices)).
Proof.
  intros Hk Hl Hdoc Hchat Hok Hidx Hne.
  pose proof (validIndex_nonempty _ _ Hne) as Hlen.
  unfold shortlist. rewrite Hk, Hl. apply Nat.ltb_lt in Hlen. rewrite Hlen.
  cbn [andb]. unfold rankBlock. run_unfold. rewrite Hdoc.
  unfold aiRankTop5. rewrite Hchat, Hok. cbn [negb]. rewrite Hidx.
  set (picks := map (pick top100) _).
  assert (Hp : (0 <? List.length picks)%nat = true).
  { apply Nat.ltb_lt. unfold picks. rewrite length_map.
    destruct (filter (validIndex (List.length top100)) indices);
      [congruence|simpl; lia]. }
  rewrite Hp. destruct (traverse_from pickLabel 0 picks); reflexivity.
Qed.

(** X15. When the language model answers the re-rank with an index array
    of which at least one entry is accepted, the persisted shortlist is
    made of the jobs at the first five accepted entries, in the order and
    with the repetitions of the reply. *)
Theorem ai_ranking_persisted (w : World) (s : Store) (cvText : string)
        (status : Z) (parsed : json) (indices : list json) :
  storageWorks w ->
  truthy (apiKey s) = true -> truthy (cvLink s) = true ->
  let top100 := firstn 100 (storedJobs (scrapeAllJobs w s)) in
  let accepted := filter (validIndex (List.length top100)) indices in
  fetchGoogleDocTextBg w ForRanking (orElse (cvLink s) "") = Ok cvText ->
  chatRanking w (orElse (apiKey s) "") (orElse (modelName s) "gpt-4o-mini")
              (slice0 3000 cvText) (summaries_from 0 top100)
  = Http status (Some parsed) ->
  ok status = true ->
  replyIndices parsed = Ok (Some (JArr indices)) ->
  accepted <> [] ->
  topJobs (scrapeAllJobs w s) = Some (map (pick top100) (firstn 5 accepted)).
Proof.
  intros Hw Hk Hl.
  destruct (run_completes w s Hw) as (kws & s1 & Ek & _ & ->).
  destruct (keywords_keep_settings _ _ _ _ Ek) as (Ea & Ec & Em).
  intros top100 accepted Hdoc Hchat Hok Hidx Hne.
  rewrite persisted_topJobs. fold top100. f_equal.
  apply shortlist_picks with (cvText := cvText) (status := status) (parsed := parsed);
    rewrite ?Ea, ?Ec, ?Em; assumption.
Qed.

(** ** The keywords of a run *)

Lemma StronglySorted_weaken {A} (R R' : A -> A -> Prop) (l : list A) :
  (forall a b, In a l -> In b l -> R a b -> R' a b) ->
  StronglySorted R l -> StronglySorted R' l.
Proof.
  intros Himp H. induction H as [|a l Hl IH Ha]; constructor.
  - apply IH. intros x y Hx Hy. apply Himp; now right.
  - rewrite Forall_forall in *. intros b Hb.
    apply Himp; [now left|now right|apply Ha, Hb].
Qed.

Lemma unscored_run (w : World) (s : Store) (s1 : Store) :
  let stored := storedJobs (persisted w s [] s1) in
  Forall (fun j => score j = 0) stored /\ StronglySorted newestFirst stored.
Proof.
  intros stored.
  assert (H0 : Forall (fun j => score j = 0) stored).
  { apply Forall_forall. intros j' Hj'.
    destruct (persisted_same w s [] s1 j' Hj') as (j & _ & _ & ->). reflexivity. }
  split; [exact H0|].
  apply StronglySorted_weaken with (R := ranksBefore); [|apply persisted_sorted].
  rewrite Forall_forall in H0. intros a b Ha Hb [H|[_ H]]; [|exact H].
  rewrite (H0 _ Ha), (H0 _ Hb) in H. lia.
Qed.

Lemma getCvKeywords_no_link (w : World) (s : Store) :
  storageFault w keywordKeys = None ->
  cacheFresh w s = None -> truthy (cvLink s) = false ->
  getCvKeywords w s = (Ok [], s).
Proof.
  intros Hf Hc Hl. unfold getCvKeywords. run_unfold.
  unfold keywordKeys in Hf. rewrite Hf, Hc, Hl. reflexivity.
Qed.

(** X16. Without a resume link and without keywords extracted in the
    last 24 hours, a run works with no keyword, also when older keywords
    are stored: every stored score is 0 and the stored list is ordered by
    posting date alone, the newest first. *)
Theorem run_without_resume (w : World) (s : Store) :
  storageWorks w ->
  truthy (cvLink s) = false ->
  cacheFresh w s = None ->
  getCvKeywords w s = (Ok [], s)
  /\ Forall (fun j => score j = 0) (storedJobs (scrapeAllJobs w s))
  /\ StronglySorted newestFirst (storedJobs (scrapeAllJobs w s)).
Proof.
  intros Hw Hl Hc.
  pose proof (getCvKeywords_no_link w s (Hw _) Hc Hl) as Ek.
  split; [exact Ek|].
  destruct (run_completes w s Hw) as (kws & s1 & Ek' & _ & ->).
  rewrite Ek in Ek'. injection Ek' as <- <-.
  apply unscored_run.
Qed.

(** X17. When a call of getCvKeywords downloads the resume, it stores the
    keywords it extracted, those of the language model or, when there is
    no credential or the model fails, those of the pattern strategy; and a
    call made less than 24 hours later returns the stored keywords and
    leaves the store as it is, whatever the network does then. *)
Theorem keyword_cache_round_trip (w : World) (s : Store) (cvText : string) :
  storageFault w keywordKeys = None ->
  cacheFresh w s = None ->
  truthy (cvLink s) = true ->
  fetchGoogleDocTextBg w ForKeywords (orElse (cvLink s) "") = Ok cvText ->
  exists kws,
    getCvKeywords w s = (Ok kws, setKeywords kws (clock w AtKeywordStore) s)
    /\ ((truthy (apiKey s) = true
         /\ aiExtractKeywords w cvText (orElse (apiKey s) "")
              (orElse (modelName s) "gpt-4o-mini") = Ok kws)
        \/ kws = extractSmartKeywords cvText)
    /\ forall later,
         storageFault later keywordKeys = None ->
         clock later AtKeywordAge - clock w AtKeywordStore
         < CV_CACHE_HOURS * 3600 * 1000 ->
         let cached := setKeywords kws (clock w AtKeywordStore) s in
         getCvKeywords later cached = (Ok kws, cached).
Proof.
  intros Hf Hc Hl Hdoc.
  assert (Hlater : forall kws later,
             storageFault later keywordKeys = None ->
             clock later AtKeywordAge - clock w AtKeywordStore
             < CV_CACHE_HOURS * 3600 * 1000 ->
             let cached := setKeywords kws (clock w AtKeywordStore) s in
             getCvKeywords later cached = (Ok kws, cached)).
  { intros kws later Hf' Hage cached. unfold getCvKeywords. run_unfold.
    unfold keywordKeys in Hf'. rewrite Hf'.
    unfold cacheFresh, cached. cbn [cvKeywords cvKeywordsUpdatedAt setKeywords].
    apply Z.ltb_lt in Hage. rewrite Hage. reflexivity. }
  unfold getCvKeywords. run_unfold. unfold keywordKeys in Hf.
  rewrite Hf, Hc, Hl, Hdoc. cbn [negb].
  destruct (truthy (apiKey s)) eqn:Ea.
  - destruct (aiExtractKeywords w cvText _ _) as [kws|msg] eqn:Eai.
    + exists kws. split; [reflexivity|]. split; [left; split; trivial|].
      apply Hlater.
    + exists (extractSmartKeywords cvText). split; [reflexivity|].
      split; [now right|apply Hlater].
  - exists (extractSmartKeywords cvText). split; [reflexivity|].
    split; [now right|apply Hlater].
Qed.

(** * What the popup is told and shows *)

(** X18. The status that the worker reports after a run: when the run
    completes, no error, the instant of the run and the number of stored
    jobs, at most MAX_JOBS; when an exception escapes the run, the
    message of the exception, reported as no error when it is empty, with
    the date and the count of before the run. *)
Theorem status_after_run (w asker : World) (s : Store) :
  storageFault asker ["jobsLastUpdated"; "jobsLastError"; "jobs"] = None ->
  exists status,
    getScrapeStatus asker (scrapeAllJobs w s) = (Ok status, scrapeAllJobs w s)
    /\ jobCount status = List.length (storedJobs (scrapeAllJobs w s))
    /\ (forall s', scrapeBody w s = (Ok tt, s') ->
          lastError status = None
          /\ lastUpdated status = Some (clock w AtPersist)
          /\ Z.of_nat (jobCount status) <= MAX_JOBS)
    /\ (forall msg s', scrapeBody w s = (Throw msg, s') ->
          lastError status = (if String.eqb msg "" then None else Some msg)
          /\ lastUpdated status = jobsLastUpdated s
          /\ jobCount status = List.length (storedJobs s)).
Proof.
  intros Hf. unfold getScrapeStatus. run_unfold. rewrite Hf.
  eexists. split; [reflexivity|]. cbn [jobCount lastError lastUpdated].
  split; [reflexivity|]. split.
  - intros s' E. rewrite (scrapeAllJobs_ok _ _ _ E).
    apply scrapeBody_ok in E. destruct E as (kws & s1 & _ & ->).
    split; [reflexivity|]. split; [reflexivity|].
    exact (persisted_bound w s kws s1).
  - intros msg s' E. rewrite (scrapeAllJobs_throw _ _ _ _ E).
    apply scrapeBody_throw in E. destruct E as (_ & Ej & _ & Eu).
    cbn [setError jobsLastError jobsLastUpdated jobs].
    rewrite Ej, Eu. split; [|split; reflexivity].
    unfold orNull, truthy. destruct (String.eqb msg ""); reflexivity.
Qed.

Lemma displayJobs_sound (display : list (option Job)) :
  (List.length (fst (displayJobs display)) <= List.length display)%nat
  /\ (forall j, In j (fst (displayJobs display)) -> In (Some j) display)
  /\ (snd (displayJobs display) = None <-> ~ In None display).
Proof.
  induction display as [|[j|] rest (IH1 & IH2 & IH3)]; cbn [displayJobs].
  - simpl. split; [lia|]. split; [tauto|]. split; [tauto|reflexivity].
  - destruct (displayJobs rest) as [shown err]. cbn [fst snd] in *.
    split; [simpl; lia|]. split.
    + intros j' [->|H]; [now left|right; apply IH2, H].
    + rewrite IH3. simpl. split; [intros H [E|E]; [discriminate|tauto]|tauto].
  - cbn [fst snd]. split; [simpl; lia|]. split; [intros j []|].
    split; [discriminate|]. intros H. exfalso. apply H. now left.
Qed.

Lemma displayJobs_all (l : list Job) : displayJobs (map Some l) = (l, None).
Proof.
  induction l as [|j l IH]; [reflexivity|]. cbn [map displayJobs].
  now rewrite IH.
Qed.

Lemma displayed_persisted (w : World) (s : Store) (kws : list string) (s1 : Store) :
  let stored := storedJobs (persisted w s kws s1) in
  (List.length (displayed (persisted w s kws s1)) <= 5)%nat
  /\ (forall j, In (Some j) (displayed (persisted w s kws s1)) -> In j stored).
Proof.
  intros stored. unfold displayed.
  change (fromOption (jobs (persisted w s kws s1))) with stored.
  rewrite persisted_topJobs. fold stored. cbn [fromOption].
  destruct (shortlist_sound w s1 (firstn 100 stored)) as [Hlen Hin].
  destruct (0 <? List.length (shortlist w s1 (firstn 100 stored)))%nat.
  - split; [exact Hlen|]. intros j Hj. eapply In_firstn, Hin, Hj.
  - split; [rewrite length_map; apply firstn_le_length|].
    intros j Hj. apply in_map_iff in Hj. destruct Hj as (j0 & E & Hj0).
    injection E as ->. eapply In_firstn, Hj0.
Qed.

Lemma displayed_default (w : World) (s : Store) (kws : list string) (s1 : Store) :
  rankingUnusable w s1 (firstn 100 (storedJobs (persisted w s kws s1))) ->
  displayed (persisted w s kws s1)
  = map Some (firstn 5 (storedJobs (persisted w s kws s1))).
Proof.
  intros Hu. unfold displayed. rewrite persisted_topJobs.
  rewrite shortlist_default by exact Hu. cbn [fromOption].
  rewrite firstn_5_100.
  change (fromOption (jobs (persisted w s kws s1)))
    with (storedJobs (persisted w s kws s1)).
  destruct (0 <? _)%nat; reflexivity.
Qed.

(** X19. What the Jobs tab shows after a completed run: at most five
    jobs, each of them stored; an error exactly when an entry of the
    shortlist is not a job; and, when the re-rank that the run requested
    for its pool (the first 100 stored jobs) gave nothing usable, the
    first five stored jobs without an error. *)
Theorem jobs_tab_after_run (w popup : World) (s s' : Store) :
  scrapeBody w s = (Ok tt, s') ->
  storageFault popup ["jobs"; "topJobs"; "jobsLastUpdated"; "cvKeywords";
                      "cvLink"; "apiKey"] = None ->
  let stored := storedJobs (scrapeAllJobs w s) in
  let view := searchJobs popup (scrapeAllJobs w s) in
  (List.length (rendered view) <= 5)%nat
  /\ (forall j, In j (rendered view) -> In j stored)
  /\ (shownError view = None <-> ~ In None (displayed (scrapeAllJobs w s)))
  /\ (rankingUnusable w s (firstn 100 stored) ->
      rendered view = firstn 5 stored /\ shownError view = None).
Proof.
  intros E Hf stored view. subst stored view.
  rewrite (scrapeAllJobs_ok _ _ _ E).
  apply scrapeBody_ok in E. destruct E as (kws & s1 & Ek & ->).
  set (after := persisted w s kws s1).
  destruct (displayed_persisted w s kws s1) as (Hlen & Hin).
  fold after in Hlen, Hin.
  unfold searchJobs. rewrite Hf. cbv zeta.
  destruct (displayJobs_sound (displayed after)) as (D1 & D2 & D3).
  assert (Hview :
    rendered (if (0 <? List.length (displayed after))%nat
              then let '(shown, err) := displayJobs (displayed after) in
                   mkView shown None err
              else if negb (truthy (cvLink after))
                   then mkView [] (Some ConfigureResume) None
                   else mkView [] (Some RefreshJobs) None)
    = fst (displayJobs (displayed after))
    /\ shownError (if (0 <? List.length (displayed after))%nat
              then let '(shown, err) := displayJobs (displayed after) in
                   mkView shown None err
              else if negb (truthy (cvLink after))
                   then mkView [] (Some ConfigureResume) None
                   else mkView [] (Some RefreshJobs) None)
    = snd (displayJobs (displayed after))).
  { destruct (displayed after) as [|x l] eqn:Ed.
    - cbn. destruct (negb _); split; reflexivity.
    - cbn [List.length Nat.ltb Nat.leb].
      destruct (displayJobs (x :: l)); split; reflexivity. }
  destruct Hview as [-> ->].
  split; [lia|]. split; [intros j Hj; apply Hin, D2, Hj|]. split; [exact D3|].
  intros Hu. destruct (keywords_keep_settings _ _ _ _ Ek) as (Ea & Ec & Em).
  apply (rankingUnusable_settings w s s1 _ Ea Ec Em) in Hu.
  unfold after. rewrite displayed_default by exact Hu.
  rewrite displayJobs_all. split; reflexivity.
Qed.

(** * The Sources tab *)

Lemma boardsOf_same (p : provider) (boards : list Board) (sources : JobSources) :
  boardsOf p (withBoards p boards sources) = boards.
Proof. destruct p; reflexivity. Qed.

Lemma boardsOf_other (p q : provider) (boards : list Board) (sources : JobSources) :
  q <> p -> boardsOf q (withBoards p boards sources) = boardsOf q sources.
Proof. destruct p, q; try reflexivity; congruence. Qed.

Lemma hasToken_In (tok : string) (boards : list Board) :
  hasToken tok boards = true <-> In tok (map token boards).
Proof.
  unfold hasToken. rewrite existsb_exists, in_map_iff. split.
  - intros (b & Hb & E). apply String.eqb_eq in E. eauto.
  - intros (b & E & Hb). exists b. split; [exact Hb|]. now apply String.eqb_eq.
Qed.

Lemma activeSources_nonempty (s : Store) (sources : JobSources) (p : provider) :
  jobSources s = Some sources -> boardsOf p sources <> [] ->
  activeSources s = sources.
Proof.
  intros E H. unfold activeSources. rewrite E.
  destruct p; simpl in H.
  - destruct (greenhouse sources); [congruence|reflexivity].
  - destruct (lever sources); [congruence|].
    now rewrite andb_false_r.
Qed.

Lemma labelFor_known (p : provider) (b : Board) :
  In b (boardsOf p KNOWN_BOARDS) -> labelFor p (token b) = label b.
Proof.
  destruct p; simpl; intros H;
    repeat (destruct H as [<-|H]; [reflexivity|]); contradiction.
Qed.

(** The store that addSource leaves when the storage works. *)
Lemma addSource_store (w : World) (p : provider) (input : string) (s : Store) :
  storageFault w ["jobSources"] = None ->
  let tok := toLowerCase (trim input) in
  let before := boardsOf p (sourcesOrEmpty s) in
  snd (addSource w p input s)
  = if String.eqb tok "" || hasToken tok before then s
    else setSources (withBoards p (before ++ [mkBoard tok (labelFor p tok)])
                                (sourcesOrEmpty s)) s.
Proof.
  intros Hf tok before. unfold addSource. fold tok.
  destruct (String.eqb tok ""); [reflexivity|]. run_unfold. rewrite Hf.
  cbn [orb]. fold before. destruct (hasToken tok before); reflexivity.
Qed.

(** X20. addSource puts the board under its trimmed lower-case token in
    the list of its provider unless it is there already, with the label of
    the known board of that token when there is one; it keeps the tokens
    of the list distinct and the other list as it is; adding the same
    board again changes nothing; and the next run takes its boards from
    the stored lists, not from the fallback list. *)
Theorem addSource_adds (w : World) (p : provider) (input : string) (s : Store) :
  storageFault w ["jobSources"] = None ->
  toLowerCase (trim input) <> "" ->
  let tok := toLowerCase (trim input) in
  let before := boardsOf p (sourcesOrEmpty s) in
  let s' := snd (addSource w p input s) in
  let after := boardsOf p (sourcesOrEmpty s') in
  (if hasToken tok before then after = before
   else after = before ++ [mkBoard tok (labelFor p tok)])
  /\ (forall known, In known (boardsOf p KNOWN_BOARDS) ->
                    labelFor p (token known) = label known)
  /\ (NoDup (map token before) -> NoDup (map token after))
  /\ (forall q, q <> p ->
        boardsOf q (sourcesOrEmpty s') = boardsOf q (sourcesOrEmpty s))
  /\ (forall again, toLowerCase (trim again) = tok ->
                    snd (addSource w p again s') = s')
  /\ activeSources s' = sourcesOrEmpty s'.
Proof.
  intros Hf Hne tok before s' after.
  assert (Es' : s' = if hasToken tok before then s
                     else setSources (withBoards p (before ++ [mkBoard tok (labelFor p tok)])
                                                 (sourcesOrEmpty s)) s).
  { unfold s'. rewrite addSource_store by exact Hf. fold tok before.
    destruct (String.eqb_spec tok ""); [contradiction|reflexivity]. }
  assert (Eafter : after = if hasToken tok before then before
                           else before ++ [mkBoard tok (labelFor p tok)]).
  { unfold after. rewrite Es'. destruct (hasToken tok before); [reflexivity|].
    unfold sourcesOrEmpty at 1. cbn [jobSources setSources].
    apply boardsOf_same. }
  assert (Hhas : hasToken tok after = true).
  { rewrite Eafter. destruct (hasToken tok before) eqn:E; [exact E|].
    apply hasToken_In. rewrite map_app, in_app_iff. right. now left. }
  split; [rewrite Eafter; destruct (hasToken tok before); reflexivity|].
  split; [apply labelFor_known|]. split; [|split; [|split]].
  - intros Hnd. rewrite Eafter. destruct (hasToken tok before) eqn:E; [exact Hnd|].
    rewrite map_app. cbn [map token].
    apply NoDup_app; [exact Hnd|constructor; [intros []|constructor]|].
    intros t Ht [<-|[]]. apply hasToken_In in Ht. congruence.
  - intros q Hq. rewrite Es'. destruct (hasToken tok before); [reflexivity|].
    unfold sourcesOrEmpty at 1. cbn [jobSources setSources].
    apply boardsOf_other, Hq.
  - intros again Ea. rewrite addSource_store by exact Hf. rewrite Ea.
    fold after. rewrite Hhas, orb_true_r. reflexivity.
  - assert (Hne' : after <> []).
    { intros E. rewrite E in Hhas. discriminate Hhas. }
    unfold after, sourcesOrEmpty in Hne'. unfold sourcesOrEmpty.
    destruct (jobSources s') as [js|] eqn:Ej.
    + eapply activeSources_nonempty; eassumption.
    + destruct p; simpl in Hne'; congruence.
Qed.

Lemma splice1_spec (idx : nat) (boards : list Board) :
  splice1 idx boards = firstn idx boards ++ skipn (S idx) boards.
Proof.
  revert idx. induction boards as [|b rest IH]; intros idx.
  - destruct idx; reflexivity.
  - destruct idx; [reflexivity|]. cbn [splice1 firstn skipn app].
    now rewrite IH.
Qed.

Lemma splice1_In (idx : nat) (boards : list Board) (b : Board) :
  In b (splice1 idx boards) -> In b boards.
Proof.
  rewrite splice1_spec, in_app_iff. intros [H|H].
  - eapply In_firstn, H.
  - rewrite <- (firstn_skipn (S idx) boards), in_app_iff. now right.
Qed.

Lemma splice1_NoDup (idx : nat) (boards : list Board) :
  NoDup (map token boards) -> NoDup (map token (splice1 idx boards)).
Proof.
  revert idx. induction boards as [|b rest IH]; intros idx H.
  - destruct idx; exact H.
  - inversion H as [|t l Hn Hr]; subst. destruct idx; [exact Hr|].
    cbn [splice1 map]. constructor; [|apply IH, Hr].
    intros Hin. apply Hn. apply in_map_iff in Hin.
    destruct Hin as (b' & E & Hb'). apply in_map_iff. exists b'.
    split; [exact E|]. eapply splice1_In, Hb'.
Qed.

(** X21. removeSource takes the board at the given position out of the
    list of its provider and leaves the rest of both lists as it is, the
    tokens distinct if they were; and when it empties the stored lists,
    the Sources tab lists no board while the next run scrapes the boards
    of the fallback list. *)
Theorem removeSource_removes (w : World) (p : provider) (idx : nat) (s : Store) :
  storageFault w ["jobSources"] = None ->
  let before := boardsOf p (sourcesOrEmpty s) in
  let s' := snd (removeSource w p idx s) in
  let after := boardsOf p (sourcesOrEmpty s') in
  after = firstn idx before ++ skipn (S idx) before
  /\ (NoDup (map token before) -> NoDup (map token after))
  /\ (forall q, q <> p ->
        boardsOf q (sourcesOrEmpty s') = boardsOf q (sourcesOrEmpty s))
  /\ (after = [] ->
      (forall q, q <> p -> boardsOf q (sourcesOrEmpty s) = []) ->
      shownSources s' = mkSources [] []
      /\ activeSources s' = FALLBACK_SOURCES).
Proof.
  intros Hf before s' after.
  assert (Es' : s' = setSources (withBoards p (splice1 idx before) (sourcesOrEmpty s)) s).
  { unfold s', removeSource. run_unfold. rewrite Hf. reflexivity. }
  assert (Eafter : after = splice1 idx before).
  { unfold after. rewrite Es'. unfold sourcesOrEmpty at 1.
    cbn [jobSources setSources]. apply boardsOf_same. }
  split; [rewrite Eafter; apply splice1_spec|]. split; [|split].
  - intros H. rewrite Eafter. apply splice1_NoDup, H.
  - intros q Hq. rewrite Es'. unfold sourcesOrEmpty at 1.
    cbn [jobSources setSources]. apply boardsOf_other, Hq.
  - intros He Ho. rewrite Eafter in He. rewrite Es'.
    unfold shownSources, activeSources. cbn [jobSources setSources].
    rewrite He. destruct p; cbn [withBoards greenhouse lever].
    + assert (H : boardsOf Lever (sourcesOrEmpty s) = []) by (apply Ho; discriminate).
      cbn [boardsOf] in H. rewrite H. split; reflexivity.
    + assert (H : boardsOf Greenhouse (sourcesOrEmpty s) = [])
        by (apply Ho; discriminate).
      cbn [boardsOf] in H. rewrite H. split; reflexivity.
Qed.

(** * Source discovery *)

Lemma boardSet_self (m : list Board) (b : Board) : In b (boardSet m b).
Proof.
  induction m as [|e m IH]; simpl; [now left|].
  destruct (String.eqb (token e) (token b)); [now left|now right].
Qed.

Lemma boardSet_keeps (m : list Board) (b x : Board) :
  In b m -> token x <> token b -> In b (boardSet m x).
Proof.
  intros Hb Hx. induction m as [|e m IH]; [contradiction|]. simpl.
  destruct (String.eqb_spec (token e) (token x)) as [E|E].
  - destruct Hb as [->|Hb]; [congruence|now right].
  - destruct Hb as [->|Hb]; [now left|right; apply IH, Hb].
Qed.

Lemma boardSet_tokens (m : list Board) (b : Board) (t : string) :
  In t (map token (boardSet m b)) <-> t = token b \/ In t (map token m).
Proof.
  induction m as [|e m IH]; simpl; [intuition|].
  destruct (String.eqb_spec (token e) (token b)) as [E|E]; simpl.
  - rewrite E. intuition.
  - rewrite IH. intuition.
Qed.

Lemma boardSet_NoDup (m : list Board) (b : Board) :
  NoDup (map token m) -> NoDup (map token (boardSet m b)).
Proof.
  induction m as [|e m IH]; simpl; intros H.
  - constructor; [intros []|constructor].
  - inversion H as [|t l Hn Hr]; subst.
    destruct (String.eqb_spec (token e) (token b)) as [E|E]; simpl.
    + rewrite <- E. exact H.
    + constructor; [|apply IH, Hr].
      rewrite boardSet_tokens. intros [E'|H']; [congruence|contradiction].
Qed.

Lemma boardSet_In (m : list Board) (b x : Board) :
  NoDup (map token m) -> In x (boardSet m b) ->
  x = b \/ (In x m /\ token x <> token b).
Proof.
  induction m as [|e m IH]; simpl; intros Hnd H.
  - destruct H as [<-|[]]. now left.
  - inversion Hnd as [|t l Hn Hr]; subst.
    destruct (String.eqb_spec (token e) (token b)) as [E|E].
    + destruct H as [<-|H]; [now left|]. right. split; [now right|].
      intros E'. apply Hn. rewrite E, <- E'. apply in_map, H.
    + destruct H as [<-|H]; [right; split; [now left|exact E]|].
      destruct (IH Hr H) as [->|[Hx Ht]]; [now left|].
      right. split; [now right|exact Ht].
Qed.

Lemma dedupe_from (l acc : list Board) :
  NoDup (map token acc) ->
  NoDup (map token (fold_left boardSet l acc))
  /\ forall t, In t (map token (fold_left boardSet l acc))
               <-> In t (map token acc) \/ In t (map token l).
Proof.
  revert acc. induction l as [|b l IH]; intros acc H; simpl.
  - split; [exact H|]. intuition.
  - destruct (IH (boardSet acc b) (boardSet_NoDup _ _ H)) as [H1 H2].
    split; [exact H1|]. intros t. rewrite H2, boardSet_tokens. intuition.
Qed.

Lemma dedupe_snoc (l : list Board) (x : Board) :
  dedupeByToken (l ++ [x]) = boardSet (dedupeByToken l) x.
Proof. unfold dedupeByToken. rewrite fold_left_app. reflexivity. Qed.

Lemma dedupe_NoDup (l : list Board) : NoDup (map token (dedupeByToken l)).
Proof. apply dedupe_from. constructor. Qed.

Lemma dedupe_last (l : list Board) (b : Board) :
  In b (dedupeByToken l) <->
  exists l1 l2, l = l1 ++ b :: l2 /\ ~ In (token b) (map token l2).
Proof.
  induction l as [|x l IH] using rev_ind.
  - split; [intros []|]. intros (l1 & l2 & E & _). destruct l1; discriminate E.
  - rewrite dedupe_snoc. split.
    + intros H. apply boardSet_In in H; [|apply dedupe_NoDup].
      destruct H as [->|[H Ht]].
      * exists l, []. split; [reflexivity|intros []].
      * apply IH in H. destruct H as (l1 & l2 & -> & Hn).
        exists l1, (l2 ++ [x]). split; [now rewrite <- app_assoc|].
        rewrite map_app, in_app_iff. intros [H|[H|[]]]; [tauto|congruence].
    + intros (l1 & l2 & E & Hn).
      destruct l2 as [|y l2] using rev_ind.
      * apply app_inj_tail in E. destruct E as [_ ->]. apply boardSet_self.
      * clear IHl2. rewrite app_comm_cons, app_assoc in E.
        apply app_inj_tail in E. destruct E as [-> ->].
        rewrite map_app, in_app_iff in Hn. apply boardSet_keeps.
        -- apply IH. exists l1, l2. split; [reflexivity|tauto].
        -- intros E. apply Hn. right. left. exact E.
Qed.

(** X22. The deduplication of the verified boards keeps one board for
    each token: the tokens of the result are distinct and are those of the
    list, and a board is kept exactly when no later board of the list has
    its token. *)
Theorem dedupeByToken_keeps_last (boards : list Board) :
  NoDup (map token (dedupeByToken boards))
  /\ (forall t, In t (map token (dedupeByToken boards)) <-> In t (map token boards))
  /\ (forall b, In b (dedupeByToken boards) <->
                exists l1 l2, boards = l1 ++ b :: l2
                              /\ ~ In (token b) (map token l2)).
Proof.
  split; [apply dedupe_NoDup|]. split; [|apply dedupe_last].
  intros t. destruct (dedupe_from boards [] (NoDup_nil _)) as [_ H].
  rewrite (H t). simpl. tauto.
Qed.

Lemma dedupe_In (l : list Board) (b : Board) : In b (dedupeByToken l) -> In b l.
Proof.
  intros H. apply dedupe_last in H. destruct H as (l1 & l2 & -> & _).
  apply in_or_app. right. now left.
Qed.

Lemma verifiedSources_sound (d : Discovery) (data : Store) (cvText : string)
      (sources : JobSources) :
  verifiedSources d data cvText = Ok sources ->
  (greenhouse sources <> [] \/ lever sources <> [])
  /\ NoDup (map token (greenhouse sources))
  /\ NoDup (map token (lever sources))
  /\ (forall b, In b (greenhouse sources) -> verifyGreenhouseToken d (token b) = true)
  /\ (forall b, In b (lever sources) -> verifyLeverHandle d (token b) = true).
Proof.
  unfold verifiedSources. cbv zeta.
  destruct (chatSources d _ _ _ _) as [m|status [parsed|]]; try discriminate;
    destruct (negb (ok status)); try discriminate.
  cbn [greenhouse lever].
  set (gh := dedupeByToken _). set (lv := dedupeByToken _).
  destruct (Nat.eqb_spec (List.length gh + List.length lv) 0) as [E|E];
    [discriminate|].
  intros H. apply Ok_inj in H. subst sources. cbn [greenhouse lever].
  split; [|split; [apply dedupe_NoDup|split; [apply dedupe_NoDup|split]]].
  - destruct gh; [|left; discriminate]. destruct lv; [|right; discriminate].
    simpl in E. congruence.
  - intros b Hb. apply dedupe_In, filter_In in Hb. apply Hb.
  - intros b Hb. apply dedupe_In, filter_In in Hb. apply Hb.
Qed.

Lemma generateInitialSources_outcome (d : Discovery) (st : Settings) :
  storageFault (world d) ["cvLink"; "apiKey"; "modelName"; "cvKeywords"] = None ->
  generateInitialSources d st = (Ok FALLBACK_SOURCES, generated FALLBACK_SOURCES false st)
  \/ exists sources cvText,
       truthy (cvLink (pipeline st)) = true /\ truthy (apiKey (pipeline st)) = true
       /\ fetchDoc (sourcesDoc d) (orElse (cvLink (pipeline st)) "") = Ok cvText
       /\ verifiedSources d (pipeline st) cvText = Ok sources
       /\ generateInitialSources d st = (Ok sources, generated sources true st).
Proof.
  intros Hf. unfold generateInitialSources, readSettings, useFallback, writeSources.
  run_unfold. rewrite Hf.
  destruct (truthy (cvLink (pipeline st))) eqn:El; [|left; reflexivity].
  destruct (truthy (apiKey (pipeline st))) eqn:Ea; [|left; reflexivity].
  cbn [negb orb].
  destruct (fetchDoc (sourcesDoc d) _) as [cvText|m] eqn:Edoc; [|left; reflexivity].
  destruct (verifiedSources d (pipeline st) cvText) as [sources|m] eqn:Ev;
    [|left; reflexivity].
  right. exists sources, cvText. repeat split; trivial.
Qed.

Lemma fallback_sound :
  NoDup (map token (greenhouse FALLBACK_SOURCES))
  /\ NoDup (map token (lever FALLBACK_SOURCES)).
Proof.
  split; simpl; repeat constructor; simpl; intuition discriminate.
Qed.

(** X23. When the storage works, generateInitialSources does not throw:
    it stores and returns either the fallback list, marked as not made
    from the resume, or boards that the language model suggested and that
    all passed the verification, marked as made from the resume; the
    fallback list is what it stores when the resume link or the
    credential is missing.  In both cases the list is not empty, the
    tokens of each provider are distinct, nothing else of the store
    changes, and the next run takes exactly these boards. *)
Theorem generateInitialSources_sound (d : Discovery) (st : Settings) :
  storageFault (world d) ["cvLink"; "apiKey"; "modelName"; "cvKeywords"] = None ->
  exists sources fromResume,
    generateInitialSources d st = (Ok sources, generated sources fromResume st)
    /\ (greenhouse sources <> [] \/ lever sources <> [])
    /\ NoDup (map token (greenhouse sources))
    /\ NoDup (map token (lever sources))
    /\ (if fromResume
        then (forall b, In b (greenhouse sources) ->
                        verifyGreenhouseToken d (token b) = true)
             /\ (forall b, In b (lever sources) ->
                           verifyLeverHandle d (token b) = true)
        else sources = FALLBACK_SOURCES)
    /\ (truthy (cvLink (pipeline st)) && truthy (apiKey (pipeline st)) = false ->
        fromResume = false)
    /\ activeSources (pipeline (generated sources fromResume st)) = sources.
Proof.
  intros Hf.
  destruct (generateInitialSources_outcome d st Hf)
    as [E|(sources & cvText & El & Ea & _ & Ev & E)].
  - exists FALLBACK_SOURCES, false. split; [exact E|].
    split; [left; discriminate|].
    split; [apply fallback_sound|]. split; [apply fallback_sound|].
    repeat split.
  - destruct (verifiedSources_sound _ _ _ _ Ev) as (Hne & Hg & Hl & Hvg & Hvl).
    exists sources, true. split; [exact E|]. split; [exact Hne|].
    split; [exact Hg|]. split; [exact Hl|]. split; [split; assumption|].
    split; [rewrite El, Ea; discriminate|].
    cbn [pipeline generated].
    destruct Hne as [H|H].
    + apply (activeSources_nonempty _ _ Greenhouse); [reflexivity|exact H].
    + apply (activeSources_nonempty _ _ Lever); [reflexivity|exact H].
Qed.

Lemma run_keeps_sources (w : World) (s : Store) :
  jobSources (scrapeAllJobs w s) = jobSources s.
Proof.
  destruct (run_outcome w s) as [(kws & s1 & Ek & _ & ->)|(msg & s' & E & -> & _)].
  - cbn [persisted setResult jobSources].
    destruct (getCvKeywords_store _ _ _ _ Ek) as [->|[k ->]]; reflexivity.
  - cbn [setError jobSources]. revert E.
    unfold scrapeBody. unfold bind at 1. unfold getStorage at 1.
    destruct (storageFault w ["jobSources"]); [intros E; inversion E; reflexivity|].
    unfold bind at 1. unfold getStorage at 1.
    destruct (storageFault w ["jobs"]); [intros E; inversion E; reflexivity|].
    unfold bind at 1.
    destruct (getCvKeywords w s) as [[kws|m] s1] eqn:Ekw.
    + unfold bind at 1. unfold getStorage at 1.
      destruct (storageFault w ["apiKey"; "modelName"; "cvLink"]).
      * intros E; inversion E; subst.
        destruct (getCvKeywords_store _ _ _ _ Ekw) as [->|[k ->]]; reflexivity.
      * unfold setStorage, modify. discriminate.
    + intros E; inversion E; subst.
      apply getCvKeywords_throw in Ekw. destruct Ekw as [-> _]. reflexivity.
Qed.

(** X24. On installation, when the storage works, the worker clears the
    keyword cache, stores a source list that is not empty, and runs the
    pipeline once on the store so prepared: the run takes its boards from
    that list, extracts the keywords anew, completes without an error and
    leaves the list stored. *)
Theorem install_runs_on_generated_sources (d : Discovery) (st : Settings) :
  storageWorks (world d) ->
  exists sources fromResume,
    let prepared := setSources sources (clearKeywords (pipeline st)) in
    onInstalled d st
    = (Ok tt, {| pipeline := scrapeAllJobs (world d) prepared;
                 sourcesGeneratedFromResume := Some fromResume |})
    /\ activeSources prepared = sources
    /\ cacheFresh (world d) prepared = None
    /\ jobSources (scrapeAllJobs (world d) prepared) = Some sources
    /\ jobsLastError (scrapeAllJobs (world d) prepared) = None.
Proof.
  intros Hw. unfold onInstalled.
  set (st0 := {| pipeline := clearKeywords (pipeline st);
                 sourcesGeneratedFromResume := sourcesGeneratedFromResume st |}).
  destruct (generateInitialSources_outcome d st0 (Hw _))
    as [E|(sources & cvText & _ & _ & _ & Ev & E)].
  - exists FALLBACK_SOURCES, false. cbv zeta.
    split; [|split; [reflexivity|split; [reflexivity|split]]].
    + unfold bind at 1. unfold modify at 1. fold st0.
      unfold bind. rewrite E. reflexivity.
    + rewrite run_keeps_sources. reflexivity.
    + destruct (run_completes (world d)
                  (setSources FALLBACK_SOURCES (clearKeywords (pipeline st))) Hw)
        as (kws & s1 & _ & _ & ->).
      reflexivity.
  - exists sources, true. cbv zeta.
    destruct (verifiedSources_sound _ _ _ _ Ev) as (Hne & _).
    split; [|split; [|split; [reflexivity|split]]].
    + unfold bind at 1. unfold modify at 1. fold st0.
      unfold bind. rewrite E. reflexivity.
    + destruct Hne as [H|H].
      * apply (activeSources_nonempty _ _ Greenhouse); [reflexivity|exact H].
      * apply (activeSources_nonempty _ _ Lever); [reflexivity|exact H].
    + rewrite run_keeps_sources. reflexivity.
    + destruct (run_completes (world d)
                  (setSources sources (clearKeywords (pipeline st))) Hw)
        as (kws & s1 & _ & _ & ->).
      reflexivity.
Qed.

(** * Keywords *)

Lemma addMatching_spec (lowerText : string) (terms acc : list string) :
  (NoDup acc -> NoDup (addMatching lowerText terms acc))
  /\ forall k, In k (addMatching lowerText terms acc) <->
               In k acc \/ (In k terms /\ includes lowerText k = true).
Proof.
  unfold addMatching. revert acc.
  induction terms as [|t terms IH]; intros acc; simpl.
  - split; [auto|]. intros k. tauto.
  - destruct (includes lowerText t) eqn:E.
    + destruct (IH (set_add acc t)) as [IHn IHi]. split.
      * intros H. apply IHn, set_add_NoDup, H.
      * intros k. rewrite IHi, set_add_In. split.
        -- intros [[H| ->]|[H1 H2]]; auto.
        -- intros [H|[[->|H1] H2]]; auto.
    + destruct (IH acc) as [IHn IHi]. split; [exact IHn|].
      intros k. rewrite IHi. split.
      * intros [H|[H1 H2]]; auto.
      * intros [H|[[->|H1] H2]]; auto. congruence.
Qed.

(** X25. The pattern strategy returns, without repetition, exactly the
    terms of its vocabulary that occur in the text put in lower case; so a
    text in which a term occurs scores 100 against its own keywords. *)
Theorem extractSmartKeywords_sound (text : string) :
  NoDup (extractSmartKeywords text)
  /\ (forall k, In k (extractSmartKeywords text) <->
                In k vocabulary /\ includes (toLowerCase text) k = true)
  /\ (extractSmartKeywords text <> [] ->
      scoreJob text (extractSmartKeywords text)
      = (100, Z.of_nat (List.length (extractSmartKeywords text)))).
Proof.
  assert (Hin : forall k, In k (extractSmartKeywords text) <->
                          In k vocabulary /\ includes (toLowerCase text) k = true).
  { intros k. unfold extractSmartKeywords, vocabulary. cbv zeta.
    destruct (addMatching_spec (toLowerCase text) roleTerms
                (addMatching (toLowerCase text) techTerms [])) as [_ H2].
    destruct (addMatching_spec (toLowerCase text) techTerms []) as [_ H1].
    rewrite H2, H1, in_app_iff.
    split; [intros [[[]|H]|H]|intros [[H|H] H']]; tauto. }
  split; [|split; [exact Hin|]].
  - unfold extractSmartKeywords. cbv zeta.
    apply addMatching_spec, addMatching_spec. constructor.
  - intros Hne. unfold scoreJob.
    destruct (Z.eqb_spec (Z.of_nat (List.length (extractSmartKeywords text))) 0)
      as [E|E].
    + destruct (extractSmartKeywords text); [congruence|discriminate E].
    + rewrite count_matched_all.
      * rewrite js_percent_full by lia. reflexivity.
      * apply Forall_forall. intros k Hk. apply Hin in Hk. apply Hk.
Qed.

Lemma trimStart_first (s : string) (c : ascii) :
  first_char (trimStart s) = Some c -> is_space c = false.
Proof.
  induction s as [|d s IH]; [discriminate|]. cbn [trimStart].
  destruct (is_space d) eqn:E; [exact IH|].
  simpl. intros H. injection H as <-. exact E.
Qed.

Lemma trimStart_last (s : string) :
  last_char (trimStart s) = None \/ last_char (trimStart s) = last_char s.
Proof.
  induction s as [|d s IH]; [left; reflexivity|]. cbn [trimStart].
  destruct (is_space d); [|right; reflexivity].
  destruct IH as [IH|IH]; [left; exact IH|].
  rewrite last_char_cons, IH.
  destruct (last_char s) eqn:E; [right; reflexivity|left; reflexivity].
Qed.

Lemma trim_ends (s : string) :
  (forall c, first_char (trim s) = Some c -> is_space c = false)
  /\ (forall c, last_char (trim s) = Some c -> is_space c = false).
Proof.
  unfold trim. set (y := trimStart s).
  assert (Hy : forall c, first_char y = Some c -> is_space c = false)
    by apply trimStart_first.
  split; intros c.
  - rewrite rev_string_first. cbn [first_char].
    destruct (trimStart_last (rev_string "" y)) as [E|E]; rewrite E.
    + discriminate.
    + rewrite rev_string_last. cbn [last_char].
      destruct (first_char y) as [d|]; [|discriminate].
      intros H. injection H as <-. apply Hy. reflexivity.
  - rewrite rev_string_last. cbn [last_char]. apply trimStart_first.
Qed.

Lemma normalizeKeyword_clean (i : nat) (k : json) (s : string) :
  normalizeKeyword i k = Ok s -> s <> "" -> cleanKeyword s.
Proof.
  intros E Hne. split; [exact Hne|].
  split; [eapply normalizeKeyword_lowercase, E|].
  destruct k; simpl in E; try discriminate. apply Ok_inj in E. subst s.
  apply trim_ends.
Qed.

Lemma traverse_blank (items : list json) (i : nat) :
  Forall blankKeyword items ->
  exists ks, traverse_from normalizeKeyword i items = Ok ks
             /\ Forall (fun k => k = "") ks.
Proof.
  intros H. revert i. induction H as [|k items (s & -> & Es) _ IH]; intros i.
  - exists []. split; [reflexivity|constructor].
  - destruct (IH (S i)) as (ks & E & Hks). exists ("" :: ks). simpl.
    rewrite Es, E. split; [reflexivity|]. constructor; [reflexivity|exact Hks].
Qed.

(** X26. The keywords that aiExtractKeywords returns are not empty, in
    lower case and without white space at either end; and the check for an
    empty keywords array does not keep the result from being empty: a
    reply whose keywords are all blank strings gives no keyword, without
    an exception. *)
Theorem aiExtractKeywords_clean (w : World) (cvText apiKey model : string) :
  (forall kws, aiExtractKeywords w cvText apiKey model = Ok kws ->
               Forall cleanKeyword kws)
  /\ (forall status parsed items,
        chatKeywords w apiKey model (slice0 4000 cvText) = Http status (Some parsed) ->
        ok status = true ->
        getProp "keywords" parsed = Ok (Some (JArr items)) ->
        items <> [] ->
        Forall blankKeyword items ->
        aiExtractKeywords w cvText apiKey model = Ok []).
Proof.
  split.
  - intros kws. unfold aiExtractKeywords.
    destruct (chatKeywords w _ _ _) as [m|st [parsed|]]; try discriminate;
      destruct (negb (ok st)); try discriminate.
    destruct (getProp "keywords" parsed) as [[[| | | |[|k items]|]|]|];
      try discriminate.
    destruct (traverse_from normalizeKeyword 0 (k :: items)) as [ks|] eqn:Et;
      [|discriminate].
    intros E. apply Ok_inj in E. subst kws.
    apply Forall_forall. intros x Hx. apply filter_In in Hx.
    destruct Hx as [Hx Hlen].
    assert (Hne : x <> "").
    { intros ->. discriminate Hlen. }
    pose proof (traverse_from_Forall normalizeKeyword
                  (fun s => s <> "" -> cleanKeyword s) (k :: items) 0 ks) as HF.
    rewrite Forall_forall in HF. apply HF; trivial.
    intros n a b. apply normalizeKeyword_clean.
  - intros status parsed items Hchat Hok Hprop Hne Hblank.
    unfold aiExtractKeywords. rewrite Hchat, Hok. cbn [negb]. rewrite Hprop.
    destruct items as [|k items]; [congruence|].
    destruct (traverse_blank (k :: items) 0 Hblank) as (ks & -> & Hks).
    f_equal. induction Hks as [|x ks -> _ IH]; [reflexivity|exact IH].
Qed.

(** ** The ids of the stored list *)

Lemma filter_ids_distinct (keep : Job -> bool) (jobs : list Job) :
  NoDup (map id jobs) -> NoDup (map id (filter keep jobs)).
Proof.
  intros H. induction jobs as [|j rest IH]; simpl; [constructor|].
  inversion H as [|k ids Hfresh Hrest]; subst.
  destruct (keep j); [|exact (IH Hrest)].
  simpl. constructor; [|exact (IH Hrest)].
  rewrite in_map_iff. intros (other & E & Hother).
  apply filter_In in Hother. apply Hfresh. rewrite <- E.
  apply in_map, Hother.
Qed.

Lemma NoDup_firstn {A} (n : nat) (l : list A) : NoDup l -> NoDup (firstn n l).
Proof.
  revert n. induction l as [|x l IH]; intros n H.
  - rewrite firstn_nil. constructor.
  - destruct n; [constructor|]. inversion H as [|y l' Hn Hr]; subst.
    simpl. constructor; [|apply IH, Hr].
    intros Hin. apply Hn. eapply In_firstn, Hin.
Qed.

Lemma map_id_ranked (l l' : list Job) :
  map ranked l' = map ranked l -> map id l' = map id l.
Proof.
  revert l'. induction l as [|j l IH]; intros [|j' l'] E; try discriminate;
    [reflexivity|].
  simpl in E. assert (Ej : ranked j' = ranked j) by congruence.
  assert (El : map ranked l' = map ranked l) by congruence.
  simpl. rewrite (IH _ El). f_equal. unfold ranked in Ej. congruence.
Qed.

(** X27. When the jobs that a run fetches as new have distinct ids, the
    ids of the list it stores are distinct, also when the store held
    duplicates before the run. *)
Theorem run_keeps_ids_distinct (w : World) (s s' : Store) :
  scrapeBody w s = (Ok tt, s') ->
  NoDup (map id (fetchNew w (activeSources s) (existingIndex s))) ->
  NoDup (map id (storedJobs (scrapeAllJobs w s))).
Proof.
  intros E Hnew. rewrite (scrapeAllJobs_ok _ _ _ E).
  apply scrapeBody_ok in E. destruct E as (kws & s1 & _ & ->).
  unfold storedJobs. rewrite persisted_jobs. cbn [fromOption].
  rewrite (map_id_ranked _ _ (sizeGuard_ranked w _)).
  rewrite <- firstn_map. apply NoDup_firstn.
  eapply Permutation_NoDup;
    [apply Permutation_sym, Permutation_map, sort_perm|].
  rewrite map_map.
  assert (Em : map (fun x => id (rescore (newSet kws) x))
                   (prune (cutoff w) (merged w s))
               = map id (prune (cutoff w) (merged w s))).
  { apply map_ext. intros j. apply rescore_id. }
  rewrite Em. unfold prune. apply filter_ids_distinct.
  unfold merged. rewrite map_app. apply NoDup_app.
  - unfold existingIndex. rewrite Object_values_ids. apply indexById_NoDup.
  - exact Hnew.
  - intros k Hk Hk'. unfold existingIndex in Hk.
    rewrite Object_values_ids in Hk. apply indexById_keys in Hk.
    apply in_map_iff in Hk'. destruct Hk' as (j & <- & Hj).
    apply fetchNew_absent in Hj. contradiction.
Qed.

(** X28. When the resume cannot be downloaded and the stored keywords
    are older than 24 hours, a run scores with the stored keywords, as
    old as they are, and leaves them and their date as they were, so that
    the next run tries the download again; it completes without an
    error. *)
Theorem failed_download_keeps_old_keywords (w : World) (s : Store) (msg : string) :
  storageWorks w ->
  cacheFresh w s = None ->
  truthy (cvLink s) = true ->
  fetchGoogleDocTextBg w ForKeywords (orElse (cvLink s) "") = Throw msg ->
  let old := fromOption (cvKeywords s) in
  getCvKeywords w s = (Ok old, s)
  /\ cvKeywords (scrapeAllJobs w s) = cvKeywords s
  /\ cvKeywordsUpdatedAt (scrapeAllJobs w s) = cvKeywordsUpdatedAt s
  /\ jobsLastError (scrapeAllJobs w s) = None
  /\ forall j', In j' (storedJobs (scrapeAllJobs w s)) ->
       exists j, In j (merged w s) /\ samePosting j' j
                 /\ score j' = fst (scoreJob (jobText j) (newSet old)).
Proof.
  intros Hw Hc Hl Hdoc old.
  assert (Ek : getCvKeywords w s = (Ok old, s)).
  { unfold getCvKeywords. run_unfold. rewrite (Hw _), Hc, Hl, Hdoc.
    cbn [negb]. unfold old. destruct (cvKeywords s); reflexivity. }
  split; [exact Ek|].
  destruct (run_completes w s Hw) as (kws & s1 & Ek' & _ & ->).
  rewrite Ek in Ek'. injection Ek' as <- <-.
  split; [reflexivity|]. split; [reflexivity|]. split; [reflexivity|].
  intros j' Hj'. destruct (persisted_same _ _ _ _ _ Hj') as (j & Hj & Hsame & Hs).
  exists j. split; [|split; assumption].
  apply prune_In in Hj. apply Hj.
Qed.

(** ** Duplicates inside one batch *)

Section Batch.

Variable fetch : string -> Outcome (list Job).
Variable em : ObjectMap.

Lemma collect_acc (boards : list Board) (acc : list Job) :
  collect fetch em boards acc = acc ++ collect fetch em boards [].
Proof.
  revert acc. induction boards as [|b boards IH]; intros acc; simpl.
  - now rewrite app_nil_r.
  - destruct (fetch (token b)) as [fetched|msg].
    + rewrite (IH (acc ++ _)), (IH (filter _ _)). now rewrite app_assoc.
    + apply IH.
Qed.

Lemma collect_segment (boards : list Board) (acc : list Job) (b : Board)
      (fetched : list Job) :
  In b boards -> fetch (token b) = Ok fetched ->
  exists before after,
    collect fetch em boards acc = before ++ filter (isNew em) fetched ++ after.
Proof.
  revert acc. induction boards as [|b' boards IH]; intros acc Hb E;
    [contradiction|]. simpl. destruct Hb as [->|Hb].
  - rewrite E, collect_acc. exists acc, (collect fetch em boards []).
    now rewrite app_assoc.
  - apply IH; assumption.
Qed.

End Batch.

Lemma fetchNew_segment (w : World) (sources : JobSources) (em : ObjectMap)
      (p : provider) (b : Board) (fetched : list Job) :
  In b (boardsOf p sources) -> fetchJobs w p (token b) = Ok fetched ->
  exists before after,
    fetchNew w sources em = before ++ filter (isNew em) fetched ++ after.
Proof.
  intros Hb E. unfold fetchNew. destruct p; simpl in Hb, E.
  - rewrite collect_acc.
    destruct (collect_segment _ em _ [] _ _ Hb E) as (l1 & l2 & ->).
    exists l1, (l2 ++ collect (fetchLeverJobs w) em (lever sources) []).
    now rewrite <- !app_assoc.
  - eapply collect_segment; eassumption.
Qed.

Lemma occurrences_kept (k : string) (f : Job -> bool) (l : list Job) :
  (forall j, In j l -> id j = k -> f j = true) ->
  occurrences k (filter f l) = occurrences k l.
Proof.
  unfold occurrences. induction l as [|j l IH]; intros H; simpl; [reflexivity|].
  assert (IH' := IH (fun x Hx => H x (or_intror Hx))).
  destruct (String.eqb_spec (id j) k) as [E|E].
  - rewrite (H j (or_introl eq_refl) E). simpl.
    destruct (String.eqb_spec (id j) k); [|contradiction]. simpl. now rewrite IH'.
  - destruct (f j); simpl; [|exact IH'].
    destruct (String.eqb_spec (id j) k); [contradiction|exact IH'].
Qed.

Lemma persisted_all_occurrences (w : World) (s : Store) (kws : list string)
      (s1 : Store) (k : string) :
  Z.of_nat (List.length (prune (cutoff w) (merged w s))) <= MAX_JOBS ->
  occurrences k (storedJobs (persisted w s kws s1))
  = occurrences k (prune (cutoff w) (merged w s)).
Proof.
  intros Hlen. unfold storedJobs. rewrite persisted_jobs. cbn [fromOption].
  rewrite occurrences_sizeGuard, firstn_all2.
  - rewrite (occurrences_perm _ _ _ (sort_perm _)).
    apply occurrences_map. intros j. apply rescore_id.
  - rewrite (Permutation_length (sort_perm _)), length_map. lia.
Qed.

(** X29. A run does not remove duplicates inside what it fetches: when
    the reply of a board holds several postings of one id that the store
    does not hold yet, all inside the retention window, and the cap drops
    nothing, the run stores that id at least as many times as the reply
    holds it. *)
Theorem batch_duplicates_are_stored (w : World) (s s' : Store) (p : provider)
        (b : Board) (fetched : list Job) (k : string) :
  scrapeBody w s = (Ok tt, s') ->
  In b (boardsOf p (activeSources s)) ->
  fetchJobs w p (token b) = Ok fetched ->
  ~ In k (map id (storedJobs s)) ->
  (forall j, In j fetched -> id j = k ->
             exists ms, getTime (first_seen_at j) = Time ms /\ cutoff w < ms) ->
  Z.of_nat (List.length (prune (cutoff w) (merged w s))) <= MAX_JOBS ->
  (occurrences k fetched <= occurrences k (storedJobs (scrapeAllJobs w s)))%nat.
Proof.
  intros E Hb Ef Hk Hwin Hlen. rewrite (scrapeAllJobs_ok _ _ _ E).
  apply scrapeBody_ok in E. destruct E as (kws & s1 & _ & ->).
  rewrite persisted_all_occurrences by exact Hlen.
  unfold merged, prune.
  destruct (fetchNew_segment w (activeSources s) (existingIndex s) p b fetched Hb Ef)
    as (l1 & l2 & ->).
  rewrite !filter_app, !occurrences_app.
  assert (Hall : occurrences k
                   (filter (fun j => gt_time (getTime (first_seen_at j)) (cutoff w))
                           (filter (isNew (existingIndex s)) fetched))
                 = occurrences k fetched).
  { rewrite occurrences_kept.
    - apply occurrences_kept. intros j Hj Ej. apply isNew_absent.
      rewrite Ej. exact Hk.
    - intros j Hj Ej. apply filter_In in Hj. destruct Hj as [Hj _].
      destruct (Hwin j Hj Ej) as (ms & -> & Hms). simpl.
      apply Z.ltb_lt. exact Hms. }
  rewrite Hall. lia.
Qed.

(** * The properties at work on further concrete cases *)

Module MoreExamples.
Import Scenario Cases.

Lemma tokenize_tokens_witness :
  (2 < String.length "c++")%nat
  /\ string_forall is_token_char "c++" = true
  /\ lowercase "c++"
  /\ includes (toLowerCase "Senior C++ dev") "c++" = true.
Proof.
  apply (tokenize_tokens "Senior C++ dev" "c++"). vm_compute. auto.
Defined.

Lemma quoted_texts_score_100_witness :
  scoreJob "Senior RUST Developer (remote)" (keywordSet ["Rust developer"])
  = (100, Z.of_nat (List.length (keywordSet ["Rust developer"]))).
Proof.
  apply (quoted_texts_score_100 ["Rust developer"] "Senior RUST Developer (remote)").
  - vm_compute. discriminate.
  - intros text [<-|[]]. vm_compute. reflexivity.
Defined.

Lemma extractGoogleDocId_sound_witness :
  "abc_123" <> ""
  /\ string_forall is_id_char "abc_123" = true
  /\ includes "https://docs.google.com/document/d/abc_123/edit"
              (docPrefix ++ "abc_123") = true.
Proof.
  apply (extractGoogleDocId_sound "https://docs.google.com/document/d/abc_123/edit").
  vm_compute. reflexivity.
Defined.

Lemma extractGoogleDocId_finds_witness :
  extractGoogleDocId "https://docs.google.com/document/d/abc_123/edit"
  = Some "abc_123"
  /\ fetchGoogleDocTextBg offline ForKeywords
       "https://docs.google.com/document/d/abc_123/edit" = Ok resume.
Proof.
  destruct (extractGoogleDocId_finds "https://" "abc_123" "/edit") as [H1 H2].
  - vm_compute. reflexivity.
  - discriminate.
  - vm_compute. reflexivity.
  - vm_compute. reflexivity.
  - split; [exact H1|]. exact (eq_trans (H2 offline ForKeywords) eq_refl).
Defined.

Lemma fetched_jobs_normalised_witness :
  Forall (fun j => normalised Lever "beta" j /\ identified offline Lever "beta" j)
         betaJobs.
Proof.
  apply (fetched_jobs_normalised offline Lever "beta" betaJobs).
  vm_compute. reflexivity.
Defined.

Lemma garbled_date_loses_board_witness :
  fetchJobs garbling Greenhouse "acme" = Throw "Invalid time value"
  /\ fetchNew garbling (activeSources fresh) (existingIndex fresh)
     = fetchNew garbling
                (withBoards Greenhouse ([] ++ [mkBoard "down" "Down"])
                            (activeSources fresh))
                (existingIndex fresh).
Proof.
  apply (garbled_date_loses_board garbling fresh Greenhouse
           [] [mkBoard "down" "Down"] (mkBoard "acme" "Acme")).
  - reflexivity.
  - exists 200, (acme ++ [mkGh "3" (Some "Analyst") None None
                               (Some RawGarbage) None None]).
    split; [reflexivity|]. split; [reflexivity|].
    apply Exists_cons_tl, Exists_cons_tl, Exists_cons_hd. reflexivity.
Defined.

Lemma reachable_invariants_witness :
  StronglySorted ranksBefore (storedJobs afterTwo)
  /\ Forall wellKept (storedJobs afterTwo).
Proof.
  apply (reachable_invariants afterTwo).
  apply AfterRun, AfterRun, Installed. reflexivity.
Defined.

Lemma stored_posting_not_refreshed_witness :
  exists e, In e (storedJobs afterOne)
            /\ map_get (existingIndex afterOne) (id (firstStored afterTwo)) = Some e
            /\ samePosting (firstStored afterTwo) e.
Proof.
  apply (stored_posting_not_refreshed offline afterOne afterTwo (firstStored afterTwo)).
  - vm_compute. reflexivity.
  - vm_compute. auto.
  - vm_compute. auto.
Defined.

Lemma size_guard_truncates_witness :
  Forall (fun j => (String.length (description j) <= 500)%nat)
         (storedJobs (scrapeAllJobs heavy fresh))
  /\ Forall2 samePosting (storedJobs (scrapeAllJobs heavy fresh))
             (preGuard heavy fresh (keywordsOf heavy fresh)).
Proof.
  destruct (size_guard_truncates heavy fresh (scrapeAllJobs heavy fresh)
              (keywordsOf heavy fresh) (afterKeywords heavy fresh)) as [H _].
  - vm_compute. reflexivity.
  - vm_compute. reflexivity.
  - apply H. vm_compute. reflexivity.
Defined.

Lemma ai_ranking_persisted_witness :
  let stored := storedJobs (scrapeAllJobs repeating fresh) in
  let top100 := firstn 100 stored in
  let accepted :=
    filter (validIndex (List.length top100)) [JNum (0 # 1); JNum (0 # 1)] in
  topJobs (scrapeAllJobs repeating fresh)
  = Some (map (pick top100) (firstn 5 accepted))
  /\ map (pick top100) (firstn 5 accepted)
     = [Some (firstStored (scrapeAllJobs repeating fresh));
        Some (firstStored (scrapeAllJobs repeating fresh))].
Proof.
  cbv zeta. split; [|vm_compute; reflexivity].
  apply (ai_ranking_persisted repeating fresh resume 200
           (JArr [JNum (0 # 1); JNum (0 # 1)]) [JNum (0 # 1); JNum (0 # 1)]).
  - intros keys. reflexivity.
  - reflexivity.
  - reflexivity.
  - vm_compute. reflexivity.
  - vm_compute. reflexivity.
  - reflexivity.
  - reflexivity.
  - vm_compute. discriminate.
Defined.

Lemma run_without_resume_witness :
  getCvKeywords offline lapsed = (Ok [], lapsed)
  /\ Forall (fun j => score j = 0) (storedJobs (scrapeAllJobs offline lapsed))
  /\ StronglySorted newestFirst (storedJobs (scrapeAllJobs offline lapsed)).
Proof.
  apply (run_without_resume offline lapsed).
  - intros keys. reflexivity.
  - reflexivity.
  - vm_compute. reflexivity.
Defined.

Lemma keyword_cache_round_trip_witness :
  exists kws,
    getCvKeywords offline fresh
    = (Ok kws, setKeywords kws (clock offline AtKeywordStore) fresh)
    /\ kws = extractSmartKeywords resume
    /\ getCvKeywords repeating (setKeywords kws (clock offline AtKeywordStore) fresh)
       = (Ok kws, setKeywords kws (clock offline AtKeywordStore) fresh).
Proof.
  destruct (keyword_cache_round_trip offline fresh resume) as (kws & E & Hk & Hlater).
  - reflexivity.
  - reflexivity.
  - reflexivity.
  - vm_compute. reflexivity.
  - exists kws. split; [exact E|]. split.
    + destruct Hk as [[_ Hai]|Hk]; [|exact Hk]. vm_compute in Hai. discriminate Hai.
    + apply (Hlater repeating).
      * reflexivity.
      * vm_compute. reflexivity.
Defined.

Lemma status_after_run_witness :
  (exists status,
     getScrapeStatus offline afterOne = (Ok status, afterOne)
     /\ jobCount status = List.length (storedJobs afterOne)
     /\ lastError status = None
     /\ lastUpdated status = Some today)
  /\ (exists status,
        getScrapeStatus offline (scrapeAllJobs faulty staleStore)
        = (Ok status, scrapeAllJobs faulty staleStore)
        /\ lastError status = Some "Extension context invalidated."
        /\ jobCount status = 1%nat).
Proof.
  split.
  - destruct (status_after_run offline offline fresh eq_refl)
      as (status & E & Hc & Hok & _).
    exists status. split; [exact E|]. split; [exact Hc|].
    destruct (Hok afterOne) as (H1 & H2 & _); [vm_compute; reflexivity|].
    split; [exact H1|exact H2].
  - destruct (status_after_run faulty offline staleStore eq_refl)
      as (status & E & _ & _ & Hthrow).
    exists status. split; [exact E|].
    destruct (Hthrow "Extension context invalidated." staleStore) as (H1 & _ & H3);
      [vm_compute; reflexivity|].
    split; [exact H1|exact H3].
Defined.

Lemma jobs_tab_after_run_witness :
  rendered (searchJobs offline afterOne) = firstn 5 (storedJobs afterOne)
  /\ shownError (searchJobs offline afterOne) = None
  /\ (List.length (rendered (searchJobs offline afterOne)) <= 5)%nat
  /\ rendered (searchJobs offline (scrapeAllJobs outOfRange fresh))
     = firstn 5 (storedJobs (scrapeAllJobs outOfRange fresh))
  /\ shownError (searchJobs offline (scrapeAllJobs fractionalIndex fresh)) <> None.
Proof.
  destruct (jobs_tab_after_run offline offline fresh afterOne)
    as (Hlen & _ & _ & Hdefault).
  - vm_compute. reflexivity.
  - reflexivity.
  - destruct Hdefault as [H1 H2].
    + right. exists "Senior Python and Rust engineer". split; [reflexivity|].
      apply RankTransport.
    + split; [exact H1|]. split; [exact H2|]. split; [exact Hlen|].
      split.
      * destruct (jobs_tab_after_run outOfRange offline fresh
                    (scrapeAllJobs outOfRange fresh))
          as (_ & _ & _ & Hrange).
        -- vm_compute. reflexivity.
        -- reflexivity.
        -- destruct Hrange as [H3 _]; [exact Examples.outOfRange_unusable|exact H3].
      * destruct (jobs_tab_after_run fractionalIndex offline fresh
                    (scrapeAllJobs fractionalIndex fresh))
          as (_ & _ & Herr & _).
        -- vm_compute. reflexivity.
        -- reflexivity.
        -- intros H. apply Herr in H. apply H. vm_compute. left. reflexivity.
Defined.

Lemma addSource_adds_witness :
  let s' := snd (addSource offline Greenhouse "  MongoDB " bare) in
  boardsOf Greenhouse (sourcesOrEmpty s')
  = [mkBoard "acme" "Acme"; mkBoard "mongodb" "MongoDB"]
  /\ boardsOf Lever (sourcesOrEmpty s') = [mkBoard "beta" "Beta"]
  /\ snd (addSource offline Greenhouse "MONGODB" s') = s'
  /\ activeSources s' = sourcesOrEmpty s'.
Proof.
  destruct (addSource_adds offline Greenhouse "  MongoDB " bare)
    as (Hafter & _ & _ & Hother & Hagain & Hactive).
  - reflexivity.
  - vm_compute. discriminate.
  - cbv zeta. split; [exact Hafter|]. split; [|split].
    + apply (Hother Lever). discriminate.
    + apply Hagain. vm_compute. reflexivity.
    + exact Hactive.
Defined.

Lemma removeSource_removes_witness :
  let s' := snd (removeSource offline Lever 0 lonely) in
  boardsOf Lever (sourcesOrEmpty s') = []
  /\ shownSources s' = mkSources [] []
  /\ activeSources s' = FALLBACK_SOURCES.
Proof.
  destruct (removeSource_removes offline Lever 0 lonely)
    as (Hafter & _ & _ & Hempty).
  - reflexivity.
  - cbv zeta. split; [exact Hafter|]. apply Hempty.
    + reflexivity.
    + intros q Hq. destruct q; [reflexivity|congruence].
Defined.

Lemma generateInitialSources_sound_witness :
  exists sources,
    generateInitialSources scout setup = (Ok sources, generated sources true setup)
    /\ sources = mkSources [mkBoard "stripe" "Stripe Inc"] []
    /\ NoDup (map token (greenhouse sources))
    /\ activeSources (pipeline (generated sources true setup)) = sources.
Proof.
  destruct (generateInitialSources_sound scout setup)
    as (sources & fromResume & E & _ & Hnd & _ & _ & _ & Ha).
  - reflexivity.
  - assert (Es : Ok sources = Ok (mkSources [mkBoard "stripe" "Stripe Inc"] [])
                 /\ fromResume = true).
    { assert (H := f_equal fst E). assert (H' := f_equal (fun x => sourcesGeneratedFromResume (snd x)) E).
      vm_compute in H. vm_compute in H'. split; congruence. }
    destruct Es as [Es ->]. apply Ok_inj in Es.
    exists sources. split; [exact E|]. split; [exact Es|].
    split; [exact Hnd|exact Ha].
Defined.

Lemma install_runs_on_generated_sources_witness :
  exists sources fromResume,
    onInstalled scout setup
    = (Ok tt, {| pipeline := scrapeAllJobs offline
                               (setSources sources (clearKeywords fresh));
                 sourcesGeneratedFromResume := Some fromResume |})
    /\ jobSources (scrapeAllJobs offline (setSources sources (clearKeywords fresh)))
       = Some sources
    /\ jobsLastError (scrapeAllJobs offline (setSources sources (clearKeywords fresh)))
       = None.
Proof.
  destruct (install_runs_on_generated_sources scout setup)
    as (sources & fromResume & E & _ & _ & Hs & He).
  - intros keys. reflexivity.
  - exists sources, fromResume. split; [exact E|]. split; [exact Hs|exact He].
Defined.

Lemma extractSmartKeywords_sound_witness :
  scoreJob resume (extractSmartKeywords resume)
  = (100, Z.of_nat (List.length (extractSmartKeywords resume))).
Proof.
  destruct (extractSmartKeywords_sound resume) as (_ & _ & H).
  apply H. vm_compute. discriminate.
Defined.

Lemma aiExtractKeywords_clean_witness :
  aiExtractKeywords blank resume "sk-test" "gpt-4o-mini" = Ok [].
Proof.
  destruct (aiExtractKeywords_clean blank resume "sk-test" "gpt-4o-mini") as [_ H].
  apply (H 200 (JObj [("keywords", JArr [JStr "  "])]) [JStr "  "]).
  - reflexivity.
  - reflexivity.
  - reflexivity.
  - discriminate.
  - constructor; [|constructor]. exists "  ". split; reflexivity.
Defined.

Lemma run_keeps_ids_distinct_witness : NoDup (map id (storedJobs afterOne)).
Proof.
  apply (run_keeps_ids_distinct offline fresh afterOne).
  - vm_compute. reflexivity.
  - vm_compute. repeat constructor; simpl; intuition discriminate.
Defined.

Lemma failed_download_keeps_old_keywords_witness :
  getCvKeywords docless outdated = (Ok ["python"], outdated)
  /\ cvKeywordsUpdatedAt (scrapeAllJobs docless outdated) = Some (today - 2 * day)
  /\ jobsLastError (scrapeAllJobs docless outdated) = None.
Proof.
  destruct (failed_download_keeps_old_keywords docless outdated "Doc export HTTP 403")
    as (H1 & _ & H3 & H4 & _).
  - intros keys. reflexivity.
  - vm_compute. reflexivity.
  - reflexivity.
  - vm_compute. reflexivity.
  - split; [exact H1|]. split; [exact H3|exact H4].
Defined.

Lemma batch_duplicates_are_stored_witness :
  (occurrences "greenhouse|acme|https://boards.greenhouse.io/acme/jobs/1" echoed
   <= occurrences "greenhouse|acme|https://boards.greenhouse.io/acme/jobs/1"
                  (storedJobs (scrapeAllJobs echoing fresh)))%nat
  /\ occurrences "greenhouse|acme|https://boards.greenhouse.io/acme/jobs/1" echoed
     = 2%nat.
Proof.
  split; [|vm_compute; reflexivity].
  apply (batch_duplicates_are_stored echoing fresh (scrapeAllJobs echoing fresh)
           Greenhouse (mkBoard "acme" "Acme") echoed).
  - vm_compute. reflexivity.
  - vm_compute. auto.
  - vm_compute. reflexivity.
  - vm_compute. tauto.
  - intros j Hj _. vm_compute in Hj.
    repeat (destruct Hj as [<-|Hj];
            [eexists; split; [reflexivity|vm_compute; reflexivity]|]).
    contradiction.
  - vm_compute. discriminate.
Defined.

End MoreExamples.
